(** * ramfs: an in-memory 9P2000 file server

    A shallow embedding of the block-paged file buffer ([file.go]), the
    group database, the node tree with its permission checks ([node.go]),
    the fid layer ([fid.go]) and the connection error latch ([conn.go]),
    together with the properties of these parts.

    Conventions.  Go's unsigned integers are modelled as [Z] with the
    wrap-around written out ([u64], [u32]); maps are [gmap]s; pointers to
    nodes are locations in a store; an operation returns an [outcome]
    that tells a normal return from an error return, a run-time panic
    and a call that never returns. *)

From Stdlib Require Import ZArith String Ascii List Lia.
From Stdlib.Strings Require Import Byte.
From stdpp Require Import base numbers option list gmap strings fin_maps.

Local Open Scope string_scope.
Local Open Scope list_scope.
Local Open Scope Z_scope.

(** ** Machine integers *)

Definition u64 (x : Z) : Z := x mod 2 ^ 64.
Definition u32 (x : Z) : Z := x mod 2 ^ 32.

(** [len(p)] of a Go slice, as an integer. *)
Definition len {A} (l : list A) : Z := Z.of_nat (length l).

(** ** Errors and outcomes *)

(** [perror] is the package's string error type; [EOF] is [io.EOF]. *)
Inductive error : Type :=
  | perror (msg : string)
  | EOF.

Inductive outcome (A : Type) : Type :=
  | Ok (a : A)            (* the call returns with a nil error *)
  | Err (e : error)       (* the call returns a non-nil error *)
  | Panic (msg : string)  (* a run-time panic *)
  | Deadlock              (* a lock is taken that the caller already holds *)
  | Fuel.                 (* the model's loop bound was too small *)
Arguments Ok {A} a.
Arguments Err {A} e.
Arguments Panic {A} msg.
Arguments Deadlock {A}.
Arguments Fuel {A}.

(** ** Byte slices *)

Definition bytes_of (s : string) : list byte :=
  map byte_of_ascii (list_ascii_of_string s).

(** [make([]byte, n)] *)
Definition make (n : Z) : list byte := replicate (Z.to_nat n) x00.

(** [s[off:]]; the bounds check fails when [off > len(s)]. *)
Definition slice_from (s : list byte) (off : Z) : option (list byte) :=
  if len s <? off then None else Some (drop (Z.to_nat off) s).

(** [copy(dst[off:], p)] seen on the whole of [dst]: the bytes copied
    replace those at [off ..]; returns the new [dst] and the count. *)
Definition copy_at (dst : list byte) (off : Z) (p : list byte) : list byte * Z :=
  let m := Z.min (len dst - off) (len p) in
  (take (Z.to_nat off) dst ++ take (Z.to_nat m) p ++ drop (Z.to_nat (off + m)) dst, m).

(** ** The file buffer ([file.go]) *)

Module File.

Record file : Type := mkFile {
  size : Z;
  block : gmap Z (list byte);
  blockSize : Z
}.

Definition newFile (blockSize : Z) : file :=
  {| size := 0; block := ∅; blockSize := blockSize |}.

Definition set_block (num : Z) (b : list byte) (f : file) : file :=
  {| size := size f; block := <[num := b]> (block f); blockSize := blockSize f |}.

Definition set_size (s : Z) (f : file) : file :=
  {| size := s; block := block f; blockSize := blockSize f |}.

(** The first half of the loop body of [WriteAt]: a missing block is
    allocated with [consume] bytes, a block shorter than [off+consume]
    is reallocated and copied; either way [expanded] is set. *)
Definition reserve (num off consume : Z) (expanded : bool) (f : file)
    : file * bool :=
  match block f !! num with
  | None => (set_block num (make consume) f, true)
  | Some b =>
    if len b <? u64 (off + consume)
    then (set_block num (b ++ make (u64 (off + consume) - len b)) f, true)
    else (f, expanded)
  end.

(** The size accounting at the end of the loop body. *)
Definition account (expanded : bool) (m : Z) (f : file) : file :=
  if expanded then
    if size f <? m
    then set_size (u64 (size f + u64 (m - size f))) f
    else set_size (u64 (size f + m)) f
  else f.

(** The [for len(p) > 0] loop of [WriteAt]. *)
Fixpoint WriteAt_loop (fuel : nat) (p : list byte) (num off : Z)
    (expanded : bool) (n : Z) (f : file) : outcome Z * file :=
  match p with
  | [] => (Ok n, f)
  | _ :: _ =>
    match fuel with
    | O => (Fuel, f)
    | S fuel =>
      let consume := u64 (blockSize f - off) in
      let consume := if len p <? consume then len p else consume in
      let '(f, expanded) := reserve num off consume expanded f in
      let b := default [] (block f !! num) in
      match slice_from b off with
      | None => (Panic "slice bounds out of range", f)
      | Some _ =>
        let '(b', m) := copy_at b off p in
        let f := set_block num b' f in
        let p := drop (Z.to_nat m) p in
        let n := n + m in
        let f := account expanded m f in
        WriteAt_loop fuel p (u64 (num + 1)) 0 expanded n f
      end
    end
  end.

(** [off := uint64(offset); if off > f.size { off = f.size }] *)
Definition clamp (offset : Z) (f : file) : Z :=
  let off := offset in
  if size f <? off then size f else off.

Definition WriteAt (p : list byte) (offset : Z) (f : file) : outcome Z * file :=
  if offset <? 0 then (Err (perror "negative offset"), f) else
  let off := clamp offset f in
  if blockSize f =? 0 then (Panic "integer divide by zero", f) else
  let num := off / blockSize f in
  let off := off mod blockSize f in
  WriteAt_loop (S (length p)) p num off false 0 f.

(** The loop of [ReadAt]; [count] is [len(p)] of the destination and the
    result is what has been copied into it, in order. *)
Fixpoint ReadAt_loop (fuel : nat) (count : Z) (num off : Z) (f : file)
    (acc : list byte) : outcome (list byte) :=
  if count <=? 0 then Ok acc else
  match slice_from (default [] (block f !! num)) off with
  | None => Panic "slice bounds out of range"
  | Some avail =>
    if len avail <=? 0 then Ok acc else
    match fuel with
    | O => Fuel
    | S fuel =>
      let m := Z.min count (len avail) in
      ReadAt_loop fuel (count - m) (u64 (num + 1)) 0 f
        (acc ++ take (Z.to_nat m) avail)
    end
  end.

(** [ReadAt(p, offset)] with [lenp = len(p)]: the outcome carries
    [p[:n]], the bytes read; the buffer itself is returned as it is,
    [ReadAt] assigns to no field. *)
Definition ReadAt (lenp : Z) (offset : Z) (f : file) : outcome (list byte) * file :=
  if offset <? 0 then (Err (perror "negative offset"), f) else
  let off := offset in
  if size f <? off then (Err EOF, f) else
  if blockSize f =? 0 then (Panic "integer divide by zero", f) else
  let num := off / blockSize f in
  let count := lenp in
  let count := if size f <? u64 (off + count) then u64 (size f - off) else count in
  let off := off mod blockSize f in
  (ReadAt_loop (Z.to_nat count) count num off f [], f).

Definition Len (f : file) : Z := size f.
Definition Close (f : file) : outcome unit := Ok tt.

(** Running a list of writes, as the test table of [file_test.go] does. *)
Fixpoint write_all (ws : list (string * Z)) (f : file) : file :=
  match ws with
  | [] => f
  | (d, o) :: ws => write_all ws (snd (WriteAt (bytes_of d) o f))
  end.

Definition writeTests : list (string * Z) :=
  [("as", 12); ("df", 2); ("ghjk", 4); ("xxxx", 0);
   ("iiiittttq", 8); ("s", 0); ("uuuu", 800)].

(** *** The invariant of a buffer *)

Definition uint64_range (x : Z) : Prop := 0 <= x < 2 ^ 64.

(** Every block is at most [blockSize] long. *)
Definition blocks_bounded (f : file) : Prop :=
  map_Forall (fun _ b => len b <= blockSize f) (block f).

(** What holds of every buffer the package builds: the fields are in the
    range of their type, the block size is not zero and no block is
    longer than it. *)
Definition file_ok (f : file) : Prop :=
  0 < blockSize f < 2 ^ 64 /\ uint64_range (size f) /\ blocks_bounded f.

End File.

(** ** The connection's error latch ([conn.go]) *)

Module Conn.

(** Of [conn] the latch needs the [err] field; [None] is the nil error.
    The mutex [x] only brackets the accesses. *)
Record conn : Type := mkConn {
  err : option error;
  uid : string
}.

Definition setErr (e : option error) (c : conn) : conn :=
  match e with
  | None => {| err := e; uid := uid c |}     (* if err == nil { c.err = err } *)
  | Some _ => c
  end.

Definition getErr (c : conn) : option error := err c.

End Conn.

(** ** Constants of the 9P2000 protocol *)

(** Modelled from the spec: the constants and the [Dir] and [Qid] records
    of package [plan9], which the sources import and do not contain; the
    values are those of the 9P2000 protocol. *)
Module plan9.

Definition DMDIR : Z := 0x80000000.
Definition DMAPPEND : Z := 0x40000000.
Definition DMEXCL : Z := 0x20000000.
Definition DMAUTH : Z := 0x08000000.
Definition DMTMP : Z := 0x04000000.
Definition DMREAD : Z := 0x4.
Definition DMWRITE : Z := 0x2.
Definition DMEXEC : Z := 0x1.

Definition QTDIR : Z := 0x80.

Definition OREAD : Z := 0.
Definition OWRITE : Z := 1.
Definition ORDWR : Z := 2.
Definition OEXEC : Z := 3.
Definition OTRUNC : Z := 16.
Definition ORCLOSE : Z := 64.

Definition MAXWELEM : Z := 16.

Record Qid : Type := mkQid {
  qType : Z;   (* Qid.Type, uint8 *)
  Vers : Z;    (* uint32 *)
  Path : Z     (* uint64 *)
}.

(** [Type_] is the field [Type] of [Dir], which [walk] reads as
    [stat.Type]; the type of the qid is [Qid.Type], reached through the
    field [Qid] as [n.dir.Qid.Vers] and [n.dir.Qid.Path] are. *)
Record Dir : Type := mkDir {
  Type_ : Z;   (* Dir.Type, uint16: the server type, not the qid type *)
  Dev : Z;
  qid : Qid;   (* Dir.Qid *)
  Mode : Z;    (* Perm, uint32 *)
  Atime : Z;
  Mtime : Z;
  Length : Z;
  Name : string;
  Uid : string;
  Gid : string;
  Muid : string
}.

End plan9.

Import plan9.

(** Octal literals of the sources. *)
Abbreviation o777 := 511 (only parsing).
Abbreviation o666 := 438 (only parsing).
Abbreviation o755 := 493 (only parsing).
Abbreviation o775 := 509 (only parsing).
Abbreviation o770 := 504 (only parsing).
Abbreviation o750 := 488 (only parsing).
Abbreviation o664 := 436 (only parsing).
Abbreviation o660 := 432 (only parsing).
Abbreviation o644 := 420 (only parsing).
Abbreviation o640 := 416 (only parsing).
Abbreviation o444 := 292 (only parsing).
Abbreviation o220 := 144 (only parsing).

Definition set_Mode (m : Z) (d : Dir) : Dir :=
  mkDir (Type_ d) (Dev d) (qid d) m (Atime d) (Mtime d) (Length d)
        (Name d) (Uid d) (Gid d) (Muid d).
Definition set_Name (s : string) (d : Dir) : Dir :=
  mkDir (Type_ d) (Dev d) (qid d) (Mode d) (Atime d) (Mtime d) (Length d)
        s (Uid d) (Gid d) (Muid d).
Definition set_Gid (s : string) (d : Dir) : Dir :=
  mkDir (Type_ d) (Dev d) (qid d) (Mode d) (Atime d) (Mtime d) (Length d)
        (Name d) (Uid d) s (Muid d).
Definition set_Atime (t : Z) (d : Dir) : Dir :=
  mkDir (Type_ d) (Dev d) (qid d) (Mode d) t (Mtime d) (Length d)
        (Name d) (Uid d) (Gid d) (Muid d).
Definition set_Mtime (t : Z) (d : Dir) : Dir :=
  mkDir (Type_ d) (Dev d) (qid d) (Mode d) (Atime d) t (Length d)
        (Name d) (Uid d) (Gid d) (Muid d).
Definition set_Length (n : Z) (d : Dir) : Dir :=
  mkDir (Type_ d) (Dev d) (qid d) (Mode d) (Atime d) (Mtime d) n
        (Name d) (Uid d) (Gid d) (Muid d).
Definition set_Vers (v : Z) (d : Dir) : Dir :=
  mkDir (Type_ d) (Dev d) (mkQid (qType (qid d)) v (Path (qid d))) (Mode d)
        (Atime d) (Mtime d) (Length d) (Name d) (Uid d) (Gid d) (Muid d).

(** [m & bit != 0] *)
Definition has_bit (m bit : Z) : bool := negb (Z.land m bit =? 0).

(** ** The group database ([group.go]) *)

Module Group.

Record user : Type := mkUser {
  uName : string;                 (* user.Name *)
  Leader : string;
  Member : gmap string bool
}.

(** [g[groupId].Member[uid] = true]: the member map is shared with the
    entry, the entry changes in place. *)
Definition add_member (uid : string) (u : user) : user :=
  mkUser (uName u) (Leader u) (<[uid := true]> (Member u)).

Definition UserAdd (uid : string) (g : gmap string user)
    : outcome unit * gmap string user :=
  match g !! uid with
  | Some _ => (Err (perror ("user " +:+ uid +:+ " exists")), g)
  | None => (Ok tt, <[uid := mkUser uid uid ∅]> g)
  end.

(** The second loop of [GroupAdd]. *)
Fixpoint GroupAdd_loop (uid : string) (gid : list string)
    (g : gmap string user) : gmap string user :=
  match gid with
  | [] => g
  | groupId :: gid =>
    if bool_decide (groupId = uid) then GroupAdd_loop uid gid g
    else GroupAdd_loop uid gid (alter (add_member uid) groupId g)
  end.

(** The first loop of [GroupAdd]: the first group that is not found. *)
Fixpoint GroupAdd_check (gid : list string) (g : gmap string user)
    : option string :=
  match gid with
  | [] => None
  | groupId :: gid =>
    match g !! groupId with
    | None => Some groupId
    | Some _ => GroupAdd_check gid g
    end
  end.

Definition GroupAdd (uid : string) (gid : list string) (g : gmap string user)
    : outcome unit * gmap string user :=
  match g !! uid with
  | None => (Err (perror ("user " +:+ uid +:+ " not found")), g)
  | Some _ =>
    match GroupAdd_check gid g with
    | Some groupId => (Err (perror ("group " +:+ groupId +:+ " not found")), g)
    | None => (Ok tt, GroupAdd_loop uid gid g)
    end
  end.

Definition Exist (uid : string) (g : gmap string user) : bool :=
  bool_decide (is_Some (g !! uid)).

(** [newGroup(owner)]; the composite literal lists [owner] last, and a
    later key replaces an earlier equal one. *)
Definition newGroup (owner : string) : gmap string user :=
  <[owner := mkUser owner owner ∅]>
    (<["none" := mkUser "none" "none" ∅]>
      (<["adm" := mkUser "adm" "adm" {[owner := true]}]> ∅)).

(** [group.Get] *)
Definition Get (uid : string) (g : gmap string user) : outcome user :=
  match g !! uid with
  | Some u => Ok u
  | None => Err (perror ("user " +:+ uid +:+ " not found"))
  end.

Record command : Type := mkCommand {
  cName : string;               (* command.Name *)
  Args : list string
}.

Definition bad (b : byte) : bool :=
  match b with
  | x20 | x09 | x0a | x0d => true     (* ' ', '\t', '\n', '\r' *)
  | _ => false
  end.

(** The scanner of [unmarshal] for a [*command]: [done] holds the
    arguments closed so far, newest first, [cur] the one being filled
    ([nelem] is [cur = None]); [n] is [length done] plus one for [cur]
    and [m] is the length of [cur]. *)
Fixpoint scan (data : list byte) (done : list (list byte))
    (cur : option (list byte)) : outcome (list (list byte)) :=
  match data with
  | [] =>
    Ok (rev (match cur with Some a => a :: done | None => done end))
  | c :: data =>
    if bad c then
      match cur with
      | None => scan data done None
      | Some a => scan data (a :: done) None
      end
    else
      match cur with
      | None =>
        if 64 <=? len done then Err (perror "too many arguments")
        else scan data done (Some [c])
      | Some a =>
        if len a =? 64 then Err (perror "argument too long")
        else scan data done (Some (a ++ [c]))
      end
  end.

Definition unmarshal_command (data : list byte) : outcome command :=
  match scan data [] None with
  | Ok [] => Err (perror "command name missing")
  | Ok (a :: args) =>
    Ok (mkCommand (string_of_list_byte a) (map string_of_list_byte args))
  | Err e => Err e
  | Panic msg => Panic msg
  | Deadlock => Deadlock
  | Fuel => Fuel
  end.

(** [group.WriteAt] on the group map. *)
Definition WriteAt (p : list byte) (offset : Z) (g : gmap string user)
    : outcome Z * gmap string user :=
  match unmarshal_command p with
  | Ok cmd =>
    if negb (bool_decide (cName cmd = "uname"))
    then (Err (perror ("invalid command " +:+ cName cmd)), g)
    else
      match Args cmd with
      | [a0; a1] =>
        let r :=
          match a1 with
          | String first rest =>
            if (1 <? Z.of_nat (String.length a1)) && bool_decide (first = "+"%char)
            then GroupAdd a0 [rest] g
            else if bool_decide (a0 = a1) then UserAdd a0 g
            else if (1 <? Z.of_nat (String.length a1)) && bool_decide (first = ":"%char)
            then UserAdd a0 g
            else (Err (perror "invalid command"), g)
          | EmptyString =>
            if bool_decide (a0 = a1) then UserAdd a0 g
            else (Err (perror "invalid command"), g)
          end in
        match r with
        | (Ok _, g') => (Ok (len p), g')
        | (Err e, g') => (Err e, g')
        | (Panic msg, g') => (Panic msg, g')
        | (Deadlock, g') => (Deadlock, g')
        | (Fuel, g') => (Fuel, g')
        end
      | _ => (Err (perror "uname requires 2 arguments"), g)
      end
  | Err e => (Err e, g)
  | Panic msg => (Panic msg, g)
  | Deadlock => (Deadlock, g)
  | Fuel => (Fuel, g)
  end.

End Group.

(** ** The file server state, nodes and fids ([fs.go], [node.go], [fid.go]) *)

Module Ramfs.

Definition maxPath : Z := 2 ^ 64 - 1.
Definition BLOCKSIZE : Z := 2 * 1024 * 1024.

Definition errPerm : error := perror "permission denied".

(** A [*node] is a location of the node store; [None] is the nil
    pointer. *)
Definition loc : Type := nat.

(** The implementations of the [buffer] interface.  The [*group] of a
    file server is one shared object, kept in the server state. *)
Inductive buffer : Type :=
  | BufFile (f : File.file)
  | BufGroup
  | BufCtl.

Record node : Type := mkNode {
  file : option buffer;                  (* nil for a directory *)
  dir : Dir;
  parent : option loc;
  children : option (gmap string loc);   (* the nil map for a file *)
  open : bool;
  orclose : bool
}.

Record FS : Type := mkFS {
  path : Z;
  pathmap : gmap Z bool;
  root : loc;
  group : gmap string Group.user;        (* fs.group.groupmap *)
  hostowner : string;
  nodes : gmap loc node;                 (* the nodes allocated so far *)
  listening : list (string * string)     (* the [go fs.Listen] of ctl *)
}.

Definition set_file (b : option buffer) (n : node) : node :=
  mkNode b (dir n) (parent n) (children n) (open n) (orclose n).
Definition set_dir (d : Dir) (n : node) : node :=
  mkNode (file n) d (parent n) (children n) (open n) (orclose n).
Definition set_parent (p : option loc) (n : node) : node :=
  mkNode (file n) (dir n) p (children n) (open n) (orclose n).
Definition set_children (c : option (gmap string loc)) (n : node) : node :=
  mkNode (file n) (dir n) (parent n) c (open n) (orclose n).
Definition set_open (b : bool) (n : node) : node :=
  mkNode (file n) (dir n) (parent n) (children n) b (orclose n).
Definition set_orclose (b : bool) (n : node) : node :=
  mkNode (file n) (dir n) (parent n) (children n) (open n) b.

Definition set_path (p : Z) (s : FS) : FS :=
  mkFS p (pathmap s) (root s) (group s) (hostowner s) (nodes s) (listening s).
Definition set_pathmap (m : gmap Z bool) (s : FS) : FS :=
  mkFS (path s) m (root s) (group s) (hostowner s) (nodes s) (listening s).
Definition set_group (g : gmap string Group.user) (s : FS) : FS :=
  mkFS (path s) (pathmap s) (root s) g (hostowner s) (nodes s) (listening s).
Definition set_nodes (m : gmap loc node) (s : FS) : FS :=
  mkFS (path s) (pathmap s) (root s) (group s) (hostowner s) m (listening s).
Definition set_listening (l : list (string * string)) (s : FS) : FS :=
  mkFS (path s) (pathmap s) (root s) (group s) (hostowner s) (nodes s) l.

(** *** Calls on the server state *)

Definition M (A : Type) : Type := FS -> outcome A * FS.

Definition ret {A} (a : A) : M A := fun s => (Ok a, s).
Definition fail {A} (e : error) : M A := fun s => (Err e, s).
Definition panic {A} (msg : string) : M A := fun s => (Panic msg, s).
Definition deadlock {A} : M A := fun s => (Deadlock, s).

(** [a, err := m; if err != nil { return err }; k a] *)
Definition bind {A B} (m : M A) (k : A -> M B) : M B := fun s =>
  match m s with
  | (Ok a, s') => k a s'
  | (Err e, s') => (Err e, s')
  | (Panic msg, s') => (Panic msg, s')
  | (Deadlock, s') => (Deadlock, s')
  | (Fuel, s') => (Fuel, s')
  end.

Notation "x <- m ;; k" := (bind m (fun x => k))
  (at level 100, m at next level, right associativity).
Notation "m ;;; k" := (bind m (fun _ => k))
  (at level 100, right associativity).

Definition nilDeref : string := "invalid memory address or nil pointer dereference".

(** Following a pointer to a node. *)
Definition get_node (l : loc) : M node := fun s =>
  match nodes s !! l with
  | Some n => (Ok n, s)
  | None => (Panic nilDeref, s)
  end.

Definition deref (p : option loc) : M (loc * node) :=
  match p with
  | None => panic nilDeref
  | Some l => n <- get_node l ;; ret (l, n)
  end.

Definition set_node (l : loc) (n : node) : M unit := fun s =>
  (Ok tt, set_nodes (<[l := n]> (nodes s)) s).

Definition modify_node (l : loc) (f : node -> node) : M unit :=
  n <- get_node l ;; set_node l (f n).

(** [newNode]; [now] is the clock read by [time.Now().Unix()]. *)
Definition newNode (name uid gid : string) (perm : Z) (path : Z)
    (b : option buffer) (now : Z) : node :=
  let now := u32 now in
  let d := mkDir 0 0 (mkQid (Z.shiftr perm 24 mod 2 ^ 8) 0 path)
                 perm now now 0 name uid gid uid in
  if has_bit perm DMDIR
  then mkNode None d None (Some ∅) false false
  else mkNode b d None None false false.

Section Oracles.

(** The order in which a [range] loop visits a map is not fixed by Go;
    [order] stands for it.  [dirBytes] is [plan9.Dir.Bytes], the
    directory entry encoder of the frame codec. *)
Variable order : forall (K : Type) (E : EqDecision K) (C : Countable K) (V : Type),
  gmap K V -> list (K * V).
Variable dirBytes : Dir -> outcome (list byte).

Definition range {K} `{Countable K} {V} (m : gmap K V) : list (K * V) :=
  order K _ _ V m.

(** *** The path allocator *)

Definition newPath : M Z := fun s =>
  match range (pathmap s) with
  | (p, _) :: _ => (Ok p, set_pathmap (delete p (pathmap s)) s)
  | [] =>
    let p := path s in
    if path s =? maxPath then (Err (perror "out of paths"), s)
    else (Ok p, set_path (u64 (path s + 1)) s)
  end.

Definition delPath (p : Z) : M unit := fun s =>
  (Ok tt, set_pathmap (<[p := true]> (pathmap s)) s).

(** *** The synthetic files *)

(** [user.Bytes] *)
Definition user_Bytes (u : Group.user) : list byte :=
  let member := String.concat "" (map (fun m => fst m +:+ ",") (range (Group.Member u))) in
  let member :=
    if negb (bool_decide (member = ""))
    then String.substring 0 (String.length member - 1) member
    else member in
  let uid := Group.uName u in
  bytes_of (uid +:+ ":" +:+ uid +:+ ":" +:+ Group.Leader u +:+ ":" +:+ member).

(** [groupmap.Bytes]: the entries, each followed by a newline. *)
Definition groupmap_Bytes (g : gmap string Group.user) : list byte :=
  concat (map (fun e => user_Bytes (snd e) ++ bytes_of (String "010" "")) (range g)).

(** [group.ReadAt], with [lenp = len(p)]; gives [p[:n]]. *)
Definition group_ReadAt (lenp offset : Z) (g : gmap string Group.user)
    : outcome (list byte) :=
  if offset <? 0 then Err (perror "negative offset") else
  let data := groupmap_Bytes g in
  if len data <? offset then Err EOF
  else Ok (take (Z.to_nat lenp) (drop (Z.to_nat offset) data)).

(** [ctl.WriteAt] *)
Definition ctl_WriteAt (p : list byte) (offset : Z) : M Z :=
  match Group.unmarshal_command p with
  | Ok cmd =>
    if bool_decide (Group.cName cmd = "listen") then
      match Group.Args cmd with
      | [network; addr] =>
        fun s => (Ok (len p), set_listening (listening s ++ [(network, addr)]) s)
      | _ => fail (perror "listen requires 2 arguments")
      end
    else fail (perror ("invalid command " +:+ Group.cName cmd))
  | Err e => fail e
  | Panic msg => panic msg
  | Deadlock => deadlock
  | Fuel => fun s => (Fuel, s)
  end.

(** The calls through the [buffer] interface of the node at [l]. *)
Definition buffer_Len (b : buffer) : Z :=
  match b with
  | BufFile f => File.Len f
  | BufGroup => 0
  | BufCtl => 0
  end.

Definition buffer_WriteAt (l : loc) (n : node) (b : buffer)
    (p : list byte) (offset : Z) : M Z := fun s =>
  match b with
  | BufFile f =>
    let '(r, f') := File.WriteAt p offset f in
    (r, set_nodes (<[l := set_file (Some (BufFile f')) n]> (nodes s)) s)
  | BufGroup =>
    let '(r, g') := Group.WriteAt p offset (group s) in
    (r, set_group g' s)
  | BufCtl => ctl_WriteAt p offset s
  end.

Definition buffer_ReadAt (b : buffer) (lenp offset : Z) : M (list byte) := fun s =>
  match b with
  | BufFile f => (fst (File.ReadAt lenp offset f), s)
  | BufGroup => (group_ReadAt lenp offset (group s), s)
  | BufCtl => (Err (perror "reading ctl file"), s)
  end.

(** *** Nodes *)

Definition Open (l : loc) (mode : Z) : M unit :=
  n <- get_node l ;;
  if has_bit (Mode (dir n)) DMEXCL && open n
  then fail (perror "exclusive use file already open")
  else
    let n := if has_bit (Mode (dir n)) DMEXCL && negb (open n)
             then set_open true n else n in
    let n := if has_bit mode ORCLOSE then set_orclose true n else n in
    set_node l n.

Definition Create (l : loc) (uid name : string) (mode perm : Z) (now : Z)
    : M loc :=
  if bool_decide (name = ".") || bool_decide (name = "..")
  then fail (perror "illegal name")
  else
    n <- get_node l ;;
    let perm :=
      if has_bit perm DMDIR
      then Z.lor (Z.ldiff perm o777) (Z.land (Mode (dir n)) o777)
      else Z.lor (Z.ldiff perm o666) (Z.land (Mode (dir n)) o666) in
    if negb (has_bit (Mode (dir n)) DMDIR) then fail (perror "not a directory")
    else if has_bit (Mode (dir n)) DMEXCL && open n
    then fail (perror "exclusive use file already open")
    else
      path <- newPath ;;
      let node :=
        set_parent (Some l)
          (newNode name uid (Gid (dir n)) perm path
                   (Some (BufFile (File.newFile BLOCKSIZE))) now) in
      match default ∅ (children n) !! name with
      | Some f => Open f mode ;;; ret f
      | None =>
        match children n with
        | None => panic "assignment to entry in nil map"
        | Some ch =>
          fun s =>
            let l' := fresh (dom (nodes s)) in
            (set_node l' node ;;;
             set_node l (set_children (Some (<[name := l']> ch)) n) ;;;
             ret l') s
        end
      end.

(** [remove], called with the lock of the node held: taking the lock of
    a parent that is the node itself never returns. *)
Definition remove (l : loc) : M unit :=
  n <- get_node l ;;
  if has_bit (Mode (dir n)) DMDIR
     && negb (Z.of_nat (stdpp.base.size (default ∅ (children n))) =? 0)
  then fail (perror "directory not empty")
  else
    match parent n with
    | None => panic nilDeref
    | Some pl =>
      if bool_decide (pl = l) then deadlock
      else
        pn <- get_node pl ;;
        let name := Name (dir n) in
        match default ∅ (children pn) !! name with
        | None => fail (perror "file does not exist")
        | Some _ =>
          set_node pl (set_children (delete name <$> children pn) pn) ;;;
          delPath (Path (qid (dir n)))
        end
    end.

Definition Close (l : loc) : M unit :=
  n <- get_node l ;;
  set_node l (if has_bit (Mode (dir n)) DMEXCL && open n
              then set_open false n else n) ;;;
  (if negb (has_bit (Mode (dir n)) DMDIR)
   then match file n with
        | None => panic nilDeref
        | Some _ => ret tt
        end
   else ret tt) ;;;
  if orclose n then remove l else ret tt.

Definition Remove (l : loc) : M unit := remove l.

Definition WriteAt (l : loc) (p : list byte) (offset : Z) (now : Z) : M Z :=
  n <- get_node l ;;
  if has_bit (Mode (dir n)) DMDIR then fail (perror "is a directory")
  else
    offset <-
      (if has_bit (Mode (dir n)) DMAPPEND then
         match file n with
         | None => panic nilDeref
         | Some b =>
           if 2 ^ 63 - 1 <? buffer_Len b then fail (perror "offset overflow")
           else ret (buffer_Len b)
         end
       else ret offset) ;;
    match file n with
    | None => panic nilDeref
    | Some b =>
      m <- buffer_WriteAt l n b p offset ;;
      n <- get_node l ;;
      let now := u32 now in
      let d := set_Atime now (dir n) in
      let d := set_Mtime now d in
      let d := set_Length (match file n with
                           | Some b => buffer_Len b
                           | None => 0
                           end) d in
      let d := if negb (has_bit (Mode (dir n)) DMTMP)
               then set_Vers (u32 (Vers (qid d) + 1)) d else d in
      set_node l (set_dir d n) ;;;
      ret m
    end.

Definition ReadAt (l : loc) (lenp offset : Z) (now : Z) : M (list byte) :=
  n <- get_node l ;;
  if has_bit (Mode (dir n)) DMDIR then fail (perror "is a directory")
  else
    match file n with
    | None => panic nilDeref
    | Some b =>
      data <- buffer_ReadAt b lenp offset ;;
      set_node l (set_dir (set_Atime (u32 now) (dir n)) n) ;;;
      ret data
    end.

Fixpoint Readdir_loop (cs : list (string * loc)) (data : list byte)
    : M (list byte) :=
  match cs with
  | [] => ret data
  | (_, f) :: cs =>
    fn <- get_node f ;;
    match dirBytes (dir fn) with
    | Ok buf => Readdir_loop cs (data ++ buf)
    | Err e => fail e
    | Panic msg => panic msg
    | Deadlock => deadlock
    | Fuel => fun s => (Fuel, s)
    end
  end.

Definition Readdir (l : loc) : M (list byte) :=
  n <- get_node l ;;
  if negb (has_bit (Mode (dir n)) DMDIR) then fail (perror "not a directory")
  else Readdir_loop (range (default ∅ (children n))) [].

Definition Stat (l : loc) : M Dir :=
  n <- get_node l ;; ret (dir n).

Definition HasPerm (l : loc) (uname : string) (perm : Z) : M bool :=
  n <- get_node l ;;
  let other := 7 in
  let perm := Z.land perm other in
  let fperm := Z.land (Mode (dir n)) other in
  if bool_decide (uname = "none") && (Z.land fperm perm =? perm) then ret true
  else fun s =>
    match Group.Get uname (group s) with
    | Ok _ =>
      let fperm :=
        if bool_decide (Uid (dir n) = uname)
        then Z.lor fperm (Z.land (Z.shiftr (Mode (dir n)) 6) other)
        else fperm in
      if Z.land fperm perm =? perm then (Ok true, s)
      else
        match Group.Get (Gid (dir n)) (group s) with
        | Ok fgroup =>
          let fperm :=
            if bool_decide (is_Some (Group.Member fgroup !! uname))
            then Z.lor fperm (Z.land (Z.shiftr (Mode (dir n)) 3) other)
            else fperm in
          (Ok (Z.land fperm perm =? perm), s)
        | _ => (Panic ("user " +:+ Gid (dir n) +:+ " not found"), s)
        end
    | _ => (Ok false, s)
    end.

(** The mode a [Wstat] writes: the permission bits stay, the rest is
    taken from the request. *)
Definition wstat_mode (req old : Z) : Z :=
  if has_bit req DMDIR
  then Z.lor (Z.ldiff req o777) (Z.land old o777)
  else Z.lor (Z.ldiff req o666) (Z.land old o666).

(** Which of the three changes a request asks for: a field with the
    "don't touch" value, or with the value the node has, asks nothing. *)
Definition wstat_chmod (d : Dir) (n : node) : bool :=
  negb (Mode d =? 0xFFFFFFFF) && negb (Mode d =? Mode (dir n)).
Definition wstat_rename (d : Dir) (n : node) : bool :=
  negb (bool_decide (Name d = "")) && negb (bool_decide (Name d = Name (dir n))).
Definition wstat_chgrp (d : Dir) (n : node) : bool :=
  negb (bool_decide (Gid d = "")) && negb (bool_decide (Gid d = Gid (dir n))).

(** The first half of [Wstat]: the checks. *)
Definition Wstat_check (uname : string) (d : Dir) (n : node) : M unit :=
  (* To change mode, must be owner or group leader. *)
  (if wstat_chmod d n && negb (bool_decide (uname = Uid (dir n)))
                      && negb (bool_decide (uname = Gid (dir n)))
   then fail (perror "not owner") else ret tt) ;;;
  (* To change name, must have write permission in parent and name must
     be unique. *)
  (if wstat_rename d n then
     pn <- deref (parent n) ;;
     ok <- HasPerm (fst pn) uname DMWRITE ;;
     if negb ok then fail errPerm
     else if bool_decide (is_Some (default ∅ (children (snd pn)) !! Name d))
     then fail (perror "file exists")
     else ret tt
   else ret tt) ;;;
  (* To change group, must be owner and member of new group *)
  (if wstat_chgrp d n then
     fun s =>
       match Group.Get (Gid (dir n)) (group s) with
       | Ok fgroup =>
         if bool_decide (is_Some (Group.Member fgroup !! uname))
         then (Ok tt, s) else (Err (perror "not owner"), s)
       | _ => (Panic ("user " +:+ Gid (dir n) +:+ " not found"), s)
       end
   else ret tt).

(** The second half of [Wstat], under the comment "all ok; do it". *)
Definition Wstat_apply (l : loc) (d : Dir) (n : node) : M unit :=
  (if wstat_chmod d n
   then modify_node l (fun n => set_dir (set_Mode (wstat_mode (Mode d) (Mode (dir n))) (dir n)) n)
   else ret tt) ;;;
  (if wstat_rename d n then
     pn <- deref (parent n) ;;
     let pl := fst pn in
     set_node pl
       (set_children (delete (Name (dir n)) <$> children (snd pn)) (snd pn)) ;;;
     (if bool_decide (pl = l) then deadlock else ret tt) ;;;
     modify_node l (fun n => set_dir (set_Name (Name d) (dir n)) n) ;;;
     pn <- get_node pl ;;
     match children pn with
     | None => panic "assignment to entry in nil map"
     | Some ch => set_node pl (set_children (Some (<[Name d := l]> ch)) pn)
     end
   else ret tt) ;;;
  (if wstat_chgrp d n
   then modify_node l (fun n => set_dir (set_Gid (Gid d) (dir n)) n)
   else ret tt).

Definition Wstat (l : loc) (uname : string) (d : Dir) : M unit :=
  n <- get_node l ;;
  Wstat_check uname d n ;;;
  Wstat_apply l d n.

(** [walk]; [C] is what the callback closes over. *)
Fixpoint walk {C} (root : loc) (path : list string)
    (fn : loc -> list string -> C -> M C) (c : C) : M C :=
  match path with
  | [] => ret c
  | name :: path =>
    r <- get_node root ;;
    node <-
      (if bool_decide (name = "..") then ret (parent r)
       else match default ∅ (children r) !! name with
            | Some n => ret (Some n)
            | None => fail (perror "file does not exist")
            end) ;;
    nd <- deref node ;;
    stat <- Stat (fst nd) ;;
    if (0 <? Z.land (Type_ stat) QTDIR) && (0 <? Z.land (Mode stat) DMEXEC)
    then fail errPerm
    else
      c <- fn (fst nd) path c ;;
      walk (fst nd) path fn c
  end.

(** [strings.Split(s, sep)] for a one-byte separator. *)
Fixpoint strings_Split (s : string) (sep : ascii) (cur : string) : list string :=
  match s with
  | EmptyString => [cur]
  | String a s =>
    if bool_decide (a = sep) then cur :: strings_Split s sep ""
    else strings_Split s sep (cur +:+ String a "")
  end.

Definition split (path : string) : list string :=
  if bool_decide (path = "") || bool_decide (path = "/") || bool_decide (path = ".")
  then []
  else
    match path with
    | String "/" rest => strings_Split rest "/" ""
    | _ => strings_Split path "/" ""
    end.

(** [FS.walk]: the callback keeps the node of the last step in [base];
    [None] stands for the empty node [base] starts with. *)
Definition FS_walk (name : string) : M (option loc) := fun s =>
  let path := split name in
  match path with
  | [] => (Ok (Some (root s)), s)
  | _ =>
    walk (root s) path
      (fun n path base => ret (match path with [] => Some n | _ => base end))
      None s
  end.

(** *** Fids *)

Record Fid : Type := mkFid {
  num : Z;
  uid : string;
  fnode : loc;          (* Fid.node *)
  opened : bool;
  buf : list byte;
  ref : Z
}.

Definition Fid_Create (f : Fid) (name : string) (mode perm : Z) (now : Z)
    : M Fid :=
  ok <- HasPerm (fnode f) (uid f) perm ;;
  if negb ok then fail errPerm
  else
    nd <- Create (fnode f) (uid f) name mode perm now ;;
    ret (mkFid (num f) (uid f) nd true (buf f) (ref f)).

(** [Fid.Open]; the fid is marked open before the node is asked, so it
    is returned with the outcome. *)
Definition Fid_Open (f : Fid) (mode : Z) : FS -> outcome unit * Fid * FS := fun s =>
  if opened f then (Err (perror "file already open for I/O"), f, s)
  else
    let m3 := Z.land mode 3 in
    let perm :=
      if m3 =? OREAD then DMREAD
      else if m3 =? OWRITE then DMWRITE
      else if m3 =? ORDWR then Z.lor DMREAD DMWRITE
      else 0 in
    let perm := if has_bit mode OTRUNC then Z.lor perm DMWRITE else perm in
    match HasPerm (fnode f) (uid f) perm s with
    | (Ok true, s) =>
      let f := mkFid (num f) (uid f) (fnode f) true (buf f) (ref f) in
      let '(r, s) := Open (fnode f) mode s in (r, f, s)
    | (Ok false, s) => (Err errPerm, f, s)
    | (Err e, s) => (Err e, f, s)
    | (Panic msg, s) => (Panic msg, f, s)
    | (Deadlock, s) => (Deadlock, f, s)
    | (Fuel, s) => (Fuel, f, s)
    end.

End Oracles.

(** [New(hostowner)]: the tree of a fresh file server.  The nodes sit at
    the locations 0 to 4, in the order in which [New] makes them. *)
Definition New (hostowner : string) (now : Z) : FS :=
  let owner := if bool_decide (hostowner = "") then "adm" else hostowner in
  let root := newNode "/" owner "adm" (Z.lor o755 DMDIR) 0 None now in
  let adm := newNode "adm" "adm" "adm" (Z.lor o770 DMDIR) 1 None now in
  let group := newNode "group" "adm" "adm" o660 2 (Some BufGroup) now in
  let ctl := newNode "ctl" "adm" "adm" o220 3 (Some BufCtl) now in
  let root := set_children (Some {[ "adm" := 1%nat ]}) root in
  let adm := set_children (Some {[ "group" := 2%nat; "ctl" := 3%nat ]}) adm in
  let root := set_parent (Some 0%nat) root in
  let adm := set_parent (Some 0%nat) adm in
  let group := set_parent (Some 1%nat) group in
  let ctl := set_parent (Some 1%nat) ctl in
  let nodes : gmap loc node :=
    {[ 0%nat := root; 1%nat := adm; 2%nat := group; 3%nat := ctl ]} in
  let '(root, nodes) :=
    if negb (bool_decide (owner = "adm")) then
      let n := newNode owner owner owner (Z.lor o750 DMDIR) 4 None now in
      let n := set_parent (Some 0%nat) n in
      (set_children (Some (<[owner := 4%nat]> (default ∅ (children root)))) root,
       <[4%nat := n]> nodes)
    else (root, nodes) in
  mkFS 5 ∅ 0%nat (Group.newGroup owner) owner (<[0%nat := root]> nodes) [].

(** The order of [map_to_list], one of the orders a [range] can take. *)
Definition listed : forall (K : Type) (E : EqDecision K) (C : Countable K) (V : Type),
  gmap K V -> list (K * V) :=
  fun K E C V m => map_to_list m.

(** *** The servers of the package's tests *)

(** The server of [TestPermission]: host owner [bootes], a user
    [glenda] who is a member of [adm], and a file of owner and group
    [adm] with the mode [perm]. *)
Definition permission_fs (perm : Z) : FS * loc :=
  let fs := New "bootes" 0 in
  let g := <["glenda" := Group.mkUser "glenda" "glenda" ∅]> (group fs) in
  let g := alter (Group.add_member "glenda") "adm" g in
  let fs := set_group g fs in
  match Create listed (root fs) "adm" "/file" ORDWR perm 0 fs with
  | (Ok f, fs) =>
    (snd (modify_node f (fun n => set_dir (set_Mode perm (dir n)) n) fs), f)
  | (_, fs) => (fs, 0%nat)
  end.

(** The three opens of the test: write, read-write, read. *)
Definition permission_row (perm : Z) (uname : string) : list (outcome unit) :=
  let '(fs, f) := permission_fs perm in
  map (fun mode => fst (fst (Fid_Open (mkFid 0 uname f false [] 0) mode fs)))
      [OWRITE; ORDWR; OREAD].

(** A file server in which the user [none] owns a file: [none] attaches
    (the fid of an unknown user carries the uid [none]) and creates
    [/f] with the permission word 0444 in the root directory. *)
Definition none_file : outcome Fid * FS :=
  Fid_Create listed (mkFid 0 "none" 0%nat false [] 0) "f" ORDWR o444 0
             (New "bootes" 0).

(** The server of [TestFileServerWstat]: host owner [adm], and the
    files [/file1] and [/file2] created by [adm] with the word 0664;
    the location is that of [/file1]. *)
Definition wstat_fs : FS * loc :=
  let fs := New "" 0 in
  match Create listed (root fs) "adm" "file1" ORDWR o664 0 fs with
  | (Ok f, fs) =>
    (snd (Create listed (root fs) "adm" "file2" ORDWR o664 0 fs), f)
  | (_, fs) => (fs, 0%nat)
  end.

(** The request of the test: the entry of [/file1] with another name
    and another mode. *)
Definition wstat_request (name : string) (mode : Z) : Dir :=
  mkDir 0 0 (mkQid 0 0 5) mode 0 0 0 name "adm" "adm" "adm".

(** A request that asks for the group [gid] and nothing else. *)
Definition chgrp_request (gid : string) : Dir :=
  mkDir 0 0 (mkQid 0 0 0) 0xFFFFFFFF 0 0 0 "" "" gid "".

(** The tree of [TestWalk]: directories [a], [a/b], [a/b/c], [a/b/d]
    with the mode 0775 and the files [fa], [fb] in [c], all made by
    [newNode] and linked by hand under the root of a fresh server. *)
Definition walk_fs : FS :=
  let fs := New "" 0 in
  let mk name perm path parent children :=
    set_children children
      (set_parent (Some parent) (newNode name "" "" perm path None 0)) in
  let dirA := mk "a" (Z.lor o775 DMDIR) 0 0%nat (Some {[ "b" := 11%nat ]}) in
  let dirB := mk "b" (Z.lor o775 DMDIR) 1 10%nat
                 (Some {[ "c" := 12%nat; "d" := 13%nat ]}) in
  let dirC := mk "c" (Z.lor o775 DMDIR) 2 11%nat
                 (Some {[ "fa" := 14%nat; "fb" := 15%nat ]}) in
  let dirD := mk "d" (Z.lor o775 DMDIR) 3 11%nat (Some ∅) in
  let fileA := mk "fa" o664 4 12%nat None in
  let fileB := mk "fb" o664 5 12%nat None in
  let ns := <[10%nat := dirA]> (<[11%nat := dirB]> (<[12%nat := dirC]>
            (<[13%nat := dirD]> (<[14%nat := fileA]> (<[15%nat := fileB]>
            (nodes fs)))))) in
  let ns := alter (fun r => set_children
                     (Some (<["a" := 10%nat]> (default ∅ (children r)))) r)
                  0%nat ns in
  set_nodes ns fs.

(** The encoder of directory entries is not part of the sources; where
    an example needs one, this one stands in. *)
Definition noBytes : Dir -> outcome (list byte) := fun _ => Ok [].

(** *** Notions used to state the properties *)

(** The child called [name] of the directory at [l]. *)
Definition child (s : FS) (l : loc) (name : string) : option loc :=
  match nodes s !! l with
  | Some n => default ∅ (children n) !! name
  | None => None
  end.

(** The node a step called [name] leads to from [r]. *)
Definition step_target (r : node) (name : string) : option loc :=
  if bool_decide (name = "..") then parent r
  else default ∅ (children r) !! name.

(** The check of a step: the [Type] word of the directory entry, which
    is not the type of the qid, against the directory bit of a qid type,
    and the mode against the execute bit. *)
Definition step_denied (nd : node) : bool :=
  (0 <? Z.land (Type_ (dir nd)) QTDIR) && (0 <? Z.land (Mode (dir nd)) DMEXEC).

(** Writing the node [n] at [l]. *)
Definition upd (l : loc) (n : node) (s : FS) : FS :=
  set_nodes (<[l := n]> (nodes s)) s.

(** [keeps I m Q]: the call [m] keeps the invariant [I] of the server
    state, however it comes back, and returns values in [Q]. *)
Definition keeps (I : FS -> Prop) {A} (m : M A) (Q : A -> Prop) : Prop :=
  forall s, I s -> I (snd (m s)) /\ forall a, fst (m s) = Ok a -> Q a.

Definition any {A} : A -> Prop := fun _ => True.

(** The [Type] word of every directory entry is zero. *)
Definition entries_untyped (s : FS) : Prop :=
  forall l n, nodes s !! l = Some n -> Type_ (dir n) = 0.

(** Every node of [s0] is still there in [s], with the same [key]. *)
Definition same_on {X} (key : Dir -> X) (s0 s : FS) : Prop :=
  forall l n0, nodes s0 !! l = Some n0 ->
    exists n, nodes s !! l = Some n /\ key (dir n) = key (dir n0).

(** [x] may be the [key] of the node at [l]: it is the key that node
    has in [s0], if it is there. *)
Definition admissible {X} (key : Dir -> X) (s0 : FS) (l : loc) (x : X) : Prop :=
  forall n0, nodes s0 !! l = Some n0 -> x = key (dir n0).

(** The operations on nodes, as a client of the package can call them
    one after the other. *)
Inductive op : Type :=
  | OpCreate (l : loc) (uid name : string) (mode perm now : Z)
  | OpOpen (l : loc) (mode : Z)
  | OpClose (l : loc)
  | OpRemove (l : loc)
  | OpWriteAt (l : loc) (p : list byte) (offset now : Z)
  | OpReadAt (l : loc) (lenp offset now : Z)
  | OpReaddir (l : loc)
  | OpStat (l : loc)
  | OpWstat (l : loc) (uname : string) (d : Dir)
  | OpHasPerm (l : loc) (uname : string) (perm : Z).

(** The state in which an operation leaves the server, however it
    comes back. *)
Definition run
    (order : forall (K : Type) (E : EqDecision K) (C : Countable K) (V : Type),
       gmap K V -> list (K * V))
    (dirBytes : Dir -> outcome (list byte)) (o : op) (s : FS) : FS :=
  match o with
  | OpCreate l uid name mode perm now => snd (Create order l uid name mode perm now s)
  | OpOpen l mode => snd (Open l mode s)
  | OpClose l => snd (Close l s)
  | OpRemove l => snd (Remove l s)
  | OpWriteAt l p offset now => snd (WriteAt l p offset now s)
  | OpReadAt l lenp offset now => snd (ReadAt order l lenp offset now s)
  | OpReaddir l => snd (Readdir order dirBytes l s)
  | OpStat l => snd (Stat l s)
  | OpWstat l uname d => snd (Wstat l uname d s)
  | OpHasPerm l uname perm => snd (HasPerm l uname perm s)
  end.

Definition run_all
    (order : forall (K : Type) (E : EqDecision K) (C : Countable K) (V : Type),
       gmap K V -> list (K * V))
    (dirBytes : Dir -> outcome (list byte)) (ops : list op) (s : FS) : FS :=
  fold_left (fun s o => run order dirBytes o s) ops s.

Definition is_write (o : op) : bool :=
  match o with
  | OpWriteAt _ _ _ _ => true
  | _ => false
  end.

(** [j] increments of a version. *)
Definition bumps (j : nat) (v : Z) : Z := Nat.iter j (fun v => u32 (v + 1)) v.

(** Every node of [s0] is still there in [s], its version at most [k]
    increments further. *)
Definition versions_within (k : nat) (s0 s : FS) : Prop :=
  forall l n0, nodes s0 !! l = Some n0 ->
    exists n j, nodes s !! l = Some n /\ (j <= k)%nat /\
      Vers (qid (dir n)) = bumps j (Vers (qid (dir n0))).

(** *** More of the fid ([fid.go]) *)

Definition u16 (x : Z) : Z := x mod 2 ^ 16.

Definition set_ref (r : Z) (f : Fid) : Fid :=
  mkFid (num f) (uid f) (fnode f) (opened f) (buf f) r.
Definition set_opened (b : bool) (f : Fid) : Fid :=
  mkFid (num f) (uid f) (fnode f) b (buf f) (ref f).
Definition set_buf (b : list byte) (f : Fid) : Fid :=
  mkFid (num f) (uid f) (fnode f) (opened f) b (ref f).

Definition incRef (f : Fid) : Fid := set_ref (u16 (ref f + 1)) f.

(** [decRef] gives the count it leaves. *)
Definition decRef (f : Fid) : Z * Fid :=
  if ref f =? 0 then (0, f)
  else let f := set_ref (u16 (ref f - 1)) f in (ref f, f).

Definition refCount (f : Fid) : Z := ref f.
Definition isOpen (f : Fid) : bool := opened f.

Definition errNotOpen : error := perror "file not open for I/O".

(** [p.HasPerm(...)] on a pointer that may be nil. *)
Definition HasPerm_ptr (p : option loc) (uname : string) (perm : Z) : M bool :=
  match p with
  | None => panic nilDeref
  | Some l => HasPerm l uname perm
  end.

(** The permission to remove: write permission on the node, then on its
    parent. *)
Definition remove_perm (f : Fid) (n : node) : M unit :=
  ok <- HasPerm (fnode f) (uid f) DMWRITE ;;
  if negb ok then fail errPerm
  else
    ok <- HasPerm_ptr (parent n) (uid f) DMWRITE ;;
    if negb ok then fail errPerm else ret tt.

(** The calls of a fid give the outcome, the fid as the call leaves it
    and the server state. *)
Definition Fid_Close (f : Fid) : FS -> outcome unit * Fid * FS := fun s =>
  if negb (isOpen f) then (Err errNotOpen, f, s)
  else
    match nodes s !! fnode f with
    | None => (Panic nilDeref, f, s)
    | Some n =>
      let '(r, s) :=
        (if has_bit (Mode (dir n)) ORCLOSE then remove_perm f n else ret tt) s in
      match r with
      | Ok _ =>
        let f := set_opened false f in
        let '(r, s) := Close (fnode f) s in (r, f, s)
      | _ => (r, f, s)
      end
    end.

Definition Fid_Remove (f : Fid) : FS -> outcome unit * Fid * FS := fun s =>
  if negb (isOpen f) then (Err errNotOpen, f, s)
  else
    match nodes s !! fnode f with
    | None => (Panic nilDeref, f, s)
    | Some n =>
      let '(r, s) := (remove_perm f n ;;; Remove (fnode f)) s in (r, f, s)
    end.

Definition Fid_ReadAt
    (order : forall (K : Type) (E : EqDecision K) (C : Countable K) (V : Type),
       gmap K V -> list (K * V))
    (dirBytes : Dir -> outcome (list byte))
    (f : Fid) (lenp offset now : Z)
    : FS -> outcome (list byte) * Fid * FS := fun s =>
  if negb (isOpen f) then (Err errNotOpen, f, s)
  else
    match Stat (fnode f) s with
    | (Ok stat, s) =>
      if has_bit (Mode stat) DMDIR then
        let fill : outcome unit * Fid * FS :=
          if offset =? 0 then
            match Readdir order dirBytes (fnode f) s with
            | (Ok data, s) => (Ok tt, set_buf data f, s)
            | (Err e, s) => (Err e, set_buf [] f, s)
            | (Panic msg, s) => (Panic msg, f, s)
            | (Deadlock, s) => (Deadlock, f, s)
            | (Fuel, s) => (Fuel, f, s)
            end
          else (Ok tt, f, s) in
        match fill with
        | (Ok _, f, s) =>
          let n := Z.min lenp (len (buf f)) in
          (Ok (take (Z.to_nat n) (buf f)), set_buf (drop (Z.to_nat n) (buf f)) f, s)
        | (Err e, f, s) => (Err e, f, s)
        | (Panic msg, f, s) => (Panic msg, f, s)
        | (Deadlock, f, s) => (Deadlock, f, s)
        | (Fuel, f, s) => (Fuel, f, s)
        end
      else
        let '(r, s) := ReadAt order (fnode f) lenp offset now s in (r, f, s)
    | (Err e, s) => (Err e, f, s)
    | (Panic msg, s) => (Panic msg, f, s)
    | (Deadlock, s) => (Deadlock, f, s)
    | (Fuel, s) => (Fuel, f, s)
    end.

Definition Fid_WriteAt (f : Fid) (p : list byte) (offset now : Z)
    : FS -> outcome Z * Fid * FS := fun s =>
  if negb (isOpen f) then (Err errNotOpen, f, s)
  else
    match Stat (fnode f) s with
    | (Ok stat, s) =>
      if has_bit (Mode stat) DMDIR then (Err (perror "is a directory"), f, s)
      else let '(r, s) := WriteAt (fnode f) p offset now s in (r, f, s)
    | (Err e, s) => (Err e, f, s)
    | (Panic msg, s) => (Panic msg, f, s)
    | (Deadlock, s) => (Deadlock, f, s)
    | (Fuel, s) => (Fuel, f, s)
    end.

(** *** More notions used to state the properties *)

(** Every entry of a child map leads to a node that has the directory
    as its parent and the key as its name. *)
Definition tree_ok (s : FS) : Prop :=
  forall d dn name c,
    nodes s !! d = Some dn -> default ∅ (children dn) !! name = Some c ->
    exists cn, nodes s !! c = Some cn /\ parent cn = Some d /\
               Name (dir cn) = name.

(** The part of a node that the tree is made of. *)
Definition shape (n : node) : option loc * string * option (gmap string loc) :=
  (parent n, Name (dir n), children n).

(** The node a path leads to from [l], with the errors of [walk]. *)
Fixpoint resolve (s : FS) (l : loc) (path : list string) : outcome loc :=
  match path with
  | [] => Ok l
  | name :: path =>
    match nodes s !! l with
    | None => Panic nilDeref
    | Some r =>
      if negb (bool_decide (name = ".."))
         && negb (bool_decide (is_Some (default ∅ (children r) !! name)))
      then Err (perror "file does not exist")
      else
        match step_target r name with
        | None => Panic nilDeref
        | Some t =>
          match nodes s !! t with
          | None => Panic nilDeref
          | Some nd =>
            if step_denied nd then Err errPerm else resolve s t path
          end
        end
    end
  end.

(** The callback of [FS.walk]: it keeps the node of the last step. *)
Definition keep_last (n : loc) (path : list string) (base : option loc)
    : M (option loc) :=
  ret (match path with [] => Some n | _ => base end).

(** An order of visit lists entries of the map only. *)
Definition order_sound
    (order : forall (K : Type) (E : EqDecision K) (C : Countable K) (V : Type),
       gmap K V -> list (K * V)) : Prop :=
  forall K E C V (m : gmap K V) k v,
    In (k, v) (order K E C V m) -> m !! k = Some v.

(** The freed path ids lie below the counter, and the counter in the
    range of its type. *)
Definition paths_ok (s : FS) : Prop :=
  0 <= path s < 2 ^ 64 /\
  forall p, is_Some (pathmap s !! p) -> 0 <= p < path s.

(** The path ids in use: handed out and not given back. *)
Definition allocated (s : FS) (p : Z) : Prop :=
  0 <= p < path s /\ pathmap s !! p = None.

(** The tokens of a command line, with one space between them. *)
Fixpoint join_tokens (toks : list (list byte)) : list byte :=
  match toks with
  | [] => []
  | [t] => t
  | t :: toks => t ++ x20 :: join_tokens toks
  end.

(** A token that the scanner of commands takes whole. *)
Definition token_ok (t : list byte) : Prop :=
  t <> [] /\ len t <= 64 /\ Forall (fun c => Group.bad c = false) t.

End Ramfs.

(** ** The server ([server.go]) *)

Module Server.

Definition maxConn : Z := 2 ^ 32 - 1.
Definition IOHDRSZ : Z := 24.                  (* plan9.IOHDRSZ *)
Definition MSIZE : Z := 128 * 1024 + IOHDRSZ.
Definition IOUNIT : Z := 128 * 1024.
Definition VERSION9P : string := "9P2000".     (* plan9.VERSION9P *)

(** Of a [plan9.Fcall] the version handler reads and writes two fields. *)
Record Fcall : Type := mkFcall {
  Msize : Z;
  Version_ : string     (* Fcall.Version *)
}.

(** [server.Version]: the outcome and [rx] as the handler leaves it. *)
Definition Version (tx rx : Fcall) : outcome unit * Fcall :=
  let rx := mkFcall (Msize rx) VERSION9P in
  if Msize tx <? IOHDRSZ then (Err (perror "msize too small"), rx)
  else
    let rx := if MSIZE <? Msize tx then mkFcall MSIZE (Version_ rx)
              else mkFcall (Msize tx) (Version_ rx) in
    (Ok tt, mkFcall (Msize rx) VERSION9P).

(** The fid table of a connection: [fidmap] holds pointers to fids,
    [fids] is where they point. *)
Record fidtable : Type := mkFidtable {
  cuid : string;                       (* conn.uid *)
  fidmap : gmap Z Ramfs.loc;
  fids : gmap Ramfs.loc Ramfs.Fid
}.

(** [conn.NewFid]: the file server answers with a fid of user [none]
    on the root. *)
Definition NewFid (root : Ramfs.loc) (c : fidtable) : Ramfs.loc * fidtable :=
  let p := fresh (dom (fids c)) in
  (p, mkFidtable (cuid c) (fidmap c)
        (<[p := Ramfs.mkFid 0 "none" root false [] 0]> (fids c))).

Definition GetFid (root : Ramfs.loc) (num : Z) (c : fidtable)
    : Ramfs.loc * fidtable :=
  match fidmap c !! num with
  | Some fid => (fid, c)
  | None =>
    let '(fid, c) := NewFid root c in
    let c := mkFidtable (cuid c) (fidmap c)
               (alter (fun f => Ramfs.mkFid num (cuid c) (Ramfs.fnode f)
                                  (Ramfs.opened f) (Ramfs.buf f) (Ramfs.ref f))
                      fid (fids c)) in
    (fid, mkFidtable (cuid c) (<[num := fid]> (fidmap c)) (fids c))
  end.

Definition DelFid (num : Z) (c : fidtable) : outcome unit * fidtable :=
  match fidmap c !! num with
  | None => (Panic "fid not found", c)
  | Some fid =>
    match fids c !! fid with
    | None => (Panic Ramfs.nilDeref, c)
    | Some f =>
      if Ramfs.refCount f =? 0
      then (Ok tt, mkFidtable (cuid c) (delete num (fidmap c)) (fids c))
      else (Ok tt, c)
    end
  end.

(** The fid table is sound: every number leads to a fid that is there,
    and no two numbers lead to the same fid. *)
Definition table_ok (c : fidtable) : Prop :=
  (forall n p, fidmap c !! n = Some p -> is_Some (fids c !! p)) /\
  (forall n1 n2 p, fidmap c !! n1 = Some p -> fidmap c !! n2 = Some p -> n1 = n2).

End Server.

(** * The properties *)

(** ** Facts on slices and machine integers *)

Lemma u64_small x : 0 <= x < 2 ^ 64 -> u64 x = x.
Proof. intros H. unfold u64. now apply Z.mod_small. Qed.

Lemma len_nil {A} : len (@nil A) = 0.
Proof. reflexivity. Qed.

Lemma len_nonneg {A} (l : list A) : 0 <= len l.
Proof. unfold len. lia. Qed.

Lemma len_cons {A} (x : A) l : len (x :: l) = 1 + len l.
Proof. unfold len. simpl. lia. Qed.

Lemma len_app {A} (l k : list A) : len (l ++ k) = len l + len k.
Proof. unfold len. rewrite length_app. lia. Qed.

Lemma len_take {A} (l : list A) n : len (take (Z.to_nat n) l) = Z.max 0 (Z.min n (len l)).
Proof. unfold len. rewrite length_take. lia. Qed.

Lemma len_drop {A} (l : list A) n : len (drop (Z.to_nat n) l) = Z.max 0 (len l - Z.max 0 n).
Proof. unfold len. rewrite length_drop. lia. Qed.

Lemma len_make n : len (make n) = Z.max 0 n.
Proof. unfold len, make. rewrite length_replicate. lia. Qed.

Lemma slice_from_Some s off :
  off <= len s -> slice_from s off = Some (drop (Z.to_nat off) s).
Proof. intros H. unfold slice_from. destruct (Z.ltb_spec (len s) off); [lia | done]. Qed.

Lemma slice_from_None s off : len s < off -> slice_from s off = None.
Proof. intros H. unfold slice_from. destruct (Z.ltb_spec (len s) off); [done | lia]. Qed.

Create Rewrite HintDb len.
#[local] Hint Rewrite @len_nil @len_cons @len_app @len_take @len_drop len_make : len.

Ltac len_simpl := autorewrite with len in *.

Import File.

(** ** The file buffer: termination and frame facts *)

Lemma blockSize_reserve num off c e f : blockSize (fst (reserve num off c e f)) = blockSize f.
Proof. unfold reserve. destruct (block f !! num); [destruct (_ <? _)|]; reflexivity. Qed.

Lemma blockSize_account e m f : blockSize (account e m f) = blockSize f.
Proof. unfold account. destruct e; [destruct (_ <? _)|]; reflexivity. Qed.

Lemma block_account e m f : block (account e m f) = block f.
Proof. unfold account. destruct e; [destruct (_ <? _)|]; reflexivity. Qed.

Lemma reserve_frame num off c e f k :
  k <> num -> block (fst (reserve num off c e f)) !! k = block f !! k.
Proof.
  intros Hk. unfold reserve.
  destruct (block f !! num); [destruct (_ <? _)|]; simpl;
    rewrite ?lookup_insert_ne; auto.
Qed.

(** After [reserve] the block is there; when it has just been allocated
    it has [c] bytes, otherwise at least [off + c]. *)
Lemma reserve_lookup num off c e f :
  0 <= off -> 0 <= c -> off + c < 2 ^ 64 ->
  exists b1, block (fst (reserve num off c e f)) !! num = Some b1 /\
    ((block f !! num = None /\ len b1 = c) \/
     (exists b, block f !! num = Some b /\ off + c <= len b1 /\
        len b1 = Z.max (len b) (off + c))).
Proof.
  intros Hoff Hc Hlt. unfold reserve.
  destruct (block f !! num) as [b|] eqn:Hb.
  - rewrite u64_small by lia.
    destruct (Z.ltb_spec (len b) (off + c)); simpl.
    + rewrite lookup_insert_eq. eexists; split; [reflexivity|].
      right. exists b. len_simpl. pose proof (len_nonneg b). split; [done|lia].
    + exists b. split; [done|]. right. exists b. split; [done|lia].
  - simpl. rewrite lookup_insert_eq. eexists; split; [reflexivity|].
    left. len_simpl. split; [done|lia].
Qed.

Lemma WriteAt_loop_total fuel : forall p num off e n f,
  0 < blockSize f < 2 ^ 64 -> 0 <= off < blockSize f ->
  (length p + (if (off =? 0)%Z then 0 else 1) <= fuel)%nat ->
  fst (WriteAt_loop fuel p num off e n f) <> Fuel.
Proof.
  induction fuel as [|fuel IH]; intros p num off e n f Hbs Hoff Hfuel.
  - destruct p; simpl in *; [discriminate | lia].
  - destruct p as [|x p]; [simpl; discriminate|].
    cbn [WriteAt_loop].
    set (p0 := x :: p) in *.
    rewrite (u64_small (blockSize f - off)) by lia.
    set (c := if len p0 <? blockSize f - off then len p0 else blockSize f - off).
    assert (Hc : 1 <= c /\ c <= blockSize f - off /\ c <= len p0).
    { subst c p0. len_simpl. pose proof (len_nonneg p).
      destruct (Z.ltb_spec (1 + len p) (blockSize f - off)); lia. }
    destruct (reserve_lookup num off c e f) as (b1 & Hb1 & Hcase); [lia..|].
    pose proof (blockSize_reserve num off c e f) as Hbs1.
    destruct (reserve num off c e f) as [f1 e1]. simpl in Hb1, Hbs1.
    rewrite Hb1. simpl.
    unfold slice_from. destruct (Z.ltb_spec (len b1) off) as [Hlt|Hge]; [simpl; discriminate|].
    unfold copy_at.
    set (m := Z.min (len b1 - off) (len p0)).
    apply IH.
    + rewrite blockSize_account. simpl. lia.
    + rewrite blockSize_account. simpl. lia.
    + simpl. rewrite length_drop.
      assert (Hm : off = 0 -> 1 <= m).
      { intros ->. subst m. destruct Hcase as [[_ Hl]|(b & _ & Hl & _)]; lia. }
      assert (0 <= m) by (subst m; pose proof (len_nonneg p0); lia).
      subst p0. simpl in *.
      destruct (Z.eqb_spec off 0); [specialize (Hm ltac:(done))|]; lia.
Qed.

Lemma ReadAt_loop_total fuel : forall count num off f acc,
  count <= Z.of_nat fuel -> ReadAt_loop fuel count num off f acc <> Fuel.
Proof.
  induction fuel as [|fuel IH]; intros count num off f acc Hc; simpl.
  - destruct (Z.leb_spec count 0); [discriminate | lia].
  - destruct (Z.leb_spec count 0); [discriminate|].
    destruct (slice_from _ off) as [avail|]; [|discriminate].
    destruct (Z.leb_spec (len avail) 0); [discriminate|].
    apply IH. lia.
Qed.

(** [WriteAt] always comes back: with a count, an error or a panic. *)
Lemma WriteAt_total p offset f :
  uint64_range (blockSize f) -> fst (WriteAt p offset f) <> Fuel.
Proof.
  intros Hbs. unfold WriteAt.
  destruct (offset <? 0); [simpl; discriminate|].
  destruct (Z.eqb_spec (blockSize f) 0); [simpl; discriminate|].
  assert (0 < blockSize f < 2 ^ 64) by (unfold uint64_range in Hbs; lia).
  apply WriteAt_loop_total; [done| apply Z.mod_pos_bound; lia |].
  destruct (_ =? 0); lia.
Qed.

(** So does [ReadAt]. *)
Lemma ReadAt_total lenp offset f : fst (ReadAt lenp offset f) <> Fuel.
Proof.
  unfold ReadAt.
  destruct (offset <? 0); [simpl; discriminate|].
  destruct (size f <? offset); [simpl; discriminate|].
  destruct (blockSize f =? 0); [simpl; discriminate|].
  simpl. apply ReadAt_loop_total. lia.
Qed.

(** ** The file buffer: what is written is read back *)

Lemma len_copy_at dst off p :
  0 <= off <= len dst -> len (fst (copy_at dst off p)) = len dst.
Proof.
  intros H. unfold copy_at. simpl. len_simpl.
  pose proof (len_nonneg p). lia.
Qed.



(** ** The file buffer: the invariant *)

Lemma size_reserve num off c e f : size (fst (reserve num off c e f)) = size f.
Proof. unfold reserve. destruct (block f !! num); [destruct (_ <? _)|]; reflexivity. Qed.

Lemma account_range e m f : uint64_range (size f) -> uint64_range (size (account e m f)).
Proof.
  intros H. unfold account. destruct e; [|done].
  destruct (_ <? _); simpl; apply Z.mod_pos_bound; lia.
Qed.

Lemma newFile_ok bs : 0 < bs < 2 ^ 64 -> file_ok (newFile bs).
Proof.
  intros H. split; [simpl; lia | split; [unfold uint64_range; simpl; lia|]].
  intros k b. simpl. rewrite lookup_empty. discriminate.
Qed.

Lemma WriteAt_loop_ok fuel : forall p num off e n f,
  file_ok f -> 0 <= off < blockSize f ->
  file_ok (snd (WriteAt_loop fuel p num off e n f)).
Proof.
  induction fuel as [|fuel IH]; intros p num off e n f Hok Hoff.
  { destruct p; exact Hok. }
  destruct p as [|x p]; [exact Hok|].
  cbn [WriteAt_loop].
  set (p0 := x :: p) in *.
  destruct Hok as (Hbs & Hsz & Hbd).
  assert (Hp0 : 1 <= len p0) by (subst p0; len_simpl; pose proof (len_nonneg p); lia).
  rewrite (u64_small (blockSize f - off)) by lia.
  set (c := if len p0 <? blockSize f - off then len p0 else blockSize f - off).
  assert (Hc : 1 <= c /\ c <= blockSize f - off).
  { subst c. destruct (Z.ltb_spec (len p0) (blockSize f - off)); lia. }
  destruct (reserve_lookup num off c e f) as (b1 & Hb1 & Hcase); [lia..|].
  pose proof (blockSize_reserve num off c e f) as Hbs1.
  pose proof (size_reserve num off c e f) as Hsz1.
  pose proof (reserve_frame num off c e f) as Hfr1.
  destruct (reserve num off c e f) as [f1 e1]. simpl in Hb1, Hbs1, Hsz1, Hfr1.
  rewrite Hb1. simpl default.
  assert (Hlen1 : len b1 <= blockSize f).
  { destruct Hcase as [[_ Hl]|(b & Hsome & _ & Hmax)]; [lia|].
    specialize (Hbd _ _ Hsome). simpl in Hbd. lia. }
  assert (Hok1 : file_ok f1).
  { split; [lia | split; [unfold uint64_range in *; lia|]].
    intros k b Hk. simpl. rewrite Hbs1.
    destruct (Z.eq_dec k num) as [->|Hne]; [congruence|].
    rewrite Hfr1 in Hk by done. apply (Hbd _ _ Hk). }
  unfold slice_from. destruct (Z.ltb_spec (len b1) off) as [Hlt|Hge]; [exact Hok1|].
  pose proof (len_copy_at b1 off p0 ltac:(lia)) as Hlenb'.
  destruct (copy_at b1 off p0) as [b' m]. cbn [fst] in Hlenb'.
  apply IH.
  - split; [|split].
    + rewrite blockSize_account. simpl. lia.
    + apply account_range. simpl. unfold uint64_range in *. lia.
    + intros k b. rewrite block_account, blockSize_account. simpl.
      rewrite lookup_insert. case_decide.
      * intros [= <-]. lia.
      * intros Hk. rewrite Hbs1. rewrite Hfr1 in Hk by done. apply (Hbd _ _ Hk).
  - rewrite blockSize_account. simpl. lia.
Qed.

(** [WriteAt] keeps the invariant, whatever it is given and however it
    comes back. *)
Lemma WriteAt_ok p offset f : file_ok f -> file_ok (snd (WriteAt p offset f)).
Proof.
  intros Hok. unfold WriteAt.
  destruct (offset <? 0); [exact Hok|].
  destruct (blockSize f =? 0); [exact Hok|].
  apply WriteAt_loop_ok; [exact Hok|].
  apply Z.mod_pos_bound. destruct Hok as (H & _). lia.
Qed.

Lemma write_all_ok ws : forall f, file_ok f -> file_ok (write_all ws f).
Proof.
  induction ws as [|[d o] ws IH]; intros f Hok; simpl; [done|].
  apply IH. now apply WriteAt_ok.
Qed.

Lemma ReadAt_loop_no_error fuel : forall count num off f acc e,
  ReadAt_loop fuel count num off f acc <> Err e.
Proof.
  induction fuel as [|fuel IH]; intros count num off f acc e; simpl;
    destruct (count <=? 0); try discriminate;
    destruct (slice_from _ off) as [avail|]; try discriminate;
    destruct (len avail <=? 0); try discriminate.
  apply IH.
Qed.

(** ** The file buffer: the properties *)

(** C1. The write table of the package's test, run on an empty buffer
    with 8-byte blocks, leaves size 21 and exactly 3 blocks, and reading
    21 bytes at offset 0 gives the bytes "sxxxghjkiiiittttquuuu". *)
Theorem write_table_result :
  let f := write_all writeTests (newFile 8) in
  size f = 21 /\ stdpp.base.size (block f) = 3%nat /\
  ReadAt 21 0 f = (Ok (bytes_of "sxxxghjkiiiittttquuuu"), f).
Proof. vm_compute. repeat split. Qed.

(** The sizes and block counts after each write are those the test
    table expects. *)
Example write_table_steps :
  map (fun k => let f := write_all (take k writeTests) (newFile 8) in
                (Z.of_nat (stdpp.base.size (block f)), size f))
      [1; 2; 3; 4; 5; 6; 7]%nat
  = [(1, 2); (1, 4); (1, 8); (1, 8); (3, 17); (3, 17); (3, 21)].
Proof. vm_compute. reflexivity. Qed.




(** The size accounting of [WriteAt] can fall short of the bytes stored:
    after "xyz" at 0, writing "abcde" at 1 records size 5 for 6 bytes,
    and the last byte written is not read back. *)
Example size_accounting_short :
  let f := snd (WriteAt (bytes_of "xyz") 0 (newFile 8)) in
  let f' := snd (WriteAt (bytes_of "abcde") 1 f) in
  size f' = 5 /\ block f' !! 0 = Some (bytes_of "xabcde") /\
  fst (ReadAt 5 1 f') = Ok (bytes_of "abcd").
Proof. vm_compute. repeat split. Qed.

(** It can also exceed them, and then a write can panic: after "abcdef"
    at 0 and "abcdef" at 2 the size is 12 for 8 bytes stored, and a
    write at 12 slices a fresh one-byte block at 4. *)
Example size_accounting_long :
  let f := snd (WriteAt (bytes_of "abcdef") 0 (newFile 8)) in
  let f' := snd (WriteAt (bytes_of "abcdef") 2 f) in
  size f' = 12 /\ stdpp.base.size (block f') = 1%nat /\
  fst (WriteAt (bytes_of "k") 12 f') = Panic "slice bounds out of range".
Proof. vm_compute. repeat split. Qed.

(** C10. Reading at an offset equal to the size gives 0 bytes and no
    error; end-of-stream is the answer exactly for the offsets greater
    than the size; a negative offset is refused with "negative offset";
    the buffer is unchanged in each case. *)
Theorem ReadAt_boundaries (f : file) (lenp : Z) :
  blockSize f <> 0 -> 0 <= size f < 2 ^ 63 -> 0 <= lenp < 2 ^ 63 ->
  ReadAt lenp (size f) f = (Ok [], f) /\
  (forall offset, 0 <= offset ->
     (fst (ReadAt lenp offset f) = Err EOF <-> size f < offset) /\
     snd (ReadAt lenp offset f) = f) /\
  (forall offset, offset < 0 ->
     ReadAt lenp offset f = (Err (perror "negative offset"), f)).
Proof.
  intros Hbs Hsz Hlen. split; [|split].
  - unfold ReadAt.
    destruct (Z.ltb_spec (size f) 0); [lia|].
    destruct (Z.ltb_spec (size f) (size f)); [lia|].
    destruct (Z.eqb_spec (blockSize f) 0); [done|].
    rewrite (u64_small (size f + lenp)) by lia.
    destruct (Z.ltb_spec (size f) (size f + lenp)).
    + rewrite Z.sub_diag. reflexivity.
    + replace lenp with 0 by lia. reflexivity.
  - intros offset Hoff. unfold ReadAt.
    destruct (Z.ltb_spec offset 0); [lia|].
    destruct (Z.ltb_spec (size f) offset); [simpl; split; [split|]; auto|].
    destruct (Z.eqb_spec (blockSize f) 0); [done|].
    simpl. split; [|done]. split; [|lia].
    intros Heof. now apply ReadAt_loop_no_error in Heof.
  - intros offset Hoff. unfold ReadAt.
    destruct (Z.ltb_spec offset 0); [done|lia].
Qed.

Lemma ReadAt_boundaries_witness :
  let f := write_all writeTests (newFile 8) in
  ReadAt 10 21 f = (Ok [], f) /\
  fst (ReadAt 10 22 f) = Err EOF /\
  ReadAt 10 (-1) f = (Err (perror "negative offset"), f).
Proof.
  intros f.
  destruct (ReadAt_boundaries f 10) as (H1 & H2 & H3).
  - vm_compute. discriminate.
  - vm_compute. split; [discriminate | reflexivity].
  - lia.
  - split; [exact H1 | split].
    + apply (H2 22); [lia|]. vm_compute. reflexivity.
    + apply H3. lia.
Defined.

(** ** The file buffer: further properties *)

(** X1. Whatever it is given and however it comes back, [WriteAt]
    keeps the invariant of a buffer: the block size is unchanged and
    not zero, the size is in the range of its type and no block is
    longer than the block size. *)
Theorem WriteAt_keeps_invariant (p : list byte) (offset : Z) (f : file) :
  file_ok f ->
  file_ok (snd (WriteAt p offset f)) /\
  blockSize (snd (WriteAt p offset f)) = blockSize f.
Proof.
  intros Hok. split; [now apply WriteAt_ok|].
  assert (Hloop : forall fuel p num off e n f,
             blockSize (snd (WriteAt_loop fuel p num off e n f)) = blockSize f).
  { induction fuel as [|fuel IH]; intros p0 num off e n f0.
    { destruct p0; reflexivity. }
    destruct p0 as [|x p0]; [reflexivity|]. cbn [WriteAt_loop].
    set (c := if _ <? _ then _ else _).
    pose proof (blockSize_reserve num off c e f0) as Hbs.
    destruct (reserve num off c e f0) as [f1 e1]. simpl in Hbs.
    destruct (slice_from _ off); [|exact Hbs].
    destruct (copy_at _ off (x :: p0)) as [b' m].
    rewrite IH, blockSize_account. exact Hbs. }
  unfold WriteAt. destruct (offset <? 0); [reflexivity|].
  destruct (blockSize f =? 0); [reflexivity|]. apply Hloop.
Qed.

Lemma WriteAt_keeps_invariant_witness :
  let f := write_all writeTests (newFile 8) in
  file_ok f /\ blockSize f = 8.
Proof.
  intros f. split.
  - apply write_all_ok, newFile_ok. lia.
  - pose proof (WriteAt_keeps_invariant (bytes_of "uuuu") 800
                  (write_all (take 6 writeTests) (newFile 8))) as H.
    destruct H as [_ H].
    + apply write_all_ok, newFile_ok. lia.
    + vm_compute. reflexivity.
Defined.

Lemma WriteAt_loop_size fuel : forall p num off e n f,
  0 < blockSize f < 2 ^ 64 -> 0 <= off < blockSize f ->
  0 <= size f -> size f + len p < 2 ^ 64 ->
  size f <= size (snd (WriteAt_loop fuel p num off e n f)) <= size f + len p.
Proof.
  induction fuel as [|fuel IH]; intros p num off e n f Hbs Hoff Hsz Hno.
  { pose proof (len_nonneg p). destruct p; simpl; lia. }
  destruct p as [|x p]; [simpl; len_simpl; lia|].
  cbn [WriteAt_loop].
  set (p0 := x :: p) in *.
  assert (Hp0 : 1 <= len p0) by (subst p0; len_simpl; pose proof (len_nonneg p); lia).
  rewrite (u64_small (blockSize f - off)) by lia.
  set (c := if len p0 <? blockSize f - off then len p0 else blockSize f - off).
  assert (Hc : 1 <= c /\ c <= blockSize f - off).
  { subst c. destruct (Z.ltb_spec (len p0) (blockSize f - off)); lia. }
  destruct (reserve_lookup num off c e f) as (b1 & Hb1 & _); [lia..|].
  pose proof (blockSize_reserve num off c e f) as Hbs1.
  pose proof (size_reserve num off c e f) as Hsz1.
  destruct (reserve num off c e f) as [f1 e1]. simpl in Hb1, Hbs1, Hsz1.
  rewrite Hb1. simpl default.
  unfold slice_from. destruct (Z.ltb_spec (len b1) off) as [Hlt|Hge]; [simpl; lia|].
  unfold copy_at.
  set (m := Z.min (len b1 - off) (len p0)).
  assert (Hm : 0 <= m <= len p0) by (subst m; lia).
  set (b' := _ ++ _ ++ _).
  set (f2 := account e1 m (set_block num b' f1)).
  assert (Hf2 : size f <= size f2 <= size f + m).
  { subst f2. unfold account. destruct e1; [|simpl; lia].
    simpl. rewrite Hsz1. destruct (Z.ltb_spec (size f) m); simpl.
    - rewrite (u64_small (m - size f)) by lia.
      replace (size f + (m - size f)) with m by lia.
      rewrite u64_small by lia. lia.
    - rewrite u64_small by lia. lia. }
  assert (Hbs2 : blockSize f2 = blockSize f).
  { subst f2. rewrite blockSize_account. simpl. exact Hbs1. }
  assert (Hlen' : len (drop (Z.to_nat m) p0) = len p0 - m) by (len_simpl; lia).
  specialize (IH (drop (Z.to_nat m) p0) (u64 (num + 1)) 0 e1 (n + m) f2).
  rewrite Hbs2, Hlen' in IH. specialize (IH ltac:(lia) ltac:(lia) ltac:(lia) ltac:(lia)).
  lia.
Qed.

(** X2. A write never shrinks the size and grows it by at most the
    number of bytes given, as long as the sum stays in the range of the
    size. *)
Theorem WriteAt_size_bounds (p : list byte) (offset : Z) (f : file) :
  file_ok f -> size f + len p < 2 ^ 64 ->
  size f <= size (snd (WriteAt p offset f)) <= size f + len p.
Proof.
  intros (Hbs & Hsz & _) Hno. unfold uint64_range in Hsz.
  pose proof (len_nonneg p).
  unfold WriteAt. destruct (offset <? 0); [simpl; lia|].
  destruct (Z.eqb_spec (blockSize f) 0); [simpl; lia|].
  apply WriteAt_loop_size; try lia. apply Z.mod_pos_bound. lia.
Qed.

Lemma WriteAt_size_bounds_witness :
  let f := write_all (take 4 writeTests) (newFile 8) in
  8 <= size (snd (WriteAt (bytes_of "iiiittttq") 8 f)) <= 17.
Proof.
  intros f.
  assert (Hs : size f = 8) by (vm_compute; reflexivity).
  pose proof (WriteAt_size_bounds (bytes_of "iiiittttq") 8 f) as H.
  rewrite Hs in H. apply H.
  - apply write_all_ok, newFile_ok. lia.
  - vm_compute. reflexivity.
Defined.

Lemma WriteAt_loop_no_error fuel : forall p num off e n f err,
  fst (WriteAt_loop fuel p num off e n f) <> Err err.
Proof.
  induction fuel as [|fuel IH]; intros p num off e n f err.
  { destruct p; discriminate. }
  destruct p as [|x p]; [discriminate|]. cbn [WriteAt_loop].
  destruct (reserve _ _ _ _ _) as [f1 e1].
  destruct (slice_from _ off); [|discriminate].
  destruct (copy_at _ off (x :: p)) as [b' m]. apply IH.
Qed.

(** X3. The only error of [WriteAt] is "negative offset": it is
    returned exactly for the negative offsets, and then nothing has been
    written. *)
Theorem WriteAt_error (p : list byte) (offset : Z) (f : file) :
  (forall e, fst (WriteAt p offset f) = Err e <->
             offset < 0 /\ e = perror "negative offset") /\
  (offset < 0 -> snd (WriteAt p offset f) = f).
Proof.
  unfold WriteAt. destruct (Z.ltb_spec offset 0) as [Hneg|Hpos]; cbn [fst snd].
  - split; [|reflexivity]. intros e. split.
    + intros [= <-]. auto.
    + intros [_ ->]. reflexivity.
  - split; [|lia]. intros e. split; [|lia].
    destruct (blockSize f =? 0); [discriminate|].
    intros H. now apply WriteAt_loop_no_error in H.
Qed.

Lemma ReadAt_loop_length fuel : forall count num off f acc r,
  ReadAt_loop fuel count num off f acc = Ok r ->
  len acc <= len r <= len acc + Z.max 0 count.
Proof.
  induction fuel as [|fuel IH]; intros count num off f acc r; simpl.
  - destruct (Z.leb_spec count 0); [intros [= <-]; lia|].
    destruct (slice_from _ off) as [avail|]; [|discriminate].
    destruct (Z.leb_spec (len avail) 0); [intros [= <-]; lia | discriminate].
  - destruct (Z.leb_spec count 0); [intros [= <-]; lia|].
    destruct (slice_from _ off) as [avail|]; [|discriminate].
    destruct (Z.leb_spec (len avail) 0); [intros [= <-]; lia|].
    intros Hr. apply IH in Hr. revert Hr. len_simpl. lia.
Qed.

(** X4. A successful [ReadAt] gives at most [len(p)] bytes and never
    reads beyond the size. *)
Theorem ReadAt_length (lenp offset : Z) (f : file) (r : list byte) :
  0 <= lenp -> offset + lenp < 2 ^ 64 -> 0 <= size f < 2 ^ 64 ->
  fst (ReadAt lenp offset f) = Ok r ->
  len r <= lenp /\ offset + len r <= size f.
Proof.
  intros Hlen Hno Hsz. unfold ReadAt.
  destruct (Z.ltb_spec offset 0); [discriminate|].
  destruct (Z.ltb_spec (size f) offset); [discriminate|].
  destruct (blockSize f =? 0); [discriminate|]. simpl.
  rewrite (u64_small (offset + lenp)) by lia.
  destruct (Z.ltb_spec (size f) (offset + lenp)).
  - rewrite (u64_small (size f - offset)) by lia.
    intros Hr. apply ReadAt_loop_length in Hr. len_simpl. lia.
  - intros Hr. apply ReadAt_loop_length in Hr. len_simpl. lia.
Qed.

Lemma ReadAt_length_witness :
  let f := write_all writeTests (newFile 8) in
  len (bytes_of "uu") <= 10 /\ 19 + len (bytes_of "uu") <= size f.
Proof.
  intros f.
  apply (ReadAt_length 10 19 f (bytes_of "uu"));
    [lia | lia | vm_compute; split; [discriminate | reflexivity]
    | vm_compute; reflexivity].
Defined.

(** X5. Overwriting inside a block: a write that starts within the
    size and whose bytes all fall on bytes that a block already holds
    replaces those bytes and nothing else; the size and the other
    blocks are as before. *)
Theorem WriteAt_in_place (p : list byte) (offset : Z) (f : file) (b : list byte) :
  0 < blockSize f < 2 ^ 64 ->
  0 <= offset <= size f ->
  block f !! (offset / blockSize f) = Some b ->
  len b <= blockSize f ->
  p <> [] ->
  offset mod blockSize f + len p <= len b ->
  let o := offset mod blockSize f in
  WriteAt p offset f =
    (Ok (len p),
     set_block (offset / blockSize f)
       (take (Z.to_nat o) b ++ p ++ drop (Z.to_nat (o + len p)) b) f).
Proof.
  intros Hbs Hoff Hb Hlb Hp Hfit o. unfold WriteAt, clamp.
  destruct (Z.ltb_spec offset 0); [lia|].
  destruct (Z.ltb_spec (size f) offset); [lia|].
  destruct (Z.eqb_spec (blockSize f) 0); [lia|].
  fold o. pose proof (Z.mod_pos_bound offset (blockSize f) ltac:(lia)) as Ho.
  fold o in Ho, Hfit.
  destruct p as [|x p]; [done|]. cbn [WriteAt_loop].
  set (p0 := x :: p) in *.
  assert (Hp0 : 1 <= len p0) by (subst p0; len_simpl; pose proof (len_nonneg p); lia).
  rewrite (u64_small (blockSize f - o)) by lia.
  assert (Hc : (if len p0 <? blockSize f - o then len p0 else blockSize f - o)
               = len p0)
    by (destruct (Z.ltb_spec (len p0) (blockSize f - o)); lia).
  rewrite Hc.
  unfold reserve. rewrite Hb. rewrite u64_small by lia.
  destruct (Z.ltb_spec (len b) (o + len p0)); [lia|].
  rewrite Hb. simpl default. rewrite slice_from_Some by lia.
  unfold copy_at. replace (Z.min (len b - o) (len p0)) with (len p0) by lia.
  rewrite (take_ge p0) by (unfold len; lia).
  rewrite (drop_ge p0) by (unfold len; lia).
  simpl. rewrite Z.add_0_l. reflexivity.
Qed.

Lemma WriteAt_in_place_witness :
  let f := write_all (take 3 writeTests) (newFile 8) in
  WriteAt (bytes_of "xxxx") 0 f =
    (Ok 4, set_block 0 (bytes_of "xxxxghjk") f).
Proof.
  intros f.
  rewrite (WriteAt_in_place (bytes_of "xxxx") 0 f (bytes_of "asdfghjk")).
  - reflexivity.
  - vm_compute. split; reflexivity.
  - vm_compute. split; discriminate.
  - vm_compute. reflexivity.
  - vm_compute. discriminate.
  - discriminate.
  - vm_compute. discriminate.
Defined.

(** The loops of [WriteAt] and [ReadAt] terminate: every round
    after the first consumes at least one byte, so the calls come back
    for every buffer whose block size is in the range of its type. *)
Theorem file_calls_terminate (p : list byte) (lenp offset : Z) (f : file) :
  uint64_range (blockSize f) ->
  fst (WriteAt p offset f) <> Fuel /\ fst (ReadAt lenp offset f) <> Fuel.
Proof. intros H. split; [now apply WriteAt_total | apply ReadAt_total]. Qed.

Lemma file_calls_terminate_witness :
  fst (WriteAt (bytes_of "as") 12 (newFile 8)) <> Fuel /\
  fst (ReadAt 2 12 (newFile 8)) <> Fuel.
Proof.
  apply (file_calls_terminate (bytes_of "as") 2 12 (newFile 8)).
  vm_compute. split; [discriminate | reflexivity].
Defined.

(** The latch never holds an error: [setErr] assigns only when it is
    given nil.  A connection whose latch is nil answers nil after
    [setErr(e)], whatever [e] is. *)
Lemma setErr_keeps_nil (c : Conn.conn) (e : option error) :
  Conn.getErr c = None -> Conn.getErr (Conn.setErr e c) = None.
Proof. intros H. destruct e; simpl; [exact H | reflexivity]. Qed.

(** C3 at a concrete input: on a fresh connection, [setErr(io.EOF)]
    followed by [getErr] gives nil, not [io.EOF]. *)
Theorem setErr_drops_error :
  let c := Conn.mkConn None "none" in
  Conn.getErr (Conn.setErr (Some EOF) c) = None /\
  Conn.getErr (Conn.setErr (Some EOF) c) <> Some EOF.
Proof. simpl. split; [reflexivity | discriminate]. Qed.

Example group_usage :
  let g0 := Group.newGroup "bootes" in
  let g1 := snd (Group.WriteAt (bytes_of "uname gnot gnot") 0 g0) in
  let g2 := snd (Group.WriteAt (bytes_of "uname sys :sys") 0 g1) in
  let g3 := snd (Group.WriteAt (bytes_of "uname sys +gnot") 0 g2) in
  Group.Member <$> (g3 !! "gnot") = Some {[ "sys" := true ]} /\
  fst (Group.WriteAt (bytes_of "uname gnot gnot") 0 g1) = Err (perror "user gnot exists").
Proof. vm_compute. split; reflexivity. Qed.

Import Ramfs.

(** ** The package's tests, run on the model *)

Example TestPermission_0640 :
  permission_row o640 "adm" = [Ok tt; Ok tt; Ok tt] /\
  permission_row o640 "glenda" = [Err errPerm; Err errPerm; Ok tt] /\
  permission_row o640 "none" = [Err errPerm; Err errPerm; Err errPerm] /\
  permission_row o640 "unknownUser" = [Err errPerm; Err errPerm; Err errPerm].
Proof. vm_compute. repeat split. Qed.

Example TestPermission_0604 :
  permission_row 388 "adm" = [Ok tt; Ok tt; Ok tt] /\
  permission_row 388 "glenda" = [Err errPerm; Err errPerm; Ok tt] /\
  permission_row 388 "none" = [Err errPerm; Err errPerm; Ok tt] /\
  permission_row 388 "unknownUser" = [Err errPerm; Err errPerm; Err errPerm].
Proof. vm_compute. repeat split. Qed.

(** ** Permissions *)

Lemma land_low_idem p : Z.land (Z.land p 7) 7 = Z.land p 7.
Proof. now rewrite <- Z.land_assoc. Qed.

(** [HasPerm] looks at the low three bits of [perm] only. *)
Lemma HasPerm_low_bits l uname perm fs :
  HasPerm l uname (Z.land perm 7) fs = HasPerm l uname perm fs.
Proof. unfold HasPerm. now rewrite land_low_idem. Qed.

(** [HasPerm] changes nothing. *)
Lemma HasPerm_state l uname perm fs : snd (HasPerm l uname perm fs) = fs.
Proof.
  unfold HasPerm, bind, get_node, ret.
  destruct (nodes fs !! l) as [n|]; [|reflexivity].
  destruct (_ && _); [reflexivity|].
  destruct (Group.Get uname (group fs)); try reflexivity.
  destruct (_ =? _); [reflexivity|].
  destruct (Group.Get (Gid (dir n)) (group fs)); reflexivity.
Qed.

(** [HasPerm] has no error return. *)
Lemma HasPerm_no_error l uname perm fs e : fst (HasPerm l uname perm fs) <> Err e.
Proof.
  unfold HasPerm, bind, get_node, ret.
  destruct (nodes fs !! l) as [n|]; [|discriminate].
  destruct (_ && _); [discriminate|].
  destruct (Group.Get uname (group fs)); try discriminate.
  destruct (_ =? _); [discriminate|].
  destruct (Group.Get (Gid (dir n)) (group fs)); discriminate.
Qed.

(** C8, as stated, fails: on a file that [none] owns, with mode 0644,
    [HasPerm("none", DMWRITE)] is true although the other-bits (4) do
    not include the write bit. *)
Lemma HasPerm_none_owner_bits :
  exists f fs n,
    none_file = (Ok f, fs) /\ nodes fs !! fnode f = Some n /\
    Uid (dir n) = "none" /\ Mode (dir n) = o644 /\
    Z.land (Z.land (Mode (dir n)) 7) (Z.land DMWRITE 7) <> Z.land DMWRITE 7 /\
    HasPerm (fnode f) "none" DMWRITE fs = (Ok true, fs).
Proof.
  eexists _, _, _. split; [vm_compute; reflexivity|].
  split; [vm_compute; reflexivity|].
  vm_compute. repeat split. discriminate.
Qed.

(** C8, amended.  When the other-bits of the mode include the low three
    bits of [p], [HasPerm("none", p)] is true whatever the owner, the
    group and the group database are.  Otherwise [none] is treated as any
    other user; when the node is not owned by [none] and [none] is not a
    member of the node's group, the answer is false, so that it is given
    by the other-bits alone. *)
Theorem HasPerm_none (fs : FS) (l : loc) (n : node) (p : Z) :
  nodes fs !! l = Some n ->
  let other_ok := Z.land (Z.land (Mode (dir n)) 7) (Z.land p 7) =? Z.land p 7 in
  (other_ok = true -> HasPerm l "none" p fs = (Ok true, fs)) /\
  (Uid (dir n) <> "none" ->
   (is_Some (group fs !! "none") ->
    exists g, group fs !! Gid (dir n) = Some g /\ Group.Member g !! "none" = None) ->
   HasPerm l "none" p fs = (Ok other_ok, fs)).
Proof.
  intros Hl other_ok. subst other_ok.
  unfold HasPerm, bind, get_node, ret. rewrite Hl. cbv zeta.
  rewrite (bool_decide_eq_true_2 ("none" = "none")) by reflexivity.
  split.
  - intros ->. reflexivity.
  - intros Huid Hgrp.
    rewrite (bool_decide_eq_false_2 (Uid (dir n) = "none")) by exact Huid.
    destruct (_ =? _) eqn:Hother; [reflexivity|]. simpl.
    unfold Group.Get.
    destruct (group fs !! "none") as [u|] eqn:Hnone; [|reflexivity].
    destruct Hgrp as (g & Hg & Hmem); [eauto|].
    rewrite Hg, Hmem.
    rewrite bool_decide_eq_false_2 by (intros [? ?]; discriminate).
    now rewrite Hother.
Qed.

Lemma HasPerm_none_witness :
  let fs := New "bootes" 0 in
  HasPerm 2%nat "none" DMREAD fs = (Ok false, fs).
Proof.
  intros fs.
  edestruct (HasPerm_none fs 2%nat) as [_ H].
  - vm_compute. reflexivity.
  - refine (H _ _).
    + vm_compute. discriminate.
    + intros _. eexists. split; vm_compute; reflexivity.
Defined.

(** ** Creating through a fid *)

Ltac unfold_calls :=
  unfold bind, ret, fail, panic, deadlock, get_node, set_node, modify_node,
    deref in *.

Lemma Open_not_errPerm l mode s : fst (Open l mode s) <> Err errPerm.
Proof.
  unfold Open. unfold_calls.
  destruct (nodes s !! l); [|discriminate].
  destruct (_ && _); discriminate.
Qed.

Section CreateFacts.

Variable order : forall (K : Type) (E : EqDecision K) (C : Countable K) (V : Type),
  gmap K V -> list (K * V).

Lemma newPath_not_errPerm s : fst (newPath order s) <> Err errPerm.
Proof.
  unfold newPath. destruct (range order (pathmap s)) as [|[p b] ?]; [|discriminate].
  destruct (_ =? _); discriminate.
Qed.

(** No error of [Create] on a node is "permission denied". *)
Lemma Create_not_errPerm l uid name mode perm now s :
  fst (Create order l uid name mode perm now s) <> Err errPerm.
Proof.
  unfold Create.
  destruct (_ || _); [discriminate|].
  unfold bind at 1. unfold get_node.
  destruct (nodes s !! l) as [n|]; [|discriminate].
  destruct (negb _); [discriminate|].
  destruct (_ && _); [discriminate|].
  unfold bind at 1.
  pose proof (newPath_not_errPerm s) as Hp.
  destruct (newPath order s) as [[p| | | |] s1]; simpl in Hp; try discriminate.
  - destruct (default ∅ (children n) !! name) as [f|].
    + unfold bind. pose proof (Open_not_errPerm f mode s1) as Ho.
      destruct (Open f mode s1) as [[[]| | | |] s2]; simpl in Ho |- *;
        try discriminate. intros [= He]. apply Ho. now rewrite He.
    + destruct (children n); discriminate.
  - simpl. intros [= He]. apply Hp. now rewrite He.
Qed.

(** C9. [Fid.Create] hands the requested permission word to [HasPerm],
    which keeps its low three bits: the check on the directory is for
    [perm & 7], not for write permission, and "permission denied" is the
    answer exactly when that check says no. *)
Theorem Fid_Create_checks_requested_perm (f : Fid) (name : string)
    (mode perm now : Z) (fs : FS) :
  fst (Fid_Create order f name mode perm now fs) = Err errPerm <->
  fst (HasPerm (fnode f) (uid f) (Z.land perm 7) fs) = Ok false.
Proof.
  rewrite HasPerm_low_bits. unfold Fid_Create. unfold bind at 1.
  pose proof (HasPerm_state (fnode f) (uid f) perm fs) as Hs.
  pose proof (HasPerm_no_error (fnode f) (uid f) perm fs) as Hne.
  destruct (HasPerm (fnode f) (uid f) perm fs) as [[[|]| e | | |] s1];
    simpl in Hs, Hne |- *; subst s1; try (split; discriminate).
  3: { now destruct (Hne e). }
  - split; [|discriminate]. intros H. exfalso. revert H.
    unfold bind.
    pose proof (Create_not_errPerm (fnode f) (uid f) name mode perm now fs) as Hc.
    destruct (Create order (fnode f) (uid f) name mode perm now fs)
      as [[nd| | | |] s2]; simpl in Hc |- *; try discriminate.
    intros [= He]. apply Hc. now rewrite He.
  - split; reflexivity.
Qed.

End CreateFacts.

(** The instance of C9 given with the claim: in the root directory of a
    fresh server, mode 0755 and owner [bootes], the user [none] has read
    but not write permission, and its create with the permission word
    0444 goes through; with the word 0666 it is refused. *)
Example create_0444_needs_read_only :
  let fs := New "bootes" 0 in
  let f := mkFid 0 "none" 0%nat false [] 0 in
  fst (HasPerm (fnode f) "none" DMWRITE fs) = Ok false /\
  fst (HasPerm (fnode f) "none" DMREAD fs) = Ok true /\
  (exists f' fs', Fid_Create listed f "f" ORDWR o444 0 fs = (Ok f', fs') /\
     opened f' = true /\ child fs' 0%nat "f" = Some (fnode f')) /\
  fst (Fid_Create listed f "f" ORDWR o666 0 fs) = Err errPerm.
Proof.
  vm_compute. split; [reflexivity|]. split; [reflexivity|]. split; [|reflexivity].
  eexists _, _. split; [reflexivity|]. split; reflexivity.
Qed.

(** ** Changing the group with [Wstat] *)

(** C2 at a concrete input.  On the server of [TestPermission] the file
    has owner and group [adm], and [glenda] is a member of [adm].
    [glenda], who is not the owner and not a member of the group [none],
    asks for the group [none]: the call succeeds and the group is
    changed.  [Wstat] looks for the caller among the members of the
    group the file has, not of the one asked for, and does not look at
    the owner. *)
Theorem Wstat_chgrp_by_member_of_old_group :
  let fs := fst (permission_fs o640) in
  let f := snd (permission_fs o640) in
  exists n fs' n',
    nodes fs !! f = Some n /\ Uid (dir n) = "adm" /\ Gid (dir n) = "adm" /\
    Group.Member <$> group fs !! "none" = Some ∅ /\
    Wstat f "glenda" (chgrp_request "none") fs = (Ok tt, fs') /\
    nodes fs' !! f = Some n' /\ Gid (dir n') = "none".
Proof.
  eexists _, _, _. split; [vm_compute; reflexivity|].
  split; [reflexivity|]. split; [reflexivity|].
  split; [vm_compute; reflexivity|].
  split; [vm_compute; reflexivity|].
  split; [vm_compute; reflexivity|]. reflexivity.
Qed.

(** The other way round: the owner [adm], made a member of a group
    [sys], is refused the change to [sys], because [adm] is not among
    the members of the file's group [adm]. *)
Example Wstat_chgrp_owner_refused :
  let fs := fst (permission_fs o640) in
  let f := snd (permission_fs o640) in
  let fs := set_group (<["sys" := Group.mkUser "sys" "sys" {[ "adm" := true ]}]> (group fs)) fs in
  Wstat f "adm" (chgrp_request "sys") fs = (Err (perror "not owner"), fs).
Proof. vm_compute. reflexivity. Qed.

(** ** Walking the tree *)

(** [newNode] leaves the [Type] word of the entry at zero; the directory
    bit goes to the type of the qid and stays in the mode. *)
Lemma newNode_Type name uid gid perm path b now :
  Type_ (dir (newNode name uid gid perm path b now)) = 0.
Proof. unfold newNode. destruct (has_bit perm DMDIR); reflexivity. Qed.

Lemma step_denied_Type_zero nd : Type_ (dir nd) = 0 -> step_denied nd = false.
Proof. intros H. unfold step_denied. now rewrite H. Qed.

(** C4, as stated, fails: in a fresh server the user [adm] creates the
    directory [/d]; it has the mode 0755 with the directory bit, so the
    execute bit is set, and the walk from the root to [d] is not
    refused.  The same holds for the step [..] back to the root. *)
Lemma walk_into_executable_directory :
  let fs0 := New "adm" 0 in
  exists d fs nd,
    Create listed (root fs0) "adm" "d" OREAD (Z.lor o775 DMDIR) 0 fs0 = (Ok d, fs) /\
    nodes fs !! d = Some nd /\
    has_bit (Mode (dir nd)) DMDIR = true /\
    has_bit (qType (qid (dir nd))) QTDIR = true /\
    has_bit (Mode (dir nd)) DMEXEC = true /\
    walk (root fs) ["d"] (fun n _ _ => ret n) (root fs) fs = (Ok d, fs) /\
    walk (root fs) ["d"; ".."] (fun n _ _ => ret n) (root fs) fs = (Ok (root fs), fs) /\
    fst (walk (root fs) ["d"] (fun n _ _ => ret n) (root fs) fs) <> Err errPerm.
Proof.
  eexists _, _, _. split; [vm_compute; reflexivity|].
  split; [vm_compute; reflexivity|].
  vm_compute. repeat split. discriminate.
Qed.

(** C4, amended.  A step of [walk] that reaches a node is refused with
    "permission denied" exactly when the [Type] word of the node's
    directory entry has the bit [QTDIR] and its mode the bit [DMEXEC];
    otherwise the callback runs and the walk goes on from the node.  A
    node made by [newNode] has the [Type] word zero, so a step that
    lands on it is not refused by this check, with or without the
    execute bit. *)
Theorem walk_step {C} (fs : FS) (root0 : loc) (name : string)
    (path0 : list string) (fn : loc -> list string -> C -> M C) (c : C)
    (r nd : node) (l : loc) :
  nodes fs !! root0 = Some r ->
  step_target r name = Some l ->
  nodes fs !! l = Some nd ->
  walk root0 (name :: path0) fn c fs =
    (if step_denied nd then (Err errPerm, fs)
     else (c' <- fn l path0 c ;; walk l path0 fn c') fs) /\
  (Type_ (dir nd) = 0 -> step_denied nd = false) /\
  (has_bit (Mode (dir nd)) DMEXEC = false -> step_denied nd = false).
Proof.
  intros Hr Hstep Hl. split; [|split].
  - cbn [walk]. unfold step_target in Hstep. unfold Stat. unfold_calls.
    rewrite Hr.
    destruct (bool_decide (name = "..")).
    + rewrite Hstep. unfold_calls. rewrite Hl. simpl. rewrite Hl.
      unfold step_denied. now destruct (_ && _).
    + rewrite Hstep. unfold_calls. rewrite Hl. simpl. rewrite Hl.
      unfold step_denied. now destruct (_ && _).
  - apply step_denied_Type_zero.
  - unfold step_denied, has_bit. intros H.
    apply negb_false_iff, Z.eqb_eq in H. rewrite H.
    now rewrite andb_false_r.
Qed.

Lemma walk_step_witness :
  let fs := New "bootes" 0 in
  walk 0%nat ["adm"; ".."] (fun n _ _ => ret n) 0%nat fs = (Ok 0%nat, fs).
Proof.
  intros fs.
  edestruct (@walk_step loc fs 0%nat "adm" [".."] (fun n _ _ => ret n) 0%nat)
    as (H & _ & _).
  - vm_compute. reflexivity.
  - vm_compute. reflexivity.
  - vm_compute. reflexivity.
  - rewrite H. vm_compute. reflexivity.
Defined.

(** ** [Wstat]: all or nothing *)

Lemma nodes_upd l n s l' :
  nodes (upd l n s) !! l' = if decide (l = l') then Some n else nodes s !! l'.
Proof. unfold upd. simpl. apply lookup_insert. Qed.

Lemma modify_node_at l f s n :
  nodes s !! l = Some n -> modify_node l f s = (Ok tt, upd l (f n) s).
Proof. intros H. unfold modify_node. unfold_calls. now rewrite H. Qed.

Lemma wstat_mode_same m : wstat_mode m m = m.
Proof.
  assert (H : forall k, Z.lor (Z.ldiff m k) (Z.land m k) = m).
  { intros k. apply Z.bits_inj'. intros i Hi.
    rewrite Z.lor_spec, Z.ldiff_spec, Z.land_spec.
    destruct (Z.testbit m i), (Z.testbit k i); reflexivity. }
  unfold wstat_mode. destruct (has_bit m DMDIR); apply H.
Qed.

(** The checks change nothing. *)
Lemma Wstat_check_state uname d n s : snd (Wstat_check uname d n s) = s.
Proof.
  unfold Wstat_check. unfold bind at 1.
  destruct (_ && _ && _); [reflexivity|]. unfold ret at 1.
  unfold bind at 1.
  assert (Hname : snd ((if wstat_rename d n then
     pn <- deref (parent n) ;;
     ok <- HasPerm (fst pn) uname DMWRITE ;;
     if negb ok then fail errPerm
     else if bool_decide (is_Some (default ∅ (children (snd pn)) !! Name d))
     then fail (perror "file exists")
     else ret tt
   else ret tt) s) = s).
  { destruct (wstat_rename d n); [|reflexivity].
    unfold deref. destruct (parent n) as [pl|]; [|reflexivity].
    unfold_calls. destruct (nodes s !! pl) as [pn|]; [|reflexivity]. simpl.
    pose proof (HasPerm_state pl uname DMWRITE s) as Hs.
    destruct (HasPerm pl uname DMWRITE s) as [[[|]| | | |] s1];
      simpl in Hs |- *; subst s1; try reflexivity.
    destruct (bool_decide _); reflexivity. }
  destruct (_ s) as [[[]| | | |] s1] eqn:Hc in Hname |- *; simpl in Hname; subst s1;
    try reflexivity.
  destruct (wstat_chgrp d n); [|reflexivity].
  destruct (Group.Get _ _); try reflexivity.
  destruct (bool_decide _); reflexivity.
Qed.

(** Once the changes are under way, no error is returned. *)
Lemma Wstat_apply_no_error l d n s e : fst (Wstat_apply l d n s) <> Err e.
Proof.
  unfold Wstat_apply, modify_node, deref. unfold_calls.
  repeat (case_match; simpl in *; simplify_eq; try discriminate).
Qed.

Lemma bind_Ok_inv {A B} (m : M A) (k : A -> M B) s b s' :
  bind m k s = (Ok b, s') ->
  exists a s1, m s = (Ok a, s1) /\ k a s1 = (Ok b, s').
Proof.
  unfold bind. destruct (m s) as [[a| | | |] s1]; try discriminate.
  intros H. eauto.
Qed.

Lemma bind_Err_inv {A B} (m : M A) (k : A -> M B) s e s' :
  bind m k s = (Err e, s') ->
  m s = (Err e, s') \/ exists a s1, m s = (Ok a, s1) /\ k a s1 = (Err e, s').
Proof.
  unfold bind. destruct (m s) as [[a| | | |] s1]; try discriminate.
  - intros H. right. eauto.
  - intros [= -> ->]. now left.
Qed.

Lemma get_node_Ok_inv l s n s' :
  get_node l s = (Ok n, s') -> nodes s !! l = Some n /\ s' = s.
Proof.
  unfold get_node. destruct (nodes s !! l) eqn:H; [|discriminate].
  intros [= -> ->]. auto.
Qed.

Lemma deref_Ok_inv p s l n s' :
  deref p s = (Ok (l, n), s') -> p = Some l /\ nodes s !! l = Some n /\ s' = s.
Proof.
  unfold deref. destruct p as [l0|]; [|discriminate]. unfold_calls.
  destruct (nodes s !! l0) eqn:H; [|discriminate]. intros [= -> -> ->]. auto.
Qed.

(** What the second half of [Wstat] has done when it returns: the
    directory entry of the node carries the new mode, name and group,
    and a rename has moved the node in the child map of its parent. *)
Lemma Wstat_apply_ok l d n s s' :
  nodes s !! l = Some n ->
  Wstat_apply l d n s = (Ok tt, s') ->
  let dm := if wstat_chmod d n
            then set_Mode (wstat_mode (Mode d) (Mode (dir n))) (dir n)
            else dir n in
  let dn := if wstat_rename d n then set_Name (Name d) dm else dm in
  let dg := if wstat_chgrp d n then set_Gid (Gid d) dn else dn in
  (exists n', nodes s' !! l = Some n' /\ dir n' = dg) /\
  (wstat_rename d n = true ->
   exists pl pn ch pn',
     parent n = Some pl /\ pl <> l /\ nodes s !! pl = Some pn /\
     children pn = Some ch /\ nodes s' !! pl = Some pn' /\
     children pn' = Some (<[Name d := l]> (delete (Name (dir n)) ch))).
Proof.
  intros Hl Hrun dm dn dg. unfold Wstat_apply in Hrun.
  apply bind_Ok_inv in Hrun as ([] & s1 & HA & Hrun).
  apply bind_Ok_inv in Hrun as ([] & s2 & HB & HC).
  (* the mode *)
  assert (H1 : exists n1, nodes s1 !! l = Some n1 /\ dir n1 = dm /\
                 parent n1 = parent n /\
                 forall l', l' <> l -> nodes s1 !! l' = nodes s !! l').
  { subst dm. destruct (wstat_chmod d n).
    - rewrite (modify_node_at _ _ _ _ Hl) in HA. injection HA as <-.
      eexists. rewrite nodes_upd. rewrite decide_True by done.
      split; [reflexivity|]. split; [reflexivity|]. split; [reflexivity|].
      intros l' Hne. rewrite nodes_upd. now rewrite decide_False by done.
    - injection HA as <-. exists n. auto. }
  destruct H1 as (n1 & Hl1 & Hd1 & Hp1 & Hframe1).
  (* the name *)
  assert (H2 : exists n2, nodes s2 !! l = Some n2 /\ dir n2 = dn /\
     (wstat_rename d n = true ->
      exists pl pn ch pn',
        parent n = Some pl /\ pl <> l /\ nodes s !! pl = Some pn /\
        children pn = Some ch /\ nodes s2 !! pl = Some pn' /\
        children pn' = Some (<[Name d := l]> (delete (Name (dir n)) ch)))).
  { subst dn. destruct (wstat_rename d n);
      [|injection HB as <-; exists n1; split; [done|]; split; [done|]; discriminate].
    apply bind_Ok_inv in HB as ([pl pn] & t1 & Hderef & HB).
    apply deref_Ok_inv in Hderef as (Hpar & Hpl & ->). cbn [fst snd] in HB.
    apply bind_Ok_inv in HB as ([] & t2 & Hset & HB).
    injection Hset as <-.
    apply bind_Ok_inv in HB as ([] & t3 & Hdl & HB).
    destruct (bool_decide (pl = l)) eqn:Hpll; [discriminate|].
    apply bool_decide_eq_false in Hpll. injection Hdl as <-.
    apply bind_Ok_inv in HB as ([] & t4 & Hmod & HB).
    rewrite (modify_node_at _ _ _ n1) in Hmod
      by (simpl; now rewrite lookup_insert_ne).
    injection Hmod as <-.
    apply bind_Ok_inv in HB as (pn1 & t5 & Hget & HB).
    apply get_node_Ok_inv in Hget as (Hpn1 & ->).
    rewrite nodes_upd, decide_False in Hpn1 by done.
    simpl in Hpn1. rewrite lookup_insert_eq in Hpn1. injection Hpn1 as <-.
    simpl in HB.
    destruct (children pn) as [ch|] eqn:Hch; [|discriminate]. simpl in HB.
    injection HB as <-. simpl.
    rewrite lookup_insert_ne by done. rewrite lookup_insert_eq.
    eexists. split; [reflexivity|]. split; [simpl; now rewrite Hd1|].
    intros _. exists pl, pn, ch. eexists.
    split; [done|]. split; [done|].
    split; [now rewrite <- Hframe1|].
    split; [done|]. rewrite lookup_insert_eq. split; reflexivity. }
  destruct H2 as (n2 & Hl2 & Hd2 & Hren).
  (* the group *)
  subst dg. destruct (wstat_chgrp d n).
  - rewrite (modify_node_at _ _ _ _ Hl2) in HC. injection HC as <-. split.
    + eexists. rewrite nodes_upd, decide_True by done.
      split; [reflexivity|]. simpl. now rewrite Hd2.
    + intros Hr. destruct (Hren Hr) as (pl & pn & ch & pn' & ? & ? & ? & ? & ? & ?).
      exists pl, pn, ch, pn'. repeat split; try done.
      rewrite nodes_upd. now rewrite decide_False by done.
  - injection HC as <-. split; eauto.
Qed.

(** C6, as stated, fails: the request for the mode 0660 on [/file1],
    whose mode is 0644, succeeds, and the mode is 0644 afterwards, as
    the test of the package expects: the permission bits of a request
    are not applied. *)
Lemma Wstat_mode_not_applied :
  let fs := fst wstat_fs in
  let f := snd wstat_fs in
  exists n fs' n',
    nodes fs !! f = Some n /\ Mode (dir n) = o644 /\
    Wstat f "adm" (wstat_request "nfile" o660) fs = (Ok tt, fs') /\
    nodes fs' !! f = Some n' /\
    Name (dir n') = "nfile" /\ Mode (dir n') = o644 /\
    Mode (dir n') <> Mode (wstat_request "nfile" o660).
Proof.
  eexists _, _, _. split; [vm_compute; reflexivity|].
  split; [reflexivity|].
  split; [vm_compute; reflexivity|].
  split; [vm_compute; reflexivity|].
  split; [reflexivity|]. split; [reflexivity|]. discriminate.
Qed.

(** C6, amended.  If [Wstat] returns an error, nothing has changed:
    neither the node nor its parent nor anything else in the server.  If
    it succeeds, a name asked for is the name of the node, and the node
    has moved to that name in the child map of its parent; a group asked
    for is the group of the node; and a mode asked for has been applied
    as [wstat_mode] gives it: the bits above the permission bits are
    those of the request, the permission bits (0777 for a request with
    the directory bit, 0666 otherwise) stay as they were.  A field with
    the "don't touch" value is left as it was. *)
Theorem Wstat_all_or_nothing (fs : FS) (l : loc) (uname : string) (d : Dir) :
  (forall e fs', Wstat l uname d fs = (Err e, fs') -> fs' = fs) /\
  (forall fs', Wstat l uname d fs = (Ok tt, fs') ->
     exists n n',
       nodes fs !! l = Some n /\ nodes fs' !! l = Some n' /\
       Mode (dir n') = (if Mode d =? 0xFFFFFFFF then Mode (dir n)
                        else wstat_mode (Mode d) (Mode (dir n))) /\
       Name (dir n') = (if bool_decide (Name d = "") then Name (dir n) else Name d) /\
       Gid (dir n') = (if bool_decide (Gid d = "") then Gid (dir n) else Gid d) /\
       (Name d <> "" -> Name d <> Name (dir n) ->
        exists pl pn ch pn',
          parent n = Some pl /\ nodes fs !! pl = Some pn /\
          children pn = Some ch /\ nodes fs' !! pl = Some pn' /\
          children pn' = Some (<[Name d := l]> (delete (Name (dir n)) ch)))).
Proof.
  split.
  - intros e fs' H. unfold Wstat in H.
    apply bind_Err_inv in H as [H|(n & s1 & Hget & H)].
    { unfold get_node in H. destruct (nodes fs !! l); discriminate. }
    apply get_node_Ok_inv in Hget as (Hl & ->).
    pose proof (Wstat_check_state uname d n fs) as Hs.
    apply bind_Err_inv in H as [H|([] & s1 & Hc & H)].
    + rewrite H in Hs. simpl in Hs. congruence.
    + pose proof (Wstat_apply_no_error l d n s1 e) as Hn.
      rewrite H in Hn. now destruct Hn.
  - intros fs' H. unfold Wstat in H.
    apply bind_Ok_inv in H as (n & s1 & Hget & H).
    apply get_node_Ok_inv in Hget as (Hl & ->).
    apply bind_Ok_inv in H as ([] & s1 & Hc & H).
    pose proof (Wstat_check_state uname d n fs) as Hs.
    rewrite Hc in Hs. simpl in Hs. subst s1.
    destruct (Wstat_apply_ok l d n fs fs' Hl H) as ((n' & Hl' & Hd) & Hren).
    exists n, n'. split; [done|]. split; [done|]. rewrite Hd.
    unfold wstat_chmod, wstat_rename, wstat_chgrp in *.
    split; [|split; [|split]].
    + destruct (Z.eqb_spec (Mode d) 0xFFFFFFFF) as [|Hm];
        destruct (Z.eqb_spec (Mode d) (Mode (dir n))) as [Hm'|];
        destruct (bool_decide (Name d = "")), (bool_decide (Name d = Name (dir n))),
          (bool_decide (Gid d = "")), (bool_decide (Gid d = Gid (dir n)));
        simpl; try reflexivity; rewrite Hm'; now rewrite wstat_mode_same.
    + destruct (negb (Mode d =? 0xFFFFFFFF) && negb (Mode d =? Mode (dir n)));
        destruct (bool_decide (Gid d = "")), (bool_decide (Gid d = Gid (dir n)));
        destruct (bool_decide (Name d = "")); simpl; try reflexivity;
        destruct (bool_decide_reflect (Name d = Name (dir n))); simpl; congruence.
    + destruct (negb (Mode d =? 0xFFFFFFFF) && negb (Mode d =? Mode (dir n)));
        destruct (bool_decide (Name d = "")), (bool_decide (Name d = Name (dir n)));
        destruct (bool_decide (Gid d = "")); simpl; try reflexivity;
        destruct (bool_decide_reflect (Gid d = Gid (dir n))); simpl; congruence.
    + intros Hne1 Hne2.
      destruct Hren as (pl & pn & ch & pn' & ? & ? & ? & ? & ? & ?).
      { now rewrite !bool_decide_eq_false_2 by done. }
      exists pl, pn, ch, pn'. auto.
Qed.

Lemma Wstat_all_or_nothing_witness :
  let fs := fst wstat_fs in
  let f := snd wstat_fs in
  (exists n', nodes (snd (Wstat f "adm" (wstat_request "nfile" o660) fs)) !! f = Some n' /\
     Name (dir n') = "nfile" /\ Mode (dir n') = o644) /\
  Wstat f "adm" (wstat_request "file2" o660) fs = (Err (perror "file exists"), fs).
Proof.
  intros fs f. split.
  - destruct (Wstat_all_or_nothing fs f "adm" (wstat_request "nfile" o660)) as [_ H].
    destruct (H (snd (Wstat f "adm" (wstat_request "nfile" o660) fs)))
      as (n & n' & Hn & Hn' & Hmode & Hname & _).
    { vm_compute. reflexivity. }
    exists n'. split; [exact Hn'|]. split; [exact Hname|].
    rewrite Hmode.
    assert (Hn0 : nodes fs !! f = Some (set_parent (Some 0%nat)
              (newNode "file1" "adm" "adm" o644 5
                 (Some (BufFile (File.newFile BLOCKSIZE))) 0)))
      by (vm_compute; reflexivity).
    rewrite Hn0 in Hn. injection Hn as <-. vm_compute. reflexivity.
  - destruct (Wstat_all_or_nothing fs f "adm" (wstat_request "file2" o660)) as [H _].
    assert (Hrun : fst (Wstat f "adm" (wstat_request "file2" o660) fs)
                   = Err (perror "file exists")) by (vm_compute; reflexivity).
    destruct (Wstat f "adm" (wstat_request "file2" o660) fs) as [r s1] eqn:Hw.
    simpl in Hrun. subst r. now rewrite (H _ _ eq_refl).
Defined.

(** ** What the operations leave alone *)

(** A scheme for invariants of the node store that speak of one part
    [key] of the directory entries.  [I] is the invariant, [T l x] says
    that [x] may be the key of the node at [l]; the hypotheses say that
    [I] depends on the node store only, that it is kept by writing, at
    [l], a node with an admissible key, and that the key of a new node
    is admissible at an unused location.  [keeps I m Q] says that the
    call [m] keeps [I], however it comes back, and returns values in
    [Q]. *)
Section Keeps.

Variable order : forall (K : Type) (E : EqDecision K) (C : Countable K) (V : Type),
  gmap K V -> list (K * V).
Variable dirBytes : Dir -> outcome (list byte).

Variable X : Type.
Variable key : Dir -> X.
Variable I : FS -> Prop.
Variable T : loc -> X -> Prop.

Hypothesis I_get : forall s l n, I s -> nodes s !! l = Some n -> T l (key (dir n)).
Hypothesis I_set : forall s l n, I s -> T l (key (dir n)) -> I (upd l n s).
Hypothesis I_nodes : forall s s', nodes s' = nodes s -> I s -> I s'.
Hypothesis I_new : forall s l name uid gid perm path b now,
  I s -> nodes s !! l = None ->
  T l (key (dir (newNode name uid gid perm path b now))).

Hypothesis key_Mode : forall m d, key (set_Mode m d) = key d.
Hypothesis key_Name : forall x d, key (set_Name x d) = key d.
Hypothesis key_Gid : forall x d, key (set_Gid x d) = key d.
Hypothesis key_Atime : forall t d, key (set_Atime t d) = key d.

Lemma keeps_ret {A} (a : A) (Q : A -> Prop) : Q a -> keeps I (ret a) Q.
Proof. intros Ha s Hs. split; [exact Hs|]. now intros a' [= <-]. Qed.

Lemma keeps_fail {A} e (Q : A -> Prop) : keeps I (fail e) Q.
Proof. intros s Hs. split; [exact Hs | discriminate]. Qed.

Lemma keeps_panic {A} msg (Q : A -> Prop) : keeps I (panic msg) Q.
Proof. intros s Hs. split; [exact Hs | discriminate]. Qed.

Lemma keeps_deadlock {A} (Q : A -> Prop) : keeps I deadlock Q.
Proof. intros s Hs. split; [exact Hs | discriminate]. Qed.

Lemma keeps_bind {A B} (m : M A) (k : A -> M B) (Q1 : A -> Prop) (Q : B -> Prop) :
  keeps I m Q1 -> (forall a, Q1 a -> keeps I (k a) Q) -> keeps I (bind m k) Q.
Proof.
  intros Hm Hk s Hs. destruct (Hm s Hs) as [HI HQ]. unfold bind.
  destruct (m s) as [[a| | | |] s1]; simpl in *;
    try (split; [exact HI | discriminate]).
  apply Hk; auto.
Qed.

Lemma keeps_any {A} (m : M A) (Q : A -> Prop) : keeps I m Q -> keeps I m any.
Proof. intros H s Hs. split; [apply (H s Hs) | done]. Qed.

(** A call that leaves the node store as it is. *)
Lemma keeps_frame {A} (m : M A) :
  (forall s, nodes (snd (m s)) = nodes s) -> keeps I m any.
Proof. intros H s Hs. split; [|done]. eapply I_nodes; [apply H | exact Hs]. Qed.

Lemma keeps_get_node l : keeps I (get_node l) (fun n => T l (key (dir n))).
Proof.
  intros s Hs. unfold get_node. destruct (nodes s !! l) as [n|] eqn:Hl; simpl.
  - split; [exact Hs|]. intros a [= <-]. eauto.
  - split; [exact Hs | discriminate].
Qed.

Lemma keeps_deref p :
  keeps I (deref p) (fun ln => T (fst ln) (key (dir (snd ln)))).
Proof.
  unfold deref. destruct p as [l|]; [|apply keeps_panic].
  eapply keeps_bind; [apply keeps_get_node|].
  intros n Hn. now apply keeps_ret.
Qed.

Lemma keeps_set_node l n : T l (key (dir n)) -> keeps I (set_node l n) any.
Proof. intros Hn s Hs. split; [|done]. simpl. now apply I_set. Qed.

Lemma keeps_modify_node l f :
  (forall n, key (dir (f n)) = key (dir n)) -> keeps I (modify_node l f) any.
Proof.
  intros Hf. unfold modify_node.
  eapply keeps_bind; [apply keeps_get_node|].
  intros n Hn. apply keeps_set_node. now rewrite Hf.
Qed.

Lemma keeps_newPath : keeps I (newPath order) any.
Proof.
  apply keeps_frame. intros s. unfold newPath.
  destruct (range order (pathmap s)) as [|[p b] ?]; [|reflexivity].
  destruct (_ =? _); reflexivity.
Qed.

Lemma keeps_delPath p : keeps I (delPath p) any.
Proof. now apply keeps_frame. Qed.

Lemma keeps_HasPerm l uname perm : keeps I (HasPerm l uname perm) any.
Proof. apply keeps_frame. intros s. now rewrite HasPerm_state. Qed.

Lemma keeps_Stat l : keeps I (Stat l) any.
Proof.
  unfold Stat. eapply keeps_bind; [apply keeps_get_node|].
  intros n _. now apply keeps_ret.
Qed.

Lemma keeps_Open l mode : keeps I (Open l mode) any.
Proof.
  unfold Open. eapply keeps_bind; [apply keeps_get_node|].
  intros n Hn. destruct (_ && _); [apply keeps_fail|].
  apply keeps_set_node.
  destruct (_ && _), (has_bit mode ORCLOSE); exact Hn.
Qed.

Lemma keeps_Create l uid name mode perm now :
  keeps I (Create order l uid name mode perm now) any.
Proof.
  unfold Create. destruct (_ || _); [apply keeps_fail|].
  eapply keeps_bind; [apply keeps_get_node|].
  intros n Hn. destruct (negb _); [apply keeps_fail|].
  destruct (_ && _); [apply keeps_fail|].
  eapply keeps_bind; [apply keeps_newPath|].
  intros p _.
  destruct (default ∅ (children n) !! name) as [f|].
  { eapply keeps_bind; [apply keeps_Open|]. intros _ _. now apply keeps_ret. }
  destruct (children n) as [ch|]; [|apply keeps_panic].
  intros s Hs. split; [|done]. simpl.
  apply I_set; [|exact Hn].
  apply I_set; [exact Hs|]. simpl.
  apply (I_new s); [exact Hs|].
  apply not_elem_of_dom, is_fresh.
Qed.

Lemma keeps_remove l : keeps I (remove l) any.
Proof.
  unfold remove. eapply keeps_bind; [apply keeps_get_node|].
  intros n Hn. destruct (_ && _); [apply keeps_fail|].
  destruct (parent n) as [pl|]; [|apply keeps_panic].
  destruct (bool_decide _); [apply keeps_deadlock|].
  eapply keeps_bind; [apply keeps_get_node|].
  intros pn Hpn. destruct (_ !! _); [|apply keeps_fail].
  eapply keeps_bind; [apply keeps_set_node; exact Hpn|].
  intros _ _. apply keeps_delPath.
Qed.

Lemma keeps_Close l : keeps I (Close l) any.
Proof.
  unfold Close. eapply keeps_bind; [apply keeps_get_node|].
  intros n Hn. eapply keeps_bind.
  { apply keeps_set_node. destruct (_ && _); exact Hn. }
  intros _ _. eapply keeps_bind with (Q1 := any).
  { destruct (negb _); [|now apply keeps_ret].
    destruct (file n); [now apply keeps_ret | apply keeps_panic]. }
  intros _ _. destruct (orclose n); [apply keeps_remove | now apply keeps_ret].
Qed.

Lemma keeps_Remove l : keeps I (Remove l) any.
Proof. apply keeps_remove. Qed.

Lemma keeps_ReadAt l lenp offset now :
  keeps I (ReadAt order l lenp offset now) any.
Proof.
  unfold ReadAt. eapply keeps_bind; [apply keeps_get_node|].
  intros n Hn. destruct (has_bit _ _); [apply keeps_fail|].
  destruct (file n) as [b|]; [|apply keeps_panic].
  eapply keeps_bind with (Q1 := any).
  { apply keeps_frame. intros s. now destruct b. }
  intros data _. eapply keeps_bind.
  { apply keeps_set_node. simpl. now rewrite key_Atime. }
  intros _ _. now apply keeps_ret.
Qed.

Lemma keeps_Readdir_loop cs : forall data, keeps I (Readdir_loop dirBytes cs data) any.
Proof.
  induction cs as [|[name f] cs IH]; intros data; simpl.
  - now apply keeps_ret.
  - eapply keeps_bind; [apply keeps_get_node|].
    intros fn _. destruct (dirBytes (dir fn)).
    + apply IH.
    + apply keeps_fail.
    + apply keeps_panic.
    + apply keeps_deadlock.
    + now apply keeps_frame.
Qed.

Lemma keeps_Readdir l : keeps I (Readdir order dirBytes l) any.
Proof.
  unfold Readdir. eapply keeps_bind; [apply keeps_get_node|].
  intros n _. destruct (negb _); [apply keeps_fail | apply keeps_Readdir_loop].
Qed.

Lemma keeps_Wstat_check uname d n : keeps I (Wstat_check uname d n) any.
Proof. apply keeps_frame. intros s. now rewrite Wstat_check_state. Qed.

Lemma keeps_Wstat_apply l d n : keeps I (Wstat_apply l d n) any.
Proof.
  unfold Wstat_apply.
  eapply keeps_bind with (Q1 := any).
  { destruct (wstat_chmod d n); [|now apply keeps_ret].
    apply keeps_modify_node. intros n0. simpl. apply key_Mode. }
  intros _ _. eapply keeps_bind with (Q1 := any).
  { destruct (wstat_rename d n); [|now apply keeps_ret].
    eapply keeps_bind; [apply keeps_deref|].
    intros [pl pn] Hpn. simpl in Hpn |- *.
    eapply keeps_bind; [apply keeps_set_node; exact Hpn|].
    intros _ _. eapply keeps_bind with (Q1 := any).
    { destruct (bool_decide _); [apply keeps_deadlock | now apply keeps_ret]. }
    intros _ _. eapply keeps_bind.
    { apply keeps_modify_node. intros n0. simpl. apply key_Name. }
    intros _ _. eapply keeps_bind; [apply keeps_get_node|].
    intros pn1 Hpn1. destruct (children pn1); [|apply keeps_panic].
    apply keeps_set_node. exact Hpn1. }
  intros _ _. destruct (wstat_chgrp d n); [|now apply keeps_ret].
  apply keeps_modify_node. intros n0. simpl. apply key_Gid.
Qed.

Lemma keeps_Wstat l uname d : keeps I (Wstat l uname d) any.
Proof.
  unfold Wstat. eapply keeps_bind; [apply keeps_get_node|].
  intros n _. eapply keeps_bind; [apply keeps_Wstat_check|].
  intros _ _. apply keeps_Wstat_apply.
Qed.

Lemma keeps_buffer_WriteAt l n b p offset :
  T l (key (dir n)) -> keeps I (buffer_WriteAt l n b p offset) any.
Proof.
  intros Hn. destruct b as [f| |].
  - intros s Hs. split; [|done]. unfold buffer_WriteAt.
    destruct (File.WriteAt p offset f) as [r f']. simpl.
    apply (I_set s l (set_file (Some (BufFile f')) n)); assumption.
  - apply keeps_frame. intros s. unfold buffer_WriteAt.
    now destruct (Group.WriteAt p offset (group s)).
  - apply keeps_frame. intros s. unfold buffer_WriteAt, ctl_WriteAt.
    destruct (Group.unmarshal_command p) as [cmd| | | |]; try reflexivity.
    destruct (bool_decide _); [|reflexivity].
    destruct (Group.Args cmd) as [|a0 [|a1 [|a2 ?]]]; reflexivity.
Qed.

(** [WriteAt] keeps an invariant on a key that the modification time,
    the length and the version are no part of. *)
Lemma keeps_WriteAt l p offset now :
  (forall t d, key (set_Mtime t d) = key d) ->
  (forall t d, key (set_Length t d) = key d) ->
  (forall t d, key (set_Vers t d) = key d) ->
  keeps I (WriteAt l p offset now) any.
Proof.
  intros key_Mtime key_Length key_Vers.
  unfold WriteAt. eapply keeps_bind; [apply keeps_get_node|].
  intros n Hn. destruct (has_bit _ DMDIR); [apply keeps_fail|].
  eapply keeps_bind with (Q1 := any).
  { destruct (has_bit _ DMAPPEND); [|now apply keeps_ret].
    destruct (file n) as [b|]; [|apply keeps_panic].
    destruct (_ <? _); [apply keeps_fail | now apply keeps_ret]. }
  intros off _. destruct (file n) as [b|]; [|apply keeps_panic].
  eapply keeps_bind; [now apply keeps_buffer_WriteAt|].
  intros m _. eapply keeps_bind; [apply keeps_get_node|].
  intros n1 Hn1. eapply keeps_bind; [|intros _ _; now apply keeps_ret].
  apply keeps_set_node. simpl.
  destruct (negb _); rewrite ?key_Vers, key_Length, key_Mtime, key_Atime; exact Hn1.
Qed.

Lemma keeps_walk {C} path0 : forall root0 (fn : loc -> list string -> C -> M C) c,
  (forall l p c, keeps I (fn l p c) any) ->
  keeps I (walk root0 path0 fn c) any.
Proof.
  induction path0 as [|name path0 IH]; intros root0 fn c Hfn; simpl.
  - now apply keeps_ret.
  - eapply keeps_bind; [apply keeps_get_node|].
    intros r _. eapply keeps_bind with (Q1 := any).
    { destruct (bool_decide _); [now apply keeps_ret|].
      destruct (_ !! _); [now apply keeps_ret | apply keeps_fail]. }
    intros node _. eapply keeps_bind; [apply keeps_deref|].
    intros nd _. eapply keeps_bind; [apply keeps_Stat|].
    intros stat _. destruct (_ && _); [apply keeps_fail|].
    eapply keeps_bind; [apply Hfn|].
    intros c' _. now apply IH.
Qed.

End Keeps.

(** *** Two invariants *)

Lemma same_on_refl {X} (key : Dir -> X) s : same_on key s s.
Proof. intros l n0 H. eauto. Qed.

Lemma same_on_trans {X} (key : Dir -> X) s0 s1 s2 :
  same_on key s0 s1 -> same_on key s1 s2 -> same_on key s0 s2.
Proof.
  intros H1 H2 l n0 H0. destruct (H1 l n0 H0) as (n1 & Hn1 & Hk1).
  destruct (H2 l n1 Hn1) as (n2 & Hn2 & Hk2). exists n2. split; congruence.
Qed.

Section SameOn.

Context {X : Type} (key : Dir -> X) (s0 : FS).

Lemma same_on_get s l n :
  same_on key s0 s -> nodes s !! l = Some n -> admissible key s0 l (key (dir n)).
Proof.
  intros Hs Hl n0 H0. destruct (Hs l n0 H0) as (n' & Hn' & Hk). congruence.
Qed.

Lemma same_on_set s l n :
  same_on key s0 s -> admissible key s0 l (key (dir n)) -> same_on key s0 (upd l n s).
Proof.
  intros Hs Hn l0 n0 H0. rewrite nodes_upd. case_decide as Hll.
  - subst l0. exists n. split; [done|]. now apply Hn.
  - now apply Hs.
Qed.

Lemma same_on_nodes s s' :
  nodes s' = nodes s -> same_on key s0 s -> same_on key s0 s'.
Proof. intros Heq Hs l n0 H0. rewrite Heq. now apply Hs. Qed.

Lemma same_on_new s l name uid gid perm path b now :
  same_on key s0 s -> nodes s !! l = None ->
  admissible key s0 l (key (dir (newNode name uid gid perm path b now))).
Proof.
  intros Hs Hl n0 H0. destruct (Hs l n0 H0) as (n' & Hn' & _). congruence.
Qed.

End SameOn.

Section Runs.

Variable order : forall (K : Type) (E : EqDecision K) (C : Countable K) (V : Type),
  gmap K V -> list (K * V).
Variable dirBytes : Dir -> outcome (list byte).

(** An operation other than [WriteAt] keeps every part of the entries
    that [Wstat] and [ReadAt] do not assign. *)
Lemma run_same_on {X} (key : Dir -> X) (o : op) (s : FS) :
  (forall m d, key (set_Mode m d) = key d) ->
  (forall x d, key (set_Name x d) = key d) ->
  (forall x d, key (set_Gid x d) = key d) ->
  (forall t d, key (set_Atime t d) = key d) ->
  is_write o = false ->
  same_on key s (run order dirBytes o s).
Proof.
  intros kM kN kG kA Hw.
  pose proof (same_on_get key s) as Hget.
  pose proof (same_on_set key s) as Hset.
  pose proof (same_on_nodes key s) as Hnodes.
  pose proof (same_on_new key s) as Hnew.
  pose proof (same_on_refl key s) as Hrefl.
  destruct o; try discriminate; simpl.
  - now apply (keeps_Create order X key _ _ Hget Hset Hnodes Hnew).
  - now apply (keeps_Open X key _ _ Hget Hset).
  - now apply (keeps_Close X key _ _ Hget Hset Hnodes).
  - now apply (keeps_Remove X key _ _ Hget Hset Hnodes).
  - now apply (keeps_ReadAt order X key _ _ Hget Hset Hnodes kA).
  - now apply (keeps_Readdir order dirBytes X key _ _ Hget Hnodes).
  - now apply (keeps_Stat X key _ _ Hget).
  - now apply (keeps_Wstat X key _ _ Hget Hset Hnodes kM kN kG).
  - now apply (keeps_HasPerm _ Hnodes).
Qed.

End Runs.

(** ** The version of a node *)

(** The write through the [buffer] interface touches no directory
    entry, and no node but the one written. *)
Lemma buffer_WriteAt_dirs l n b p offset s :
  nodes s !! l = Some n ->
  (exists n1, nodes (snd (buffer_WriteAt l n b p offset s)) !! l = Some n1 /\
              dir n1 = dir n) /\
  (forall l0, l0 <> l ->
     nodes (snd (buffer_WriteAt l n b p offset s)) !! l0 = nodes s !! l0).
Proof.
  intros Hl. destruct b as [f| |]; unfold buffer_WriteAt.
  - destruct (File.WriteAt p offset f) as [r f']. simpl. split.
    + eexists. rewrite lookup_insert_eq. split; reflexivity.
    + intros l0 Hne. now rewrite lookup_insert_ne.
  - destruct (Group.WriteAt p offset (group s)) as [r g']. simpl. eauto.
  - assert (H : nodes (snd (ctl_WriteAt p offset s)) = nodes s).
    { unfold ctl_WriteAt.
      destruct (Group.unmarshal_command p) as [cmd| | | |]; try reflexivity.
      destruct (bool_decide _); [|reflexivity].
      destruct (Group.Args cmd) as [|a0 [|a1 [|a2 ?]]]; reflexivity. }
    rewrite H. eauto.
Qed.

(** What [WriteAt] on the node at [l] does to the node store: the other
    nodes stay; the node keeps its directory entry unless the call
    succeeds, and then the node is no directory and its version has
    gone up by one, modulo 2^32, unless the node is temporary. *)
Lemma WriteAt_result l p offset now s n :
  nodes s !! l = Some n ->
  (forall l0, l0 <> l ->
     nodes (snd (WriteAt l p offset now s)) !! l0 = nodes s !! l0) /\
  exists n', nodes (snd (WriteAt l p offset now s)) !! l = Some n' /\
    match fst (WriteAt l p offset now s) with
    | Ok _ =>
      has_bit (Mode (dir n)) DMDIR = false /\
      Vers (qid (dir n')) =
        (if has_bit (Mode (dir n)) DMTMP then Vers (qid (dir n))
         else u32 (Vers (qid (dir n)) + 1))
    | _ => dir n' = dir n
    end.
Proof.
  intros Hl. destruct (WriteAt l p offset now s) as [r s'] eqn:Hrun.
  cbn [fst snd].
  assert (Hsame :
    match r with Ok _ => False | _ => s' = s end ->
    (forall l0, l0 <> l -> nodes s' !! l0 = nodes s !! l0) /\
    exists n', nodes s' !! l = Some n' /\
      match r with
      | Ok _ =>
        has_bit (Mode (dir n)) DMDIR = false /\
        Vers (qid (dir n')) =
          (if has_bit (Mode (dir n)) DMTMP then Vers (qid (dir n))
           else u32 (Vers (qid (dir n)) + 1))
      | _ => dir n' = dir n
      end).
  { intros Hr. destruct r; try destruct Hr;
      (split; [reflexivity|]; exists n; split; [exact Hl | reflexivity]). }
  unfold WriteAt in Hrun. unfold bind at 1 in Hrun.
  unfold get_node at 1 in Hrun. rewrite Hl in Hrun.
  destruct (has_bit (Mode (dir n)) DMDIR) eqn:Hdir.
  { injection Hrun as <- <-. now apply Hsame. }
  unfold bind at 1 in Hrun.
  set (pre := if has_bit (Mode (dir n)) DMAPPEND then _ else _) in Hrun.
  assert (Hpre : snd (pre s) = s).
  { subst pre. destruct (has_bit _ DMAPPEND); [|reflexivity].
    destruct (file n); [|reflexivity]. destruct (_ <? _); reflexivity. }
  destruct (pre s) as [[off| | | |] s0]; simpl in Hpre; subst s0;
    try (injection Hrun as <- <-; now apply Hsame).
  destruct (file n) as [b|];
    [|injection Hrun as <- <-; now apply Hsame].
  unfold bind at 1 in Hrun.
  destruct (buffer_WriteAt_dirs l n b p off s Hl) as ((n1 & Hl1 & Hd1) & Hfr).
  destruct (buffer_WriteAt l n b p off s) as [[m| | | |] s1];
    simpl in Hl1, Hfr;
    try (injection Hrun as <- <-; split; [exact Hfr | eauto]; fail).
  unfold_calls. rewrite Hl1 in Hrun. simpl in Hrun.
  injection Hrun as <- <-. simpl. split.
  - intros l0 Hne. rewrite lookup_insert_ne by done. now apply Hfr.
  - eexists. rewrite lookup_insert_eq. split; [reflexivity|].
    split; [reflexivity|]. rewrite Hd1.
    destruct (has_bit (Mode (dir n)) DMTMP); reflexivity.
Qed.

Lemma bumps_add j1 j2 v : bumps j2 (bumps j1 v) = bumps (j1 + j2) v.
Proof.
  unfold bumps. induction j2 as [|j2 IH]; simpl.
  - now rewrite Nat.add_0_r.
  - rewrite Nat.add_succ_r. simpl. now rewrite IH.
Qed.

Lemma bumps_small j v :
  0 <= v -> v + Z.of_nat j < 2 ^ 32 -> bumps j v = v + Z.of_nat j.
Proof.
  unfold bumps. induction j as [|j IH]; intros Hv Hj; simpl; [lia|].
  rewrite IH by lia. unfold u32. rewrite Z.mod_small; lia.
Qed.

Lemma versions_within_trans k1 k2 s0 s1 s2 :
  versions_within k1 s0 s1 -> versions_within k2 s1 s2 ->
  versions_within (k1 + k2) s0 s2.
Proof.
  intros H1 H2 l n0 H0.
  destruct (H1 l n0 H0) as (n1 & j1 & Hn1 & Hj1 & Hv1).
  destruct (H2 l n1 Hn1) as (n2 & j2 & Hn2 & Hj2 & Hv2).
  exists n2, (j1 + j2)%nat. split; [done|]. split; [lia|].
  now rewrite Hv2, Hv1, bumps_add.
Qed.

Section Versions.

Variable order : forall (K : Type) (E : EqDecision K) (C : Countable K) (V : Type),
  gmap K V -> list (K * V).
Variable dirBytes : Dir -> outcome (list byte).

(** One operation moves no version by more than one increment. *)
Lemma run_versions o s : versions_within 1 s (run order dirBytes o s).
Proof.
  destruct (is_write o) eqn:Hw.
  - destruct o; try discriminate. simpl. intros l0 n0 H0.
    destruct (decide (l0 = l)) as [->|Hne].
    + destruct (WriteAt_result l p offset now s n0 H0) as (_ & n' & Hn' & Hr).
      exists n'. destruct (fst (WriteAt l p offset now s)).
      * destruct Hr as [_ Hv]. destruct (has_bit _ DMTMP).
        -- exists 0%nat. auto.
        -- exists 1%nat. auto.
      * exists 0%nat. rewrite Hr. auto.
      * exists 0%nat. rewrite Hr. auto.
      * exists 0%nat. rewrite Hr. auto.
      * exists 0%nat. rewrite Hr. auto.
    + exists n0, 0%nat. split; [|auto].
      destruct (nodes s !! l) as [n|] eqn:Hl.
      * destruct (WriteAt_result l p offset now s n Hl) as (Hfr & _).
        now rewrite Hfr.
      * unfold WriteAt. unfold_calls. now rewrite Hl.
  - intros l0 n0 H0.
    destruct (run_same_on order dirBytes (fun d => Vers (qid d)) o s) with (l := l0) (n0 := n0)
      as (n & Hn & Hv); auto.
    exists n, 0%nat. auto.
Qed.

Lemma run_all_versions ops : forall s,
  versions_within (length ops) s (run_all order dirBytes ops s).
Proof.
  induction ops as [|o ops IH]; intros s.
  - intros l n0 H0. exists n0, 0%nat. auto.
  - simpl. apply (versions_within_trans 1 (length ops) s (run order dirBytes o s)).
    + apply run_versions.
    + apply IH.
Qed.

(** C5, amended.  A successful [WriteAt] on a node that is not
    temporary sets the version to the version plus one modulo 2^32 (the
    node is then no directory): an increment by one as long as the
    version is below 2^32 - 1.  Over a sequence of operations, on this
    node or on any other, a version that is further from 2^32 than the
    sequence is long does not decrease. *)
Theorem WriteAt_version :
  (forall s l n p offset now m s',
     nodes s !! l = Some n ->
     has_bit (Mode (dir n)) DMTMP = false ->
     WriteAt l p offset now s = (Ok m, s') ->
     exists n', nodes s' !! l = Some n' /\
       Vers (qid (dir n')) = u32 (Vers (qid (dir n)) + 1) /\
       (0 <= Vers (qid (dir n)) < 2 ^ 32 - 1 ->
        Vers (qid (dir n')) = Vers (qid (dir n)) + 1)) /\
  (forall ops s l n,
     nodes s !! l = Some n ->
     0 <= Vers (qid (dir n)) ->
     Vers (qid (dir n)) + Z.of_nat (length ops) < 2 ^ 32 ->
     exists n', nodes (run_all order dirBytes ops s) !! l = Some n' /\
       Vers (qid (dir n)) <= Vers (qid (dir n'))).
Proof.
  split.
  - intros s l n p offset now m s' Hl Htmp Hrun.
    destruct (WriteAt_result l p offset now s n Hl) as (_ & n' & Hn' & Hr).
    rewrite Hrun in Hn', Hr. simpl in Hn', Hr. destruct Hr as [_ Hv].
    rewrite Htmp in Hv. exists n'. split; [done|]. split; [done|].
    intros Hrange. rewrite Hv. unfold u32. apply Z.mod_small. lia.
  - intros ops s l n Hl Hv Hlen.
    destruct (run_all_versions ops s l n Hl) as (n' & j & Hn' & Hj & Hv').
    exists n'. split; [done|]. rewrite Hv', bumps_small; lia.
Qed.

End Versions.

(** C5, as stated, fails at the end of the range of the version: the
    version is a 32-bit counter, and a successful write on a node whose
    version is 2^32 - 1 leaves the version 0. *)
Lemma WriteAt_version_wraps :
  let f := snd wstat_fs in
  let fs := snd (modify_node f (fun n => set_dir (set_Vers (2 ^ 32 - 1) (dir n)) n)
                   (fst wstat_fs)) in
  exists n s' n',
    nodes fs !! f = Some n /\
    has_bit (Mode (dir n)) DMDIR = false /\ has_bit (Mode (dir n)) DMTMP = false /\
    Vers (qid (dir n)) = 2 ^ 32 - 1 /\
    WriteAt f (bytes_of "x") 0 0 fs = (Ok 1, s') /\
    nodes s' !! f = Some n' /\ Vers (qid (dir n')) = 0 /\
    Vers (qid (dir n')) <> Vers (qid (dir n)) + 1 /\
    Vers (qid (dir n')) < Vers (qid (dir n)).
Proof.
  eexists _, _, _. split; [vm_compute; reflexivity|].
  split; [reflexivity|]. split; [reflexivity|]. split; [reflexivity|].
  split; [vm_compute; reflexivity|].
  split; [vm_compute; reflexivity|].
  split; [reflexivity|]. split; [discriminate | reflexivity].
Qed.

Lemma WriteAt_version_witness :
  let fs := fst wstat_fs in
  let f := snd wstat_fs in
  let ops := [OpWriteAt f (bytes_of "hello ") 0 1;
              OpWstat f "adm" (wstat_request "nfile" o660);
              OpWriteAt f (bytes_of "planet go") 6 2;
              OpReadAt f 15 0 3] in
  (exists n', nodes (snd (WriteAt f (bytes_of "hello ") 0 1 fs)) !! f = Some n' /\
     Vers (qid (dir n')) = 1) /\
  (exists n', nodes (run_all listed noBytes ops fs) !! f = Some n' /\
     0 <= Vers (qid (dir n'))).
Proof.
  intros fs f ops.
  destruct (WriteAt_version listed noBytes) as [Hone Hseq].
  assert (Hn : nodes fs !! f = Some (set_parent (Some 0%nat)
            (newNode "file1" "adm" "adm" o644 5
               (Some (BufFile (File.newFile BLOCKSIZE))) 0)))
    by (vm_compute; reflexivity).
  split.
  - destruct (WriteAt f (bytes_of "hello ") 0 1 fs) as [r s'] eqn:Hrun.
    assert (Hr : r = Ok 6).
    { change r with (fst (r, s')). rewrite <- Hrun. vm_compute. reflexivity. }
    subst r.
    destruct (Hone _ _ _ _ _ _ _ _ Hn eq_refl Hrun) as (n' & Hn' & _ & Hv).
    exists n'. split; [exact Hn'|]. apply Hv. vm_compute. split; [discriminate | reflexivity].
  - destruct (Hseq ops _ _ _ Hn) as (n' & Hn' & Hv).
    + vm_compute. discriminate.
    + vm_compute. reflexivity.
    + exists n'. split; [exact Hn' | exact Hv].
Defined.

(** ** The [Type] word stays zero *)

Lemma New_untyped hostowner now : entries_untyped (New hostowner now).
Proof.
  assert (Hins : forall (m : gmap loc node) l n,
            Type_ (dir n) = 0 ->
            (forall l' n', m !! l' = Some n' -> Type_ (dir n') = 0) ->
            forall l' n', <[l := n]> m !! l' = Some n' -> Type_ (dir n') = 0).
  { intros m l n Hn Hm l' n'. rewrite lookup_insert. case_decide.
    - now intros [= <-].
    - apply Hm. }
  unfold entries_untyped, New.
  destruct (negb (bool_decide _)); cbn [nodes];
    repeat (apply Hins; [cbn; apply newNode_Type|]);
    intros l' n'; rewrite lookup_empty; discriminate.
Qed.

Section Untyped.

Variable order : forall (K : Type) (E : EqDecision K) (C : Countable K) (V : Type),
  gmap K V -> list (K * V).
Variable dirBytes : Dir -> outcome (list byte).

Lemma run_untyped o s :
  entries_untyped s -> entries_untyped (run order dirBytes o s).
Proof.
  intros Hs.
  assert (Hget : forall s l n, entries_untyped s -> nodes s !! l = Some n ->
                   (fun (_ : loc) x => x = 0) l (Type_ (dir n))) by (intros; eauto).
  assert (Hset : forall s l n, entries_untyped s ->
                   (fun (_ : loc) x => x = 0) l (Type_ (dir n)) ->
                   entries_untyped (upd l n s)).
  { intros s1 l n H1 Hn l0 n0. rewrite nodes_upd. case_decide.
    - now intros [= <-].
    - apply H1. }
  assert (Hnodes : forall s s', nodes s' = nodes s ->
                     entries_untyped s -> entries_untyped s').
  { intros s1 s2 Heq H1 l n. rewrite Heq. apply H1. }
  assert (Hnew : forall s l name uid gid perm path b now,
            entries_untyped s -> nodes s !! l = None ->
            (fun (_ : loc) x => x = 0) l
              (Type_ (dir (newNode name uid gid perm path b now)))).
  { intros. apply newNode_Type. }
  destruct o; simpl.
  - now apply (keeps_Create order Z Type_ _ _ Hget Hset Hnodes Hnew).
  - now apply (keeps_Open Z Type_ _ _ Hget Hset).
  - now apply (keeps_Close Z Type_ _ _ Hget Hset Hnodes).
  - now apply (keeps_Remove Z Type_ _ _ Hget Hset Hnodes).
  - now apply (keeps_WriteAt Z Type_ _ _ Hget Hset Hnodes).
  - now apply (keeps_ReadAt order Z Type_ _ _ Hget Hset Hnodes).
  - now apply (keeps_Readdir order dirBytes Z Type_ _ _ Hget Hnodes).
  - now apply (keeps_Stat Z Type_ _ _ Hget).
  - now apply (keeps_Wstat Z Type_ _ _ Hget Hset Hnodes).
  - now apply (keeps_HasPerm _ Hnodes).
Qed.

Lemma run_all_untyped ops : forall s,
  entries_untyped s -> entries_untyped (run_all order dirBytes ops s).
Proof.
  induction ops as [|o ops IH]; intros s Hs; simpl; [done|].
  apply IH. now apply run_untyped.
Qed.

(** On the tree of a file server, whatever operations have been run on
    it, the check of [walk] refuses no node. *)
Lemma no_step_denied hostowner now ops l nd :
  nodes (run_all order dirBytes ops (New hostowner now)) !! l = Some nd ->
  step_denied nd = false.
Proof.
  intros H. apply step_denied_Type_zero.
  exact (run_all_untyped ops _ (New_untyped hostowner now) l nd H).
Qed.

End Untyped.

(** The walks of [TestWalk] give what the test expects; every directory
    on the way has the execute bit. *)
Example TestWalk :
  fst (FS_walk "/a/b/c/fa" walk_fs) = Ok (Some 14%nat) /\
  fst (FS_walk "/a/b/c/x" walk_fs) = Err (perror "file does not exist") /\
  fst (FS_walk "/" walk_fs) = Ok (Some 0%nat) /\
  fst (FS_walk "/a/../a/b/../b" walk_fs) = Ok (Some 11%nat) /\
  (exists a, nodes walk_fs !! 10%nat = Some a /\
     has_bit (Mode (dir a)) DMDIR = true /\ has_bit (Mode (dir a)) DMEXEC = true).
Proof.
  do 4 (split; [vm_compute; reflexivity|]).
  eexists. split; [vm_compute; reflexivity|]. split; reflexivity.
Qed.

(** * Further properties of the code *)

(** ** The group database: properties *)

(** Filling the argument under way with bytes that are no blanks. *)
Lemma scan_fill t2 : forall t1 rest acc,
  Forall (fun c => Group.bad c = false) t2 ->
  len t1 + len t2 <= 64 ->
  Group.scan (t2 ++ rest) acc (Some t1) = Group.scan rest acc (Some (t1 ++ t2)).
Proof.
  induction t2 as [|c t2 IH]; intros t1 rest acc Hok Hlen; simpl.
  - now rewrite app_nil_r.
  - inversion Hok as [|? ? Hc Hok']; subst. rewrite Hc.
    revert Hlen. len_simpl. intros Hlen. pose proof (len_nonneg t2).
    destruct (Z.eqb_spec (len t1) 64); [lia|].
    rewrite IH; [|done|len_simpl; lia]. now rewrite <- app_assoc.
Qed.

(** Taking a whole token from the start of an argument. *)
Lemma scan_token t rest acc :
  token_ok t -> len acc < 64 ->
  Group.scan (t ++ rest) acc None = Group.scan rest acc (Some t).
Proof.
  intros (Hne & Hlen & Hok) Hacc. destruct t as [|c t]; [done|].
  inversion Hok as [|? ? Hc Hok']; subst. simpl. rewrite Hc.
  destruct (Z.leb_spec 64 (len acc)); [lia|].
  rewrite (scan_fill t [c]); [done|done|]. revert Hlen. len_simpl. lia.
Qed.

Lemma scan_tokens toks : forall acc,
  toks <> [] -> Forall token_ok toks -> len acc + len toks <= 64 ->
  Group.scan (join_tokens toks) acc None = Ok (rev acc ++ toks).
Proof.
  induction toks as [|t toks IH]; intros acc Hne Hok Hlen; [done|].
  inversion Hok as [|? ? Ht Hok']; subst.
  pose proof (len_nonneg toks). pose proof (len_nonneg acc).
  revert Hlen. len_simpl. intros Hlen.
  destruct toks as [|t' toks].
  - pose proof (scan_token t [] acc) as E. rewrite app_nil_r in E.
    cbn [join_tokens]. rewrite E by first [done | lia]. reflexivity.
  - change (join_tokens (t :: t' :: toks)) with (t ++ x20 :: join_tokens (t' :: toks)).
    rewrite scan_token by first [done | lia]. cbn [Group.scan].
    change (Group.bad x20) with true. cbv iota.
    rewrite IH; [|done|done|revert Hlen; len_simpl; lia].
    simpl. now rewrite <- app_assoc.
Qed.

(** Blanks before a command and after it are skipped. *)
Lemma scan_blanks ws : forall rest acc,
  Forall (fun c => Group.bad c = true) ws ->
  Group.scan (ws ++ rest) acc None = Group.scan rest acc None.
Proof.
  induction ws as [|c ws IH]; intros rest acc Hws; [done|].
  inversion Hws as [|? ? Hc Hws']; subst. simpl. rewrite Hc. now apply IH.
Qed.

Lemma unmarshal_tokens (ws t : list byte) (toks : list (list byte)) :
  Forall (fun c => Group.bad c = true) ws ->
  Forall token_ok (t :: toks) -> len (t :: toks) <= 64 ->
  Group.unmarshal_command (ws ++ join_tokens (t :: toks)) =
    Ok (Group.mkCommand (string_of_list_byte t) (map string_of_list_byte toks)).
Proof.
  intros Hws Hok Hlen. unfold Group.unmarshal_command.
  rewrite scan_blanks by done.
  rewrite scan_tokens; [reflexivity|done|done|].
  change (len (@nil (list byte))) with 0. lia.
Qed.

(** X6. The scanner of commands gives back the tokens of a line: for at
    most 64 tokens of 1 to 64 bytes without blanks, written with one
    space between them, after any blanks, [unmarshal] gives the first
    as the name and the others as the arguments. *)
Theorem unmarshal_command_tokens (ws t : list byte) (toks : list (list byte)) :
  Forall (fun c => Group.bad c = true) ws ->
  Forall token_ok (t :: toks) -> len (t :: toks) <= 64 ->
  Group.unmarshal_command (ws ++ join_tokens (t :: toks)) =
    Ok (Group.mkCommand (string_of_list_byte t) (map string_of_list_byte toks)).
Proof. apply unmarshal_tokens. Qed.

Lemma unmarshal_command_tokens_witness :
  Group.unmarshal_command (bytes_of "  uname sys +gnot") =
    Ok (Group.mkCommand "uname" ["sys"; "+gnot"]).
Proof.
  apply (unmarshal_command_tokens (bytes_of "  ") (bytes_of "uname")
           [bytes_of "sys"; bytes_of "+gnot"]).
  - repeat constructor.
  - repeat constructor; try discriminate; vm_compute; discriminate.
  - vm_compute. discriminate.
Defined.

(** X7. The limits of the scanner: a line of blanks has no command
    name, a 65th token is one argument too many, and a token of more
    than 64 bytes is too long. *)
Theorem unmarshal_command_limits (ws t : list byte) (toks : list (list byte)) :
  Forall (fun c => Group.bad c = true) ws ->
  Group.unmarshal_command ws = Err (perror "command name missing") /\
  (Forall token_ok toks -> len toks = 64 -> token_ok t ->
   Group.unmarshal_command (join_tokens (toks ++ [t])) =
     Err (perror "too many arguments")) /\
  (Forall (fun c => Group.bad c = false) t -> 64 < len t ->
   Group.unmarshal_command t = Err (perror "argument too long")).
Proof.
  intros Hws. split; [|split].
  - unfold Group.unmarshal_command.
    rewrite <- (app_nil_r ws), scan_blanks by done. reflexivity.
  - intros Hok Hlen Ht. unfold Group.unmarshal_command.
    assert (Hgen : forall toks acc, Forall token_ok toks ->
              len acc + len toks = 64 ->
              Group.scan (join_tokens (toks ++ [t])) acc None
              = Err (perror "too many arguments")).
    { clear toks Hok Hlen. induction toks as [|t' toks IH]; intros acc Hok Hlen.
      - destruct Ht as (Hne & _ & Hb). destruct t as [|c t]; [done|].
        inversion Hb as [|? ? Hc ?]; subst. simpl. rewrite Hc.
        revert Hlen. len_simpl. intros Hlen.
        destruct (Z.leb_spec 64 (len acc)); [done | lia].
      - inversion Hok as [|? ? Ht' Hok']; subst.
        pose proof (len_nonneg toks). revert Hlen. len_simpl. intros Hlen.
        replace (join_tokens ((t' :: toks) ++ [t]))
          with (t' ++ x20 :: join_tokens (toks ++ [t]))
          by (destruct toks; reflexivity).
        rewrite scan_token by first [done | lia]. cbn [Group.scan].
        change (Group.bad x20) with true. cbv iota.
        apply IH; [done|]. len_simpl. lia. }
    rewrite (Hgen toks []); [reflexivity | done |]. len_simpl. lia.
  - intros Hb Hlen. unfold Group.unmarshal_command.
    assert (Hgen : forall t2 t1, Forall (fun c => Group.bad c = false) t2 ->
              len t1 <= 64 -> 64 < len t1 + len t2 ->
              Group.scan t2 [] (Some t1) = Err (perror "argument too long")).
    { induction t2 as [|c t2 IH]; intros t1 Hb2 H1 H2.
      - revert H2. len_simpl. lia.
      - inversion Hb2 as [|? ? Hc ?]; subst. simpl. rewrite Hc.
        destruct (Z.eqb_spec (len t1) 64); [done|].
        apply IH; [done| |]; revert H2; len_simpl; lia. }
    destruct t as [|c t]; [revert Hlen; len_simpl; lia|].
    inversion Hb as [|? ? Hc ?]; subst. simpl. rewrite Hc. simpl.
    rewrite Hgen; [reflexivity|done| |]; revert Hlen; len_simpl; lia.
Qed.

Lemma unmarshal_command_limits_witness :
  Group.unmarshal_command (bytes_of "  ") = Err (perror "command name missing") /\
  Group.unmarshal_command (replicate 65 "a"%byte) = Err (perror "argument too long").
Proof.
  destruct (unmarshal_command_limits (bytes_of "  ") (replicate 65 "a"%byte) [])
    as (H1 & _ & H3).
  - repeat constructor.
  - split; [exact H1|]. apply H3.
    + apply Forall_replicate. reflexivity.
    + vm_compute. reflexivity.
Defined.

Lemma add_member_idem uid u :
  Group.add_member uid (Group.add_member uid u) = Group.add_member uid u.
Proof. unfold Group.add_member. simpl. now rewrite insert_insert_eq. Qed.

Lemma GroupAdd_loop_lookup uid gid : forall g k,
  Group.GroupAdd_loop uid gid g !! k =
    if bool_decide (k ∈ gid /\ k <> uid)
    then Group.add_member uid <$> g !! k else g !! k.
Proof.
  induction gid as [|x gid IH]; intros g k; cbn [Group.GroupAdd_loop].
  - rewrite bool_decide_eq_false_2; [done|]. intros [H _]. inversion H.
  - case_bool_decide as Hx.
    + subst x. rewrite IH. repeat case_bool_decide; try done.
      * exfalso. destruct H as [H1 H2]. apply H0. split; [now right|done].
      * exfalso. destruct H0 as [H1 H2]. apply H. split; [|done].
        apply elem_of_cons in H1 as [->|H1]; done.
    + rewrite IH. destruct (decide (k = x)) as [->|Hk].
      * rewrite lookup_alter_eq.
        rewrite (bool_decide_eq_true_2 (x ∈ x :: gid /\ x <> uid))
          by (split; [now left|done]).
        case_bool_decide; [|done].
        destruct (g !! x); simpl; [|done]. now rewrite add_member_idem.
      * rewrite lookup_alter_ne by done.
        repeat case_bool_decide; try done.
        -- exfalso. destruct H as [H1 H2]. apply H0. split; [now right|done].
        -- exfalso. destruct H0 as [H1 H2]. apply H. split; [|done].
           apply elem_of_cons in H1 as [->|H1]; done.
Qed.

Lemma GroupAdd_check_None gid g :
  Group.GroupAdd_check gid g = None <-> Forall (fun k => is_Some (g !! k)) gid.
Proof.
  induction gid as [|x gid IH]; simpl; [split; [constructor|done]|].
  destruct (g !! x) eqn:E.
  - rewrite IH. split; [intros H; constructor; [by rewrite E|done]|].
    intros H. now inversion H.
  - split; [done|]. intros H. inversion H as [|? ? Hx _]; subst.
    rewrite E in Hx. now destruct Hx.
Qed.

(** X8. [UserAdd] adds a user that leads its own group and has no
    members, and touches no other entry; it fails, changing nothing,
    exactly when the name is taken. *)
Theorem UserAdd_spec (uid : string) (g : gmap string Group.user) :
  (fst (Group.UserAdd uid g) = Ok tt <-> g !! uid = None) /\
  (g !! uid = None ->
     snd (Group.UserAdd uid g) !! uid = Some (Group.mkUser uid uid ∅) /\
     forall k, k <> uid -> snd (Group.UserAdd uid g) !! k = g !! k) /\
  (is_Some (g !! uid) ->
     Group.UserAdd uid g = (Err (perror ("user " +:+ uid +:+ " exists")), g)).
Proof.
  unfold Group.UserAdd. destruct (g !! uid) eqn:E; simpl.
  - split; [split; discriminate|]. split; [discriminate|done].
  - split; [done|]. split; [|intros [? ?]; discriminate].
    intros _. split; [apply lookup_insert_eq|].
    intros k Hk. now apply lookup_insert_ne.
Qed.

Lemma UserAdd_spec_witness :
  snd (Group.UserAdd "glenda" (Group.newGroup "bootes")) !! "glenda" =
    Some (Group.mkUser "glenda" "glenda" ∅) /\
  Group.UserAdd "adm" (Group.newGroup "bootes") =
    (Err (perror "user adm exists"), Group.newGroup "bootes").
Proof.
  destruct (UserAdd_spec "glenda" (Group.newGroup "bootes")) as (_ & H & _).
  destruct (UserAdd_spec "adm" (Group.newGroup "bootes")) as (_ & _ & H').
  split; [apply H; vm_compute; reflexivity|].
  apply H'. vm_compute. eexists. reflexivity.
Defined.

Lemma GroupAdd_error_state uid gid g :
  fst (Group.GroupAdd uid gid g) <> Ok tt -> snd (Group.GroupAdd uid gid g) = g.
Proof.
  unfold Group.GroupAdd. destruct (g !! uid); [|done].
  now destruct (Group.GroupAdd_check gid g).
Qed.

(** X9. [GroupAdd] succeeds exactly when the user and every group
    named exist.  It then makes the user a member of every group named
    other than the user's own and leaves every other entry as it was; a
    failing call changes nothing. *)
Theorem GroupAdd_spec (uid : string) (gid : list string)
    (g : gmap string Group.user) :
  (fst (Group.GroupAdd uid gid g) = Ok tt <->
     is_Some (g !! uid) /\ Forall (fun k => is_Some (g !! k)) gid) /\
  (fst (Group.GroupAdd uid gid g) = Ok tt ->
     forall k, snd (Group.GroupAdd uid gid g) !! k =
       if bool_decide (k ∈ gid /\ k <> uid)
       then Group.add_member uid <$> g !! k else g !! k) /\
  (fst (Group.GroupAdd uid gid g) <> Ok tt ->
     snd (Group.GroupAdd uid gid g) = g).
Proof.
  unfold Group.GroupAdd. destruct (g !! uid) eqn:E.
  - destruct (Group.GroupAdd_check gid g) eqn:C; simpl.
    + split; [|split; [discriminate|done]]. split; [discriminate|].
      intros [_ H]. apply GroupAdd_check_None in H. congruence.
    + split; [|split; [|done]].
      * split; [|done]. intros _. split; [done|]. now apply GroupAdd_check_None.
      * intros _ k. apply GroupAdd_loop_lookup.
  - simpl. split; [|split; [discriminate|done]].
    split; [discriminate|]. intros [[? ?] _]. discriminate.
Qed.

Lemma GroupAdd_spec_witness :
  snd (Group.GroupAdd "bootes" ["none"] (Group.newGroup "bootes")) !! "none" =
    Some (Group.mkUser "none" "none" {["bootes" := true]}).
Proof.
  destruct (GroupAdd_spec "bootes" ["none"] (Group.newGroup "bootes")) as (_ & H & _).
  rewrite H by (vm_compute; reflexivity).
  rewrite bool_decide_eq_true_2 by (split; [by left|discriminate]).
  vm_compute. reflexivity.
Defined.

(** X10. A write to the group file is all or nothing: when it answers
    with an error the database is as before the call, and when it
    succeeds it reports every byte of the line as written. *)
Theorem group_WriteAt_all_or_nothing (p : list byte) (offset : Z)
    (g : gmap string Group.user) :
  match Group.WriteAt p offset g with
  | (Ok n, _) => n = len p
  | (_, g') => g' = g
  end.
Proof.
  unfold Group.WriteAt.
  destruct (Group.unmarshal_command p) as [cmd|e|m| |]; try reflexivity.
  destruct (negb _); [reflexivity|].
  destruct (Group.Args cmd) as [|a0 [|a1 [|? ?]]]; try reflexivity.
  assert (HU : forall u, fst (Group.UserAdd u g) <> Ok tt -> snd (Group.UserAdd u g) = g).
  { intros u. unfold Group.UserAdd. now destruct (g !! u). }
  assert (HG : forall u l, fst (Group.GroupAdd u l g) <> Ok tt ->
                 snd (Group.GroupAdd u l g) = g).
  { intros u l. apply GroupAdd_error_state. }
  assert (H : forall r : outcome unit * gmap string Group.user,
             (fst r <> Ok tt -> snd r = g) ->
             match (match r with
                    | (Ok _, g') => (Ok (len p), g')
                    | (Err e, g') => (Err e, g')
                    | (Panic msg, g') => (Panic msg, g')
                    | (Deadlock, g') => (Deadlock, g')
                    | (Fuel, g') => (Fuel, g')
                    end) with
             | (Ok n, _) => n = len p
             | (_, g') => g' = g
             end).
  { intros [[[]|e|m| |] g'] Hr; simpl in *; try reflexivity; now apply Hr. }
  apply H. destruct a1 as [|first rest].
  - case_bool_decide; [apply HU|done].
  - destruct (_ && _); [apply HG|].
    case_bool_decide; [apply HU|].
    destruct (_ && _); [apply HU|done].
Qed.

(** X11. The commands of the group file: the line [uname u u] adds
    the user [u], and the line [uname u +g] makes [u] a member of [g];
    the write succeeds exactly when that call does. *)
Theorem group_WriteAt_commands (u x : list byte) (offset : Z)
    (g : gmap string Group.user) :
  token_ok u -> token_ok x -> len x < 64 -> head u <> Some "+"%byte ->
  let su := string_of_list_byte u in
  let sx := string_of_list_byte x in
  let add := join_tokens [bytes_of "uname"; u; u] in
  let join := join_tokens [bytes_of "uname"; u; "+"%byte :: x] in
  snd (Group.WriteAt add offset g) = snd (Group.UserAdd su g) /\
  (fst (Group.WriteAt add offset g) = Ok (len add) <->
     fst (Group.UserAdd su g) = Ok tt) /\
  snd (Group.WriteAt join offset g) = snd (Group.GroupAdd su [sx] g) /\
  (fst (Group.WriteAt join offset g) = Ok (len join) <->
     fst (Group.GroupAdd su [sx] g) = Ok tt).
Proof.
  intros Hu Hx Hlen Hhd su sx add join.
  assert (Huname : token_ok (bytes_of "uname")).
  { split; [discriminate|]. split; [vm_compute; discriminate|repeat constructor]. }
  assert (Hplus : token_ok ("+"%byte :: x)).
  { destruct Hx as (_ & _ & Hb). split; [discriminate|].
    split; [len_simpl; lia|]. now constructor. }
  assert (Ea : Group.unmarshal_command add = Ok (Group.mkCommand "uname" [su; su])).
  { apply (unmarshal_tokens [] (bytes_of "uname") [u; u]);
      [constructor|repeat (constructor; [assumption|]); constructor|vm_compute; discriminate]. }
  assert (Ej : Group.unmarshal_command join
               = Ok (Group.mkCommand "uname" [su; String "+" sx])).
  { apply (unmarshal_tokens [] (bytes_of "uname") [u; "+"%byte :: x]);
      [constructor|repeat (constructor; [assumption|]); constructor|vm_compute; discriminate]. }
  assert (Hsx : (1 <? Z.of_nat (String.length (String "+" sx))) = true).
  { destruct Hx as (Hne & _). destruct x as [|c x]; [done|].
    apply Z.ltb_lt. subst sx. simpl. lia. }
  unfold Group.WriteAt. rewrite Ea, Ej. cbn [Group.cName Group.Args].
  rewrite (bool_decide_eq_true_2 ("uname" = "uname")) by done. cbn [negb].
  rewrite Hsx. rewrite (bool_decide_eq_true_2 (_ = _ :> ascii)) by done.
  cbn [andb].
  assert (H : forall r : outcome unit * gmap string Group.user, forall n,
            let r' : outcome Z * gmap string Group.user := match r with
                      | (Ok _, g') => (Ok n, g')
                      | (Err e, g') => (Err e, g')
                      | (Panic msg, g') => (Panic msg, g')
                      | (Deadlock, g') => (Deadlock, g')
                      | (Fuel, g') => (Fuel, g')
                      end in
            snd r' = snd r /\ (fst r' = Ok n <-> fst r = Ok tt)).
  { intros [[[]|e|m| |] g'] n; simpl; split; try done; split; discriminate. }
  assert (Ha : forall n,
    let r' : outcome Z * gmap string Group.user := match
        match su with
        | "" => if bool_decide (su = su) then Group.UserAdd su g
                else (Err (perror "invalid command"), g)
        | String first rest =>
            if (1 <? Z.of_nat (String.length su)) && bool_decide (first = "+"%char)
            then Group.GroupAdd su [rest] g
            else if bool_decide (su = su) then Group.UserAdd su g
            else if (1 <? Z.of_nat (String.length su)) && bool_decide (first = ":"%char)
            then Group.UserAdd su g
            else (Err (perror "invalid command"), g)
        end with
      | (Ok _, g') => (Ok n, g')
      | (Err e, g') => (Err e, g')
      | (Panic msg, g') => (Panic msg, g')
      | (Deadlock, g') => (Deadlock, g')
      | (Fuel, g') => (Fuel, g')
      end in
    snd r' = snd (Group.UserAdd su g) /\
    (fst r' = Ok n <-> fst (Group.UserAdd su g) = Ok tt)).
  { intros n. rewrite (bool_decide_eq_true_2 (su = su)) by done.
    destruct su as [|c su'] eqn:Esu; [apply H|].
    rewrite (bool_decide_eq_false_2 (c = "+"%char)), andb_false_r; [apply H|].
    intros ->. apply Hhd. subst su. destruct u as [|b u]; [done|].
    simpl in Esu. injection Esu as Eb _. simpl. f_equal.
    apply (f_equal byte_of_ascii) in Eb. now rewrite byte_of_ascii_of_byte in Eb. }
  split; [apply Ha|]. split; [apply Ha|]. split; apply H.
Qed.

Lemma group_WriteAt_commands_witness :
  snd (Group.WriteAt (bytes_of "uname glenda glenda") 0 (Group.newGroup "bootes"))
    = snd (Group.UserAdd "glenda" (Group.newGroup "bootes")) /\
  snd (Group.WriteAt (bytes_of "uname bootes +none") 0 (Group.newGroup "bootes"))
    = snd (Group.GroupAdd "bootes" ["none"] (Group.newGroup "bootes")).
Proof.
  split.
  - apply (group_WriteAt_commands (bytes_of "glenda") (bytes_of "none") 0
             (Group.newGroup "bootes")).
    + split; [discriminate|]. split; [vm_compute; discriminate|repeat constructor].
    + split; [discriminate|]. split; [vm_compute; discriminate|repeat constructor].
    + vm_compute. reflexivity.
    + discriminate.
  - apply (group_WriteAt_commands (bytes_of "bootes") (bytes_of "none") 0
             (Group.newGroup "bootes")).
    + split; [discriminate|]. split; [vm_compute; discriminate|repeat constructor].
    + split; [discriminate|]. split; [vm_compute; discriminate|repeat constructor].
    + vm_compute. reflexivity.
    + discriminate.
Defined.

(** ** The path allocator: properties *)

Lemma listed_sound : order_sound listed.
Proof.
  intros K E C V m k v Hin. apply elem_of_map_to_list.
  now apply list_elem_of_In.
Qed.

Lemma New_paths_ok hostowner now : paths_ok (New hostowner now).
Proof.
  unfold New. destruct (negb _); (split; [simpl; lia|]);
    intros p [x Hx]; simpl in Hx; now rewrite lookup_empty in Hx.
Qed.

(** X12. [newPath] never hands out an id that is in use: the id it gives
    was free before the call and is in use after it, no other id changes
    its state, and the allocator stays sound.  It fails only when no
    freed id is visited and the counter has reached its last value. *)
Theorem newPath_fresh
    (order : forall (K : Type) (E : EqDecision K) (C : Countable K) (V : Type),
       gmap K V -> list (K * V)) (s : FS) :
  order_sound order -> paths_ok s ->
  match newPath order s with
  | (Ok p, s') =>
    ~ allocated s p /\ allocated s' p /\
    (forall q, q <> p -> (allocated s' q <-> allocated s q)) /\
    paths_ok s' /\ nodes s' = nodes s
  | (Err e, s') => e = perror "out of paths" /\ s' = s /\ path s = maxPath
  | _ => False
  end.
Proof.
  intros Hord [Hrange Hfree]. unfold newPath, range.
  destruct (order Z _ _ bool (pathmap s)) as [|[p b] rest] eqn:E.
  - destruct (Z.eqb_spec (path s) maxPath) as [Hmax|Hmax]; [done|].
    unfold maxPath in Hmax.
    assert (Hnone : pathmap s !! path s = None).
    { destruct (pathmap s !! path s) eqn:El; [|done].
      assert (is_Some (pathmap s !! path s)) as Hs by (rewrite El; eauto).
      apply Hfree in Hs. lia. }
    unfold allocated, paths_ok, set_path; simpl.
    rewrite u64_small by lia.
    split; [lia|]. split; [split; [lia|done]|]. split; [|split; [|done]].
    + intros q Hq. split; intros [H1 H2]; (split; [lia|done]).
    + split; [lia|]. intros q Hs. apply Hfree in Hs. lia.
  - assert (Hp : pathmap s !! p = Some b).
    { apply Hord. rewrite E. now left. }
    assert (Hlt : 0 <= p < path s) by (apply Hfree; rewrite Hp; eauto).
    unfold allocated, paths_ok, set_pathmap; simpl.
    split; [intros [_ H]; congruence|].
    split; [split; [done|apply lookup_delete_eq]|]. split; [|split; [|done]].
    + intros q Hq. now rewrite lookup_delete_ne.
    + split; [done|]. intros q [x Hq]. apply lookup_delete_Some in Hq as [_ Hq].
      apply Hfree. rewrite Hq. eauto.
Qed.

Lemma newPath_fresh_witness :
  allocated (snd (newPath listed (New "bootes" 0))) 5 /\
  ~ allocated (New "bootes" 0) 5.
Proof.
  pose proof (newPath_fresh listed (New "bootes" 0)) as H.
  specialize (H listed_sound (New_paths_ok "bootes" 0)).
  change (newPath listed (New "bootes" 0))
    with (Ok 5, set_path 6 (New "bootes" 0)) in H |- *.
  destruct H as (H1 & H2 & _). split; assumption.
Defined.

(** X13. [delPath] frees an id in use and no other, and the allocator
    stays sound. *)
Theorem delPath_frees (p : Z) (s : FS) :
  paths_ok s -> allocated s p ->
  fst (delPath p s) = Ok tt /\
  ~ allocated (snd (delPath p s)) p /\
  (forall q, q <> p -> (allocated (snd (delPath p s)) q <-> allocated s q)) /\
  paths_ok (snd (delPath p s)) /\
  nodes (snd (delPath p s)) = nodes s.
Proof.
  intros [Hrange Hfree] [Hp Hnone]. unfold delPath, allocated, paths_ok. simpl.
  split; [done|]. split; [|split; [|split; [|done]]].
  - rewrite lookup_insert_eq. intros [_ H]. discriminate.
  - intros q Hq. now rewrite lookup_insert_ne.
  - split; [done|]. intros q. destruct (decide (q = p)) as [->|Hq]; [done|].
    rewrite lookup_insert_ne by done. apply Hfree.
Qed.

Lemma delPath_frees_witness :
  ~ allocated (snd (delPath 3 (New "bootes" 0))) 3 /\
  paths_ok (snd (delPath 3 (New "bootes" 0))).
Proof.
  pose proof (New_paths_ok "bootes" 0) as Hp.
  assert (Ha : allocated (New "bootes" 0) 3).
  { split; [vm_compute; split; [discriminate|reflexivity]|reflexivity]. }
  destruct (delPath_frees 3 (New "bootes" 0) Hp Ha) as (_ & H1 & _ & H2 & _).
  split; assumption.
Defined.

(** ** Permissions: the general rule *)

Lemma land_lor_mono a b p : Z.land a p = p -> Z.land (Z.lor a b) p = p.
Proof.
  intros H. rewrite Z.land_lor_distr_l, H. apply Z.bits_inj'. intros k _.
  rewrite Z.lor_spec, Z.land_spec.
  destruct (Z.testbit p k), (Z.testbit b k); reflexivity.
Qed.

(** X14. The rule of [HasPerm] for a user of the group database, on a
    node whose group is in the database: the low three bits asked for
    must be among the other-bits of the mode, joined with the owner-bits
    when the user owns the node and with the group-bits when the user is
    a member of the node's group.  A user that is not in the database is
    refused, but for [none] asking no more than the other-bits. *)
Theorem HasPerm_rule (fs : FS) (l : loc) (n : node) (uname : string) (perm : Z) :
  nodes fs !! l = Some n ->
  let mode := Mode (dir n) in
  (forall u g, group fs !! uname = Some u -> group fs !! Gid (dir n) = Some g ->
     let bits :=
       Z.lor (Z.land mode 7)
         (Z.lor (if bool_decide (Uid (dir n) = uname)
                 then Z.land (Z.shiftr mode 6) 7 else 0)
                (if bool_decide (is_Some (Group.Member g !! uname))
                 then Z.land (Z.shiftr mode 3) 7 else 0)) in
     HasPerm l uname perm fs =
       (Ok (Z.land bits (Z.land perm 7) =? Z.land perm 7), fs)) /\
  (group fs !! uname = None ->
     HasPerm l uname perm fs =
       (Ok (bool_decide (uname = "none")
            && (Z.land (Z.land mode 7) (Z.land perm 7) =? Z.land perm 7)), fs)).
Proof.
  intros Hl mode. unfold HasPerm, bind, get_node, ret. rewrite Hl. cbv zeta.
  fold mode. set (p := Z.land perm 7). set (other := Z.land mode 7). split.
  - intros u g Hu Hg.
    destruct (bool_decide (uname = "none") && (Z.land other p =? p)) eqn:E.
    { apply andb_true_iff in E as [_ E]. apply Z.eqb_eq in E.
      rewrite (land_lor_mono _ _ _ E), Z.eqb_refl. reflexivity. }
    unfold Group.Get. rewrite Hu, Hg.
    set (o := if bool_decide (Uid (dir n) = uname) then _ else 0).
    set (m := if bool_decide (is_Some (Group.Member g !! uname)) then _ else 0).
    assert (E1 : (if bool_decide (Uid (dir n) = uname)
                  then Z.lor other (Z.land (Z.shiftr mode 6) 7) else other)
                 = Z.lor other o).
    { subst o. destruct (bool_decide (Uid (dir n) = uname)); [done|now rewrite Z.lor_0_r]. }
    rewrite E1.
    assert (E2 : (if bool_decide (is_Some (Group.Member g !! uname))
                  then Z.lor (Z.lor other o) (Z.land (Z.shiftr mode 3) 7)
                  else Z.lor other o)
                 = Z.lor other (Z.lor o m)).
    { subst m. destruct (bool_decide (is_Some (Group.Member g !! uname)));
        [now rewrite Z.lor_assoc|now rewrite Z.lor_0_r]. }
    rewrite E2.
    destruct (Z.eqb_spec (Z.land (Z.lor other o) p) p) as [E3|E3]; [|reflexivity].
    rewrite Z.lor_assoc, (land_lor_mono _ _ _ E3), Z.eqb_refl. reflexivity.
  - intros Hu.
    destruct (bool_decide (uname = "none") && (Z.land other p =? p)); [reflexivity|].
    unfold Group.Get. now rewrite Hu.
Qed.

Lemma HasPerm_rule_witness :
  HasPerm 1%nat "bootes" DMWRITE (New "bootes" 0) = (Ok true, New "bootes" 0) /\
  HasPerm 1%nat "glenda" DMREAD (New "bootes" 0) = (Ok false, New "bootes" 0).
Proof.
  split.
  - edestruct (HasPerm_rule (New "bootes" 0) 1%nat) as [H _];
      [vm_compute; reflexivity|].
    erewrite H; [|vm_compute; reflexivity|vm_compute; reflexivity].
    vm_compute. reflexivity.
  - edestruct (HasPerm_rule (New "bootes" 0) 1%nat) as [_ H];
      [vm_compute; reflexivity|].
    erewrite H; [|vm_compute; reflexivity].
    vm_compute. reflexivity.
Defined.

(** ** The tree of nodes *)

Lemma tree_ok_frame s s' : nodes s' = nodes s -> tree_ok s -> tree_ok s'.
Proof. intros E H d dn name c. rewrite !E. apply H. Qed.

(** Writing a node that keeps its parent and its name and gets no new
    entry. *)
Lemma tree_ok_upd s l n n' :
  tree_ok s -> nodes s !! l = Some n ->
  parent n' = parent n -> Name (dir n') = Name (dir n) ->
  (forall name c, default ∅ (children n') !! name = Some c ->
                  default ∅ (children n) !! name = Some c) ->
  tree_ok (upd l n' s).
Proof.
  intros Ht Hl Hp Hn Hc d dn name c Hd Hdc. cbn in Hd |- *.
  assert (Hold : exists d0, nodes s !! d = Some d0 /\
                   default ∅ (children d0) !! name = Some c).
  { destruct (decide (d = l)) as [->|Hne].
    - rewrite lookup_insert_eq in Hd. injection Hd as <-. eauto.
    - rewrite lookup_insert_ne in Hd by done. eauto. }
  destruct Hold as (d0 & Hd0 & Hc0).
  destruct (Ht d d0 name c Hd0 Hc0) as (cn & Hcn & Hpc & Hnc).
  destruct (decide (c = l)) as [->|Hne].
  - rewrite lookup_insert_eq. exists n'. rewrite Hl in Hcn. injection Hcn as <-.
    split; [done|]. split; congruence.
  - rewrite lookup_insert_ne by done. eauto.
Qed.

Lemma tree_ok_upd_shape s l n n' :
  tree_ok s -> nodes s !! l = Some n -> shape n' = shape n -> tree_ok (upd l n' s).
Proof.
  intros Ht Hl [= Hp Hn Hc]. apply (tree_ok_upd s l n n'); try done.
  intros name c. now rewrite Hc.
Qed.

(** Entering a new node in a directory. *)
Lemma tree_ok_create s l n ch name c cn :
  tree_ok s -> nodes s !! l = Some n -> children n = Some ch ->
  nodes s !! c = None ->
  parent cn = Some l -> Name (dir cn) = name -> default ∅ (children cn) = ∅ ->
  tree_ok (upd l (set_children (Some (<[name := c]> ch)) n) (upd c cn s)).
Proof.
  intros Ht Hl Hch Hc Hp Hn He d dn name' c' Hd Hdc. cbn in Hd |- *.
  assert (Hcl : c <> l) by (intros ->; congruence).
  destruct (decide (d = l)) as [->|Hdl].
  - rewrite lookup_insert_eq in Hd. injection Hd as <-.
    cbn in Hdc. destruct (decide (name' = name)) as [->|Hnn].
    + rewrite lookup_insert_eq in Hdc. injection Hdc as <-.
      rewrite lookup_insert_ne, lookup_insert_eq by done. eauto.
    + rewrite lookup_insert_ne in Hdc by done.
      destruct (Ht l n name' c') as (cn' & Hcn' & Hp' & Hn');
        [done|now rewrite Hch|].
      destruct (decide (c' = l)) as [->|Hc'l].
      * rewrite lookup_insert_eq. eexists. split; [done|].
        rewrite Hl in Hcn'. injection Hcn' as <-. done.
      * rewrite lookup_insert_ne by done.
        rewrite lookup_insert_ne by (intros ->; congruence). eauto.
  - rewrite lookup_insert_ne in Hd by done.
    destruct (decide (d = c)) as [->|Hdc'].
    + rewrite lookup_insert_eq in Hd. injection Hd as <-.
      rewrite He, lookup_empty in Hdc. discriminate.
    + rewrite lookup_insert_ne in Hd by done.
      destruct (Ht d dn name' c' Hd Hdc) as (cn' & Hcn' & Hp' & Hn').
      destruct (decide (c' = l)) as [->|Hc'l].
      * rewrite lookup_insert_eq. eexists. split; [done|].
        rewrite Hl in Hcn'. injection Hcn' as <-. done.
      * rewrite lookup_insert_ne by done.
        rewrite lookup_insert_ne by (intros ->; congruence). eauto.
Qed.

Lemma newNode_no_children p name uid gid perm path now :
  default ∅ (children (set_parent p (newNode name uid gid perm path None now))) = ∅
  /\ forall b, has_bit perm DMDIR = false ->
       default ∅ (children (set_parent p (newNode name uid gid perm path b now))) = ∅.
Proof.
  unfold newNode. split; [now destruct (has_bit perm DMDIR)|].
  intros b ->. reflexivity.
Qed.

Lemma New_tree_ok hostowner now : tree_ok (New hostowner now).
Proof.
  unfold tree_ok, New.
  set (owner := if bool_decide (hostowner = "") then "adm" else hostowner).
  destruct (negb (bool_decide (owner = "adm"))); cbn [nodes];
    intros d dn name c Hd Hc;
    repeat (rewrite lookup_insert in Hd; case_decide;
            [subst d; injection Hd as <-|]);
    try (rewrite lookup_singleton in Hd; case_decide;
         [subst d; injection Hd as <-|discriminate]);
    try (rewrite (proj1 (newNode_no_children _ _ _ _ _ _ _)), lookup_empty in Hc;
         discriminate);
    try (rewrite (proj2 (newNode_no_children _ _ _ _ _ _ _)), lookup_empty in Hc
           by reflexivity; discriminate);
    cbn [children set_children set_parent from_option id] in Hc;
    repeat (rewrite lookup_insert in Hc; case_decide;
            [subst name; injection Hc as <-|]);
    try (rewrite lookup_singleton in Hc; case_decide;
         [subst name; injection Hc as <-|discriminate]);
    try (rewrite lookup_empty in Hc; discriminate);
    (eexists; split; [reflexivity|split; reflexivity]).
Qed.

(** ** Paths: properties *)

Lemma append_snoc cur a n : (cur +:+ String a "") +:+ n = cur +:+ String a n.
Proof.
  induction cur as [|c cur IH]; [reflexivity|].
  change (String c ((cur +:+ String a "") +:+ n) = String c (cur +:+ String a n)).
  now rewrite IH.
Qed.

Lemma append_empty_r s : s +:+ "" = s.
Proof.
  induction s as [|c s IH]; [reflexivity|].
  change (String c (s +:+ "") = String c s). now rewrite IH.
Qed.

(** Splitting runs over a name that has no separator. *)
Lemma strings_Split_name sep n : forall cur rest,
  ~ In sep (list_ascii_of_string n) ->
  strings_Split (n +:+ rest) sep cur = strings_Split rest sep (cur +:+ n).
Proof.
  induction n as [|a n IH]; intros cur rest Hn; simpl.
  - now rewrite append_empty_r.
  - simpl in Hn. rewrite bool_decide_eq_false_2 by (intros ->; apply Hn; now left).
    rewrite IH by (intros H; apply Hn; now right). now rewrite append_snoc.
Qed.

Lemma strings_Split_concat sep names : forall cur,
  names <> [] ->
  Forall (fun n => ~ In sep (list_ascii_of_string n)) names ->
  strings_Split (String.concat (String sep "") names) sep cur =
    (cur +:+ hd "" names) :: tl names.
Proof.
  induction names as [|n names IH]; intros cur Hne Hok; [done|].
  inversion Hok as [|? ? Hn Hok']; subst.
  destruct names as [|n' names].
  - simpl. rewrite <- (append_empty_r n) at 1.
    rewrite strings_Split_name by done. reflexivity.
  - change (String.concat (String sep "") (n :: n' :: names))
      with (n +:+ String sep "" +:+ String.concat (String sep "") (n' :: names)).
    rewrite strings_Split_name by done. simpl.
    rewrite bool_decide_eq_true_2 by done.
    rewrite IH by done. reflexivity.
Qed.

(** X15. [split] gives back the names of a path: the names of an
    absolute path written with one slash before each name, none of them
    holding a slash, but for the path of one empty name, which is the
    root. *)
Theorem split_names (names : list string) :
  Forall (fun n => ~ In "/"%char (list_ascii_of_string n)) names ->
  names <> [""] ->
  split (String "/" (String.concat "/" names)) = names.
Proof.
  intros Hok Hne. unfold split.
  destruct names as [|n names]; [reflexivity|].
  assert (Hc : String.concat "/" (n :: names) <> "").
  { destruct names as [|n' names]; simpl.
    - intros ->. now apply Hne.
    - intros H. destruct n; discriminate. }
  rewrite (bool_decide_eq_false_2 (String "/" _ = "")) by discriminate.
  rewrite (bool_decide_eq_false_2 (String "/" _ = "/")) by (intros [= H]; now apply Hc).
  rewrite (bool_decide_eq_false_2 (String "/" _ = ".")) by discriminate.
  cbn [orb]. rewrite strings_Split_concat by done. reflexivity.
Qed.

Lemma split_names_witness :
  split "/adm/group" = ["adm"; "group"].
Proof.
  apply (split_names ["adm"; "group"]).
  - constructor; [|constructor; [|constructor]]; simpl; intros H;
      repeat destruct H as [H|H]; try discriminate; done.
  - discriminate.
Defined.

(** One step of [walk], with a callback that only looks. *)
Lemma walk_unfold {C} (fn : loc -> list string -> C -> M C)
    (root0 : loc) (name : string) (path : list string) (c : C) (s : FS) :
  walk root0 (name :: path) fn c s =
    match nodes s !! root0 with
    | None => (Panic nilDeref, s)
    | Some r =>
      if negb (bool_decide (name = ".."))
         && negb (bool_decide (is_Some (default ∅ (children r) !! name)))
      then (Err (perror "file does not exist"), s)
      else
        match step_target r name with
        | None => (Panic nilDeref, s)
        | Some t =>
          match nodes s !! t with
          | None => (Panic nilDeref, s)
          | Some nd =>
            if step_denied nd then (Err errPerm, s)
            else (c <- fn t path c ;; walk t path fn c) s
          end
        end
    end.
Proof.
  cbn [walk]. unfold bind at 1, get_node at 1.
  destruct (nodes s !! root0) as [r|] eqn:Hr; [|reflexivity].
  unfold step_target. unfold bind at 1.
  destruct (bool_decide (name = "..")) eqn:Hn; cbn [negb andb].
  - unfold ret at 1. unfold bind at 1, deref.
    destruct (parent r) as [t|]; [|reflexivity].
    unfold bind at 1, get_node at 1.
    destruct (nodes s !! t) as [nd|] eqn:Ht; [|reflexivity].
    unfold ret at 1. unfold bind at 1, Stat, bind at 1, get_node at 1.
    cbn [fst snd]. rewrite Ht. unfold ret at 1. unfold step_denied.
    destruct (_ && _); reflexivity.
  - destruct (default ∅ (children r) !! name) as [t|] eqn:Hc.
    + rewrite bool_decide_eq_true_2 by eauto. cbn [negb].
      unfold ret at 1. unfold bind at 1, deref.
      unfold bind at 1, get_node at 1.
      destruct (nodes s !! t) as [nd|] eqn:Ht; [|reflexivity].
      unfold ret at 1. unfold bind at 1, Stat, bind at 1, get_node at 1.
      cbn [fst snd]. rewrite Ht. unfold ret at 1. unfold step_denied.
      destruct (_ && _); reflexivity.
    + rewrite bool_decide_eq_false_2 by (intros [? ?]; discriminate).
      reflexivity.
Qed.

Lemma walk_base path : forall root0 c s,
  path <> [] ->
  walk root0 path keep_last c s =
  (match resolve s root0 path with
   | Ok l => Ok (Some l)
   | Err e => Err e
   | Panic m => Panic m
   | Deadlock => Deadlock
   | Fuel => Fuel
   end, s).
Proof.
  induction path as [|name path IH]; intros root0 c s Hne; [done|].
  rewrite walk_unfold. cbn [resolve].
  destruct (nodes s !! root0) as [r|]; [|reflexivity].
  destruct (_ && _); [reflexivity|].
  destruct (step_target r name) as [t|]; [|reflexivity].
  destruct (nodes s !! t) as [nd|]; [|reflexivity].
  destruct (step_denied nd); [reflexivity|].
  unfold bind, keep_last, ret. destruct path as [|name' path]; [reflexivity|].
  now apply IH.
Qed.

(** X16. [FS.walk] changes nothing and answers with the node that the
    names of the path lead to from the root, one step after the other,
    or with the error of the first step that fails. *)
Theorem FS_walk_resolve (name : string) (s : FS) :
  FS_walk name s =
    (match resolve s (root s) (split name) with
     | Ok l => Ok (Some l)
     | Err e => Err e
     | Panic m => Panic m
     | Deadlock => Deadlock
     | Fuel => Fuel
     end, s).
Proof.
  unfold FS_walk. destruct (split name) as [|n path] eqn:E; [reflexivity|].
  now apply (walk_base (n :: path)).
Qed.

Lemma resolve_app (s : FS) (p1 p2 : list string) : forall l,
  resolve s l (p1 ++ p2) =
    match resolve s l p1 with
    | Ok l1 => resolve s l1 p2
    | r => r
    end.
Proof.
  induction p1 as [|name p1 IH]; intros l; [reflexivity|].
  cbn [app resolve]. destruct (nodes s !! l) as [r|]; [|reflexivity].
  destruct (_ && _); [reflexivity|].
  destruct (step_target r name) as [t|]; [|reflexivity].
  destruct (nodes s !! t) as [nd|]; [|reflexivity].
  destruct (step_denied nd); [reflexivity|]. apply IH.
Qed.

(** X17. A walk can be made in two legs: walking the names of two paths
    one after the other is walking the first path and then, from the
    node it leads to, the second; a first leg that fails is the failure
    of the whole walk. *)
Theorem walk_app (s : FS) (l : loc) (p1 p2 : list string) :
  p1 <> [] -> p2 <> [] ->
  walk l (p1 ++ p2) keep_last None s =
    match walk l p1 keep_last None s with
    | (Ok (Some l1), _) => walk l1 p2 keep_last None s
    | r => r
    end.
Proof.
  intros H1 H2. rewrite (walk_base (p1 ++ p2)) by (destruct p1; done).
  rewrite (walk_base p1) by done. rewrite resolve_app.
  destruct (resolve s l p1); try reflexivity.
  now rewrite (walk_base p2).
Qed.

Lemma walk_app_witness :
  walk 0%nat (["adm"] ++ ["group"]) keep_last None (New "bootes" 0) =
    walk 1%nat ["group"] keep_last None (New "bootes" 0).
Proof.
  rewrite (walk_app (New "bootes" 0) 0%nat ["adm"] ["group"]) by discriminate.
  reflexivity.
Defined.

(** X18. In a sound tree whose entries are untyped, a step into a child
    and the step [..] from there lead back to the directory. *)
Theorem walk_child_back (s : FS) (l c : loc) (name : string) :
  tree_ok s -> entries_untyped s ->
  child s l name = Some c -> name <> ".." ->
  walk l [name] keep_last None s = (Ok (Some c), s) /\
  walk c [".."] keep_last None s = (Ok (Some l), s) /\
  walk l [name; ".."] keep_last None s = (Ok (Some l), s).
Proof.
  intros Ht Hu Hc Hn. unfold child in Hc.
  destruct (nodes s !! l) as [r|] eqn:Hl; [|done].
  destruct (Ht l r name c Hl Hc) as (cn & Hcn & Hp & _).
  assert (H1 : resolve s l [name] = Ok c).
  { cbn [resolve]. rewrite Hl. unfold step_target.
    rewrite (bool_decide_eq_false_2 (name = "..")) by done.
    rewrite bool_decide_eq_true_2 by eauto. cbn [negb andb].
    rewrite Hc, Hcn. rewrite step_denied_Type_zero by eauto. reflexivity. }
  assert (H2 : resolve s c [".."] = Ok l).
  { cbn [resolve]. rewrite Hcn. unfold step_target.
    rewrite (bool_decide_eq_true_2 (".." = "..")) by done. cbn [negb andb].
    rewrite Hp, Hl. rewrite step_denied_Type_zero by eauto. reflexivity. }
  rewrite !walk_base by done. rewrite H1, H2.
  change [name; ".."] with ([name] ++ [".."]). now rewrite resolve_app, H1, H2.
Qed.

Lemma walk_child_back_witness :
  walk 0%nat ["adm"; ".."] keep_last None (New "bootes" 0) =
    (Ok (Some 0%nat), New "bootes" 0).
Proof.
  apply (walk_child_back (New "bootes" 0) 0%nat 1%nat "adm").
  - apply New_tree_ok.
  - apply New_untyped.
  - vm_compute. reflexivity.
  - discriminate.
Defined.

(** ** Nodes: creating, opening and removing *)

Section NodeFacts.

Variable order : forall (K : Type) (E : EqDecision K) (C : Countable K) (V : Type),
  gmap K V -> list (K * V).

Lemma newPath_nodes s : nodes (snd (newPath order s)) = nodes s.
Proof.
  unfold newPath. destruct (range order (pathmap s)) as [|[p b] ?]; [|reflexivity].
  destruct (_ =? _); reflexivity.
Qed.

(** X19. [Create] of a name that the directory does not have makes a
    node that was not there, enters it under the name and touches no
    other entry and no other node.  The node has the directory as its
    parent, the caller as its owner and the group of the directory; its
    permission bits are those of the directory, the other bits of the
    mode those asked for; it is empty, at version 0 and not open: the
    open mode is not looked at. *)
Theorem Create_new_child (l : loc) (uid name : string) (mode perm now : Z)
    (s : FS) (n : node) (ch : gmap string loc) (p : Z) :
  name <> "." -> name <> ".." ->
  nodes s !! l = Some n ->
  has_bit (Mode (dir n)) DMDIR = true ->
  has_bit (Mode (dir n)) DMEXCL && open n = false ->
  children n = Some ch -> ch !! name = None ->
  fst (newPath order s) = Ok p ->
  exists c s' cn,
    Create order l uid name mode perm now s = (Ok c, s') /\
    nodes s !! c = None /\
    child s' l name = Some c /\
    (forall name', name' <> name -> child s' l name' = child s l name') /\
    (forall l', l' <> l -> l' <> c -> nodes s' !! l' = nodes s !! l') /\
    nodes s' !! c = Some cn /\
    parent cn = Some l /\ Name (dir cn) = name /\
    Uid (dir cn) = uid /\ Gid (dir cn) = Gid (dir n) /\
    Mode (dir cn) =
      (if has_bit perm DMDIR
       then Z.lor (Z.ldiff perm o777) (Z.land (Mode (dir n)) o777)
       else Z.lor (Z.ldiff perm o666) (Z.land (Mode (dir n)) o666)) /\
    Path (qid (dir cn)) = p /\
    Length (dir cn) = 0 /\ Vers (qid (dir cn)) = 0 /\
    open cn = false /\ orclose cn = false /\
    children cn = (if has_bit (Mode (dir cn)) DMDIR then Some ∅ else None) /\
    file cn = (if has_bit (Mode (dir cn)) DMDIR then None
               else Some (BufFile (File.newFile BLOCKSIZE))).
Proof.
  intros Hdot Hdotdot Hl Hdir Hexcl Hch Hname Hp.
  unfold Create.
  rewrite (bool_decide_eq_false_2 (name = ".")), (bool_decide_eq_false_2 (name = ".."))
    by done.
  cbn [orb]. unfold bind at 1, get_node at 1. rewrite Hl.
  rewrite Hdir. cbn [negb]. rewrite Hexcl.
  unfold bind at 1. pose proof (newPath_nodes s) as Hn.
  destruct (newPath order s) as [r s1]. simpl in Hp, Hn. subst r.
  rewrite Hch. change (default ∅ (Some ch)) with ch. rewrite Hname.
  set (perm' := if has_bit perm DMDIR then _ else _).
  set (c := fresh (dom (nodes s1))).
  assert (Hc : nodes s !! c = None).
  { rewrite <- Hn. apply not_elem_of_dom, is_fresh. }
  assert (Hcl : c <> l) by (intros ->; congruence).
  unfold bind, set_node, ret. cbn [fst snd].
  eexists c, _, _. split; [reflexivity|].
  split; [exact Hc|]. unfold child. cbn [nodes set_nodes].
  rewrite lookup_insert_eq. cbn [children set_children].
  change (default ∅ (Some (<[name:=c]> ch))) with (<[name:=c]> ch).
  split; [apply lookup_insert_eq|].
  split.
  { intros name' Hne. rewrite Hl, Hch. change (default ∅ (Some ch)) with ch.
    now apply lookup_insert_ne. }
  split.
  { intros l' Hl1 Hl2. rewrite !lookup_insert_ne by done. now rewrite Hn. }
  rewrite lookup_insert_ne by done. rewrite lookup_insert_eq.
  split; [reflexivity|].
  unfold newNode. destruct (has_bit perm' DMDIR) eqn:Hd; cbn; rewrite ?Hd;
    repeat split; reflexivity.
Qed.

End NodeFacts.

Lemma Create_new_child_witness :
  exists c s' cn,
    Create listed 0%nat "glenda" "notes" OREAD o666 0 (New "bootes" 0) = (Ok c, s') /\
    nodes s' !! c = Some cn /\ Mode (dir cn) = o644 /\ Gid (dir cn) = "adm".
Proof.
  edestruct (Create_new_child listed 0%nat "glenda" "notes" OREAD o666 0
               (New "bootes" 0)) as (c & s' & cn & H).
  - discriminate.
  - discriminate.
  - vm_compute. reflexivity.
  - vm_compute. reflexivity.
  - vm_compute. reflexivity.
  - vm_compute. reflexivity.
  - vm_compute. reflexivity.
  - vm_compute. reflexivity.
  - destruct H as (H1 & _ & _ & _ & _ & H2 & _ & _ & _ & H3 & H4 & _).
    exists c, s', cn. split; [exact H1|]. split; [exact H2|].
    split; [rewrite H4|rewrite H3]; vm_compute; reflexivity.
Defined.

Section NodeFacts2.

Variable order : forall (K : Type) (E : EqDecision K) (C : Countable K) (V : Type),
  gmap K V -> list (K * V).

(** X20. [Create] of a name that the directory has makes no node: it
    opens the node that is there and answers with it.  The id taken from
    the allocator beforehand is not given back. *)
Theorem Create_existing (l f : loc) (uid name : string) (mode perm now : Z)
    (s : FS) (n : node) (p : Z) :
  name <> "." -> name <> ".." ->
  nodes s !! l = Some n ->
  has_bit (Mode (dir n)) DMDIR = true ->
  has_bit (Mode (dir n)) DMEXCL && open n = false ->
  default ∅ (children n) !! name = Some f ->
  fst (newPath order s) = Ok p ->
  let s1 := snd (newPath order s) in
  snd (Create order l uid name mode perm now s) = snd (Open f mode s1) /\
  (fst (Open f mode s1) = Ok tt ->
     fst (Create order l uid name mode perm now s) = Ok f) /\
  (forall e, fst (Open f mode s1) = Err e ->
     fst (Create order l uid name mode perm now s) = Err e) /\
  dom (nodes (snd (Create order l uid name mode perm now s))) = dom (nodes s) /\
  pathmap (snd (Create order l uid name mode perm now s)) = pathmap s1 /\
  path (snd (Create order l uid name mode perm now s)) = path s1.
Proof.
  intros Hdot Hdotdot Hl Hdir Hexcl Hname Hp s1.
  assert (E : Create order l uid name mode perm now s = (Open f mode ;;; ret f) s1).
  { unfold Create.
    rewrite (bool_decide_eq_false_2 (name = ".")),
      (bool_decide_eq_false_2 (name = "..")) by done.
    cbn [orb]. unfold bind at 1, get_node at 1. rewrite Hl.
    rewrite Hdir. cbn [negb]. rewrite Hexcl.
    unfold bind at 1. subst s1.
    destruct (newPath order s) as [r s1]. simpl in Hp |- *. subst r.
    now rewrite Hname. }
  rewrite E. clear E.
  assert (Hn : nodes s1 = nodes s) by apply newPath_nodes.
  assert (Hopen : dom (nodes (snd (Open f mode s1))) = dom (nodes s1) /\
                  pathmap (snd (Open f mode s1)) = pathmap s1 /\
                  path (snd (Open f mode s1)) = path s1).
  { unfold Open, bind, get_node, set_node, fail.
    destruct (nodes s1 !! f) as [fn|] eqn:Hf; [|done].
    destruct (has_bit (Mode (dir fn)) DMEXCL && open fn); [done|]. simpl.
    split; [|done]. apply dom_insert_lookup_L. rewrite Hf. eauto. }
  rewrite <- Hn. unfold bind, ret.
  destruct (Open f mode s1) as [[[]|e|m| |] s2]; cbn [fst snd] in *;
    (split; [reflexivity|]); (split; [intros; first [reflexivity|discriminate]|]);
    (split; [intros e0 He0; first [discriminate|congruence]|]); apply Hopen.
Qed.

Lemma remove_keeps_node l s : nodes (snd (remove l s)) !! l = nodes s !! l.
Proof.
  unfold remove, bind, get_node, set_node, delPath, fail, panic, deadlock.
  destruct (nodes s !! l) as [n|] eqn:Hl; [|done].
  destruct (_ && _); [done|].
  destruct (parent n) as [pl|]; [|done].
  case_bool_decide as Hpl; [done|].
  destruct (nodes s !! pl) as [pn|]; [|done].
  destruct (default ∅ (children pn) !! Name (dir n)); [|done].
  cbn. now rewrite lookup_insert_ne.
Qed.

(** X21. A file for exclusive use can be open once: opening it marks
    it, a second opening is refused and changes nothing, and after a
    close it can be opened again. *)
Theorem Open_exclusive (l : loc) (n : node) (mode mode' : Z) (s : FS) :
  nodes s !! l = Some n ->
  has_bit (Mode (dir n)) DMEXCL = true -> open n = false ->
  let s1 := snd (Open l mode s) in
  fst (Open l mode s) = Ok tt /\
  Open l mode' s1 = (Err (perror "exclusive use file already open"), s1) /\
  fst (Open l mode' (snd (Close l s1))) = Ok tt.
Proof.
  intros Hl Hexcl Hopen s1. subst s1.
  set (n1 := if has_bit mode ORCLOSE then set_orclose true (set_open true n)
             else set_open true n).
  assert (E1 : Open l mode s = (Ok tt, upd l n1 s)).
  { unfold Open, bind, get_node, set_node, fail. rewrite Hl, Hexcl, Hopen.
    reflexivity. }
  rewrite E1. cbn [fst snd].
  assert (Hn1 : Mode (dir n1) = Mode (dir n) /\ open n1 = true).
  { subst n1. destruct (has_bit mode ORCLOSE); done. }
  destruct Hn1 as [Hm1 Ho1].
  set (s1 := upd l n1 s).
  assert (Hs1 : nodes s1 !! l = Some n1) by apply lookup_insert_eq.
  split; [done|]. split.
  { unfold Open, bind, get_node, fail. rewrite Hs1, Hm1, Hexcl, Ho1. reflexivity. }
  assert (Hc : exists n2, nodes (snd (Close l s1)) !! l = Some n2 /\ open n2 = false).
  { unfold Close. unfold bind at 1, get_node at 1. rewrite Hs1.
    rewrite Hm1, Hexcl, Ho1. cbn [andb].
    unfold bind at 1, set_node at 1.
    set (s2 := set_nodes _ s1).
    assert (Hs2 : nodes s2 !! l = Some (set_open false n1)) by apply lookup_insert_eq.
    unfold bind at 1.
    destruct (negb (has_bit (Mode (dir n)) DMDIR)).
    - destruct (file n1); cbn [panic ret fst snd]; [|eauto].
      destruct (orclose n1); [rewrite remove_keeps_node|]; eauto.
    - cbn [ret fst snd]. destruct (orclose n1); [rewrite remove_keeps_node|]; eauto. }
  destruct Hc as (n2 & Hn2 & Ho2).
  unfold Open, bind, get_node, set_node, fail. rewrite Hn2, Ho2, andb_false_r.
  reflexivity.
Qed.

(** X22. [Remove] takes a node out of its directory and frees its path
    id; no other entry of the directory changes, and a second [Remove]
    of the node finds nothing to remove and changes nothing.  A
    directory that has entries is not removed. *)
Theorem Remove_unlinks (l pl : loc) (n pn : node) (s : FS) :
  nodes s !! l = Some n ->
  (has_bit (Mode (dir n)) DMDIR = true -> default ∅ (children n) <> ∅ ->
     Remove l s = (Err (perror "directory not empty"), s)) /\
  (parent n = Some pl -> pl <> l -> nodes s !! pl = Some pn ->
   is_Some (default ∅ (children pn) !! Name (dir n)) ->
   (has_bit (Mode (dir n)) DMDIR = true -> default ∅ (children n) = ∅) ->
   let s' := snd (Remove l s) in
   fst (Remove l s) = Ok tt /\
   child s' pl (Name (dir n)) = None /\
   (forall name, name <> Name (dir n) -> child s' pl name = child s pl name) /\
   (forall l', l' <> pl -> nodes s' !! l' = nodes s !! l') /\
   pathmap s' !! Path (qid (dir n)) = Some true /\
   Remove l s' = (Err (perror "file does not exist"), s')).
Proof.
  intros Hl. split.
  - intros Hdir Hne. unfold Remove, remove, bind, get_node, fail. rewrite Hl, Hdir.
    destruct (Z.eqb_spec (Z.of_nat (stdpp.base.size (default ∅ (children n)))) 0)
      as [E|E]; [|reflexivity].
    exfalso. apply Hne. apply map_size_empty_iff. lia.
  - intros Hp Hpl Hpn [x Hx] Hempty s'. subst s'.
    assert (Hcond : has_bit (Mode (dir n)) DMDIR
             && negb (Z.of_nat (stdpp.base.size (default ∅ (children n))) =? 0) = false).
    { destruct (has_bit (Mode (dir n)) DMDIR); [|reflexivity].
      rewrite Hempty by reflexivity. rewrite map_size_empty. reflexivity. }
    set (pn' := set_children (delete (Name (dir n)) <$> children pn) pn).
    set (s' := set_pathmap (<[Path (qid (dir n)) := true]> (pathmap s)) (upd pl pn' s)).
    assert (E : Remove l s = (Ok tt, s')).
    { unfold Remove, remove, bind, get_node, set_node, delPath, fail.
      rewrite Hl, Hcond, Hp. rewrite (bool_decide_eq_false_2 (pl = l)) by done.
      rewrite Hpn, Hx. reflexivity. }
    rewrite E. cbn [fst snd].
    assert (Hs'pl : nodes s' !! pl = Some pn') by apply lookup_insert_eq.
    assert (Hs'l : nodes s' !! l = Some n).
    { subst s'. cbn. rewrite lookup_insert_ne by done. exact Hl. }
    assert (Hdel : forall name, default ∅ (children pn') !! name =
              if bool_decide (name = Name (dir n)) then None
              else default ∅ (children pn) !! name).
    { intros name. subst pn'. cbn [children set_children].
      destruct (children pn) as [ch|]; cbn.
      - case_bool_decide as E'; [subst; apply lookup_delete_eq|now apply lookup_delete_ne].
      - rewrite lookup_empty. now destruct (bool_decide _). }
    split; [done|]. unfold child. rewrite Hs'pl, Hpn.
    split; [rewrite Hdel; now rewrite bool_decide_eq_true_2|].
    split. { intros name Hne. rewrite Hdel. now rewrite bool_decide_eq_false_2. }
    split. { intros l' Hl'. subst s'. cbn. now rewrite lookup_insert_ne. }
    split; [apply lookup_insert_eq|].
    unfold Remove, remove, bind, get_node, fail. rewrite Hs'l, Hcond, Hp.
    rewrite (bool_decide_eq_false_2 (pl = l)) by done. rewrite Hs'pl, Hdel.
    now rewrite bool_decide_eq_true_2.
Qed.

End NodeFacts2.

Lemma Create_existing_witness :
  fst (Create listed 0%nat "glenda" "adm" OREAD o666 0 (New "bootes" 0)) = Ok 1%nat /\
  path (snd (Create listed 0%nat "glenda" "adm" OREAD o666 0 (New "bootes" 0))) = 6.
Proof.
  pose proof (fun n => Create_existing listed 0%nat 1%nat "glenda" "adm" OREAD o666 0
                         (New "bootes" 0) n 5) as H.
  edestruct H as (_ & H1 & _ & _ & _ & H2); try (vm_compute; reflexivity);
    try discriminate.
  split; [apply H1; vm_compute; reflexivity|].
  rewrite H2. vm_compute. reflexivity.
Defined.

Lemma Open_exclusive_witness :
  let s0 := snd (Create listed 0%nat "bootes" "lock" OREAD (Z.lor o666 DMEXCL) 0
                   (New "bootes" 0)) in
  Open 5%nat OWRITE (snd (Open 5%nat OREAD s0)) =
    (Err (perror "exclusive use file already open"), snd (Open 5%nat OREAD s0)).
Proof.
  intros s0.
  pose proof (fun n => Open_exclusive 5%nat n OREAD OWRITE s0) as H.
  edestruct H as (_ & H1 & _); [vm_compute; reflexivity|reflexivity|reflexivity|].
  exact H1.
Defined.

Lemma Remove_unlinks_witness :
  fst (Remove 2%nat (New "bootes" 0)) = Ok tt /\
  child (snd (Remove 2%nat (New "bootes" 0))) 1%nat "group" = None.
Proof.
  pose proof (fun n pn => Remove_unlinks 2%nat 1%nat n pn (New "bootes" 0)) as H.
  edestruct H as [_ H1]; [vm_compute; reflexivity|].
  edestruct H1 as (H2 & H3 & _); [reflexivity|discriminate|vm_compute; reflexivity|
    vm_compute; eauto|discriminate|].
  split; [exact H2|exact H3].
Defined.

Lemma tree_ok_Open l mode s : tree_ok s -> tree_ok (snd (Open l mode s)).
Proof.
  intros Ht. unfold Open, bind, get_node, set_node, fail.
  destruct (nodes s !! l) as [n|] eqn:Hl; [|done].
  destruct (has_bit (Mode (dir n)) DMEXCL && open n); [done|]. cbn [snd].
  apply (tree_ok_upd_shape s l n); [done|done|].
  destruct (_ && _), (has_bit mode ORCLOSE); reflexivity.
Qed.

Lemma tree_ok_remove l s : tree_ok s -> tree_ok (snd (remove l s)).
Proof.
  intros Ht. unfold remove, bind, get_node, set_node, delPath, fail, panic, deadlock.
  destruct (nodes s !! l) as [n|] eqn:Hl; [|done].
  destruct (_ && _); [done|].
  destruct (parent n) as [pl|]; [|done].
  case_bool_decide as Hpl; [done|].
  destruct (nodes s !! pl) as [pn|] eqn:Hpn; [|done].
  destruct (default ∅ (children pn) !! Name (dir n)); [|done]. cbn [fst snd].
  eapply tree_ok_frame; [reflexivity|].
  apply (tree_ok_upd s pl pn); try done.
  intros name c. cbn [children set_children].
  destruct (children pn) as [ch|]; cbn; [|done].
  intros H. now apply lookup_delete_Some in H as [_ H].
Qed.

Lemma tree_ok_Close l s : tree_ok s -> tree_ok (snd (Close l s)).
Proof.
  intros Ht. unfold Close. unfold bind at 1, get_node at 1.
  destruct (nodes s !! l) as [n|] eqn:Hl; [|done].
  unfold bind at 1, set_node at 1.
  set (n1 := if _ && _ then set_open false n else n).
  assert (H1 : tree_ok (upd l n1 s)).
  { apply (tree_ok_upd_shape s l n); [done|done|]. subst n1.
    now destruct (_ && _). }
  fold (upd l n1 s). unfold bind at 1.
  destruct (negb (has_bit (Mode (dir n)) DMDIR)).
  - destruct (file n); cbn [panic ret fst snd]; [|done].
    destruct (orclose n); [now apply tree_ok_remove|done].
  - cbn [ret fst snd]. destruct (orclose n); [now apply tree_ok_remove|done].
Qed.

Section TreeOps.

Variable order : forall (K : Type) (E : EqDecision K) (C : Countable K) (V : Type),
  gmap K V -> list (K * V).
Variable dirBytes : Dir -> outcome (list byte).

Lemma tree_ok_Create l uid name mode perm now s :
  tree_ok s -> tree_ok (snd (Create order l uid name mode perm now s)).
Proof.
  intros Ht. unfold Create. destruct (_ || _); [done|].
  unfold bind at 1, get_node at 1.
  destruct (nodes s !! l) as [n|] eqn:Hl; [|done].
  destruct (negb _); [done|]. destruct (_ && _); [done|].
  unfold bind at 1.
  assert (Hn : nodes (snd (newPath order s)) = nodes s).
  { unfold newPath. destruct (range order (pathmap s)) as [|[p b] ?]; [|reflexivity].
    destruct (_ =? _); reflexivity. }
  destruct (newPath order s) as [[p|e|m| |] s1]; cbn [snd] in Hn |- *;
    try (eapply tree_ok_frame; eassumption).
  assert (H1 : tree_ok s1) by (eapply tree_ok_frame; eassumption).
  destruct (default ∅ (children n) !! name) as [f|] eqn:Hf.
  { unfold bind, ret. pose proof (tree_ok_Open f mode s1 H1) as Ho.
    destruct (Open f mode s1) as [[[]| | | |] s2]; exact Ho. }
  destruct (children n) as [ch|] eqn:Hch; [|done].
  unfold bind, set_node, ret. cbn [fst snd].
  apply (tree_ok_create s1 l n ch name); try done.
  - now rewrite Hn.
  - rewrite Hn. apply not_elem_of_dom. rewrite <- Hn. apply is_fresh.
  - unfold newNode. now destruct (has_bit _ DMDIR).
  - unfold newNode. now destruct (has_bit _ DMDIR).
Qed.

Lemma tree_ok_buffer_WriteAt l n b p offset s :
  tree_ok s -> nodes s !! l = Some n ->
  tree_ok (snd (buffer_WriteAt l n b p offset s)).
Proof.
  intros Ht Hl. destruct b as [f| |]; unfold buffer_WriteAt.
  - destruct (File.WriteAt p offset f) as [r f']. cbn [snd].
    now apply (tree_ok_upd_shape s l n).
  - destruct (Group.WriteAt p offset (group s)) as [r g']. cbn [snd].
    now apply (tree_ok_frame s).
  - apply (tree_ok_frame s); [|done]. unfold ctl_WriteAt.
    destruct (Group.unmarshal_command p) as [cmd| | | |]; try reflexivity.
    destruct (bool_decide _); [|reflexivity].
    destruct (Group.Args cmd) as [|a0 [|a1 [|a2 ?]]]; reflexivity.
Qed.

Lemma tree_ok_WriteAt l p offset now s :
  tree_ok s -> tree_ok (snd (WriteAt l p offset now s)).
Proof.
  intros Ht. unfold WriteAt. unfold bind at 1, get_node at 1.
  destruct (nodes s !! l) as [n|] eqn:Hl; [|done].
  destruct (has_bit (Mode (dir n)) DMDIR); [done|].
  unfold bind at 1.
  set (off := if has_bit (Mode (dir n)) DMAPPEND then _ else _).
  assert (Hoff : snd (off s) = s).
  { subst off. destruct (has_bit _ DMAPPEND); [|done].
    destruct (file n); [|done]. now destruct (_ <? _). }
  destruct (off s) as [[o|e|m| |] s0]; cbn [snd] in Hoff; subst s0; try done.
  destruct (file n) as [b|]; [|done].
  unfold bind at 1.
  pose proof (tree_ok_buffer_WriteAt l n b p o s Ht Hl) as H1.
  destruct (buffer_WriteAt l n b p o s) as [[m|e|m| |] s1]; cbn [snd] in H1; try done.
  unfold bind at 1, get_node at 1.
  destruct (nodes s1 !! l) as [n1|] eqn:Hl1; [|done].
  unfold bind, set_node, ret. cbn [fst snd].
  apply (tree_ok_upd_shape s1 l n1); [done|done|].
  destruct (negb _); reflexivity.
Qed.

Lemma tree_ok_ReadAt l lenp offset now s :
  tree_ok s -> tree_ok (snd (ReadAt order l lenp offset now s)).
Proof.
  intros Ht. unfold ReadAt. unfold bind at 1, get_node at 1.
  destruct (nodes s !! l) as [n|] eqn:Hl; [|done].
  destruct (has_bit (Mode (dir n)) DMDIR); [done|].
  destruct (file n) as [b|]; [|done].
  unfold bind at 1.
  assert (Hb : snd (buffer_ReadAt order b lenp offset s) = s) by now destruct b.
  destruct (buffer_ReadAt order b lenp offset s) as [[data|e|m| |] s0];
    cbn [snd] in Hb; subst s0; try done.
  unfold bind, set_node, ret. cbn [fst snd].
  now apply (tree_ok_upd_shape s l n).
Qed.

Lemma tree_ok_modify_node l f s :
  (forall n, shape (f n) = shape n) ->
  tree_ok s -> tree_ok (snd (modify_node l f s)).
Proof.
  intros Hf Ht. unfold modify_node, bind, get_node, set_node.
  destruct (nodes s !! l) as [n|] eqn:Hl; [|done]. cbn [snd].
  now apply (tree_ok_upd_shape s l n).
Qed.

Lemma modify_node_parent l f s pl :
  (forall n, shape (f n) = shape n) ->
  (forall n, nodes s !! l = Some n -> parent n = pl) ->
  forall n, nodes (snd (modify_node l f s)) !! l = Some n -> parent n = pl.
Proof.
  intros Hf Hp n. unfold modify_node, bind, get_node, set_node.
  destruct (nodes s !! l) as [n0|] eqn:Hl; [|cbn; rewrite Hl; done]. cbn.
  rewrite lookup_insert_eq. intros [= <-].
  specialize (Hf n0). injection Hf as Hf _ _. rewrite Hf. now apply Hp.
Qed.

(** Giving a node that no entry leads to another name. *)
Lemma tree_ok_rename s l nl x :
  tree_ok s -> nodes s !! l = Some nl ->
  (forall d dn name, nodes s !! d = Some dn ->
     default ∅ (children dn) !! name <> Some l) ->
  tree_ok (upd l (set_dir (set_Name x (dir nl)) nl) s).
Proof.
  intros Ht Hl Hno d dn name c Hd Hc. cbn in Hd |- *.
  assert (Hold : exists d0, nodes s !! d = Some d0 /\
                   default ∅ (children d0) !! name = Some c).
  { destruct (decide (d = l)) as [->|Hne].
    - rewrite lookup_insert_eq in Hd. injection Hd as <-. eauto.
    - rewrite lookup_insert_ne in Hd by done. eauto. }
  destruct Hold as (d0 & Hd0 & Hc0).
  assert (Hcl : c <> l) by (intros ->; now apply (Hno d d0 name)).
  rewrite lookup_insert_ne by done. now apply (Ht d d0 name c).
Qed.

(** Entering a node that is there in the directory that is its parent,
    under its name. *)
Lemma tree_ok_link s pl pn ch name c cn :
  tree_ok s -> nodes s !! pl = Some pn -> children pn = Some ch ->
  nodes s !! c = Some cn -> c <> pl ->
  parent cn = Some pl -> Name (dir cn) = name ->
  tree_ok (upd pl (set_children (Some (<[name := c]> ch)) pn) s).
Proof.
  intros Ht Hpl Hch Hc Hcp Hp Hn d dn name' c' Hd Hdc. cbn in Hd |- *.
  assert (Hnode : forall c0 cn0 d0 nm, nodes s !! c0 = Some cn0 ->
            parent cn0 = Some d0 -> Name (dir cn0) = nm ->
            exists cn1, <[pl := set_children (Some (<[name := c]> ch)) pn]> (nodes s)
                          !! c0 = Some cn1 /\ parent cn1 = Some d0 /\
                        Name (dir cn1) = nm).
  { intros c0 cn0 d0 nm H0 H1 H2. destruct (decide (c0 = pl)) as [->|Hne].
    - rewrite lookup_insert_eq. eexists. split; [done|].
      rewrite Hpl in H0. injection H0 as <-. done.
    - rewrite lookup_insert_ne by done. eauto. }
  destruct (decide (d = pl)) as [->|Hdl].
  - rewrite lookup_insert_eq in Hd. injection Hd as <-. cbn in Hdc.
    destruct (decide (name' = name)) as [->|Hnn].
    + rewrite lookup_insert_eq in Hdc. injection Hdc as <-.
      now apply (Hnode c cn).
    + rewrite lookup_insert_ne in Hdc by done.
      destruct (Ht pl pn name' c') as (cn' & Hcn' & Hp' & Hn');
        [done|now rewrite Hch|]. now apply (Hnode c' cn').
  - rewrite lookup_insert_ne in Hd by done.
    destruct (Ht d dn name' c' Hd Hdc) as (cn' & Hcn' & Hp' & Hn').
    now apply (Hnode c' cn').
Qed.

Lemma tree_ok_rename_step l (d : Dir) n s :
  tree_ok s ->
  (forall n1, nodes s !! l = Some n1 ->
     parent n1 = parent n /\ Name (dir n1) = Name (dir n)) ->
  tree_ok (snd
    ((pn <- deref (parent n) ;;
      let pl := fst pn in
      set_node pl
        (set_children (delete (Name (dir n)) <$> children (snd pn)) (snd pn)) ;;;
      (if bool_decide (pl = l) then deadlock else ret tt) ;;;
      modify_node l (fun n => set_dir (set_Name (Name d) (dir n)) n) ;;;
      pn <- get_node pl ;;
      match children pn with
      | None => panic "assignment to entry in nil map"
      | Some ch => set_node pl (set_children (Some (<[Name d := l]> ch)) pn)
      end) s)).
Proof.
  intros Ht Hl. unfold deref. destruct (parent n) as [pl|] eqn:Hp; [|done].
  unfold bind at 1. unfold bind at 1, get_node at 1.
  destruct (nodes s !! pl) as [pn|] eqn:Hpn; [|done].
  unfold ret at 1. cbn [fst snd].
  unfold bind at 1, set_node at 1.
  set (pn1 := set_children (delete (Name (dir n)) <$> children pn) pn).
  fold (upd pl pn1 s).
  assert (H1 : tree_ok (upd pl pn1 s)).
  { apply (tree_ok_upd s pl pn); try done.
    intros name c. subst pn1. cbn [children set_children].
    destruct (children pn) as [ch|]; cbn; [|done].
    intros H. now apply lookup_delete_Some in H as [_ H]. }
  unfold bind at 1. case_bool_decide as Hpl; [done|].
  unfold ret at 1. unfold bind at 1.
  unfold modify_node, bind at 1, get_node at 1. cbn [nodes upd set_nodes].
  rewrite lookup_insert_ne by done.
  destruct (nodes s !! l) as [nl|] eqn:Hnl; [|done].
  destruct (Hl nl eq_refl) as [Hpar Hname].
  unfold set_node at 1.
  set (nl' := set_dir (set_Name (Name d) (dir nl)) nl).
  fold (upd pl pn1 s). fold (upd l nl' (upd pl pn1 s)).
  assert (Hs1l : nodes (upd pl pn1 s) !! l = Some nl).
  { cbn. now rewrite lookup_insert_ne. }
  assert (H2 : tree_ok (upd l nl' (upd pl pn1 s))).
  { apply tree_ok_rename; [done|done|].
    intros d0 dn0 name0 Hd0 Hc0.
    destruct (H1 d0 dn0 name0 l Hd0 Hc0) as (x & Hx & Hxp & Hxn).
    rewrite Hs1l in Hx. injection Hx as <-.
    rewrite Hpar in Hxp. injection Hxp as <-.
    cbn in Hd0. rewrite lookup_insert_eq in Hd0. injection Hd0 as <-.
    subst pn1. cbn [children set_children] in Hc0.
    destruct (children pn) as [ch|]; cbn in Hc0; [|done].
    apply lookup_delete_Some in Hc0 as [Hc0 _]. congruence. }
  unfold bind at 1, get_node at 1.
  assert (Hs2pl : nodes (upd l nl' (upd pl pn1 s)) !! pl = Some pn1).
  { cbn. rewrite lookup_insert_ne by done. apply lookup_insert_eq. }
  rewrite Hs2pl.
  destruct (children pn1) as [ch1|] eqn:Hch1; [|done].
  unfold set_node. cbn [snd].
  apply (tree_ok_link _ pl pn1 ch1 (Name d) l nl'); try done.
  apply lookup_insert_eq.
Qed.

Lemma tree_ok_Wstat_apply l d n s :
  tree_ok s -> nodes s !! l = Some n -> tree_ok (snd (Wstat_apply l d n s)).
Proof.
  intros Ht Hl. unfold Wstat_apply. unfold bind at 1.
  set (m1 := if wstat_chmod d n then _ else ret tt).
  assert (H1 : tree_ok (snd (m1 s)) /\
               forall n1, nodes (snd (m1 s)) !! l = Some n1 ->
                 parent n1 = parent n /\ Name (dir n1) = Name (dir n)).
  { subst m1. destruct (wstat_chmod d n).
    - split; [now apply tree_ok_modify_node|].
      unfold modify_node, bind, get_node, set_node. rewrite Hl. cbn.
      intros n1. rewrite lookup_insert_eq. now intros [= <-].
    - split; [done|]. cbn. intros n1. rewrite Hl. now intros [= <-]. }
  destruct (m1 s) as [[[]|e|m| |] s1]; cbn [snd] in H1; try apply H1.
  destruct H1 as [Ht1 Hl1]. unfold bind at 1.
  set (m2 := if wstat_rename d n then _ else ret tt).
  assert (H2 : tree_ok (snd (m2 s1))).
  { subst m2. destruct (wstat_rename d n); [|done].
    now apply tree_ok_rename_step. }
  destruct (m2 s1) as [[[]|e|m| |] s2]; cbn [snd] in H2; try done.
  destruct (wstat_chgrp d n); [|done]. now apply tree_ok_modify_node.
Qed.

Lemma tree_ok_Wstat l uname d s :
  tree_ok s -> tree_ok (snd (Wstat l uname d s)).
Proof.
  intros Ht. unfold Wstat. unfold bind at 1, get_node at 1.
  destruct (nodes s !! l) as [n|] eqn:Hl; [|done].
  unfold bind at 1. pose proof (Wstat_check_state uname d n s) as Hc.
  destruct (Wstat_check uname d n s) as [[[]|e|m| |] s0]; cbn [snd] in Hc;
    subst s0; try done.
  now apply tree_ok_Wstat_apply.
Qed.

Lemma run_tree_ok o s : tree_ok s -> tree_ok (run order dirBytes o s).
Proof.
  intros Ht. destruct o; cbn [run].
  - now apply tree_ok_Create.
  - now apply tree_ok_Open.
  - now apply tree_ok_Close.
  - now apply tree_ok_remove.
  - now apply tree_ok_WriteAt.
  - now apply tree_ok_ReadAt.
  - apply (keeps_Readdir order dirBytes unit (fun _ => tt) tree_ok (fun _ _ => True));
      [done|apply tree_ok_frame|done].
  - apply (keeps_Stat unit (fun _ => tt) tree_ok (fun _ _ => True)); done.
  - now apply tree_ok_Wstat.
  - rewrite HasPerm_state. done.
Qed.

(** X23. The tree stays sound: from a fresh file server on, whatever
    operations on nodes are called and however they come back, every
    entry of a directory leads to a node that has this directory as its
    parent and the key of the entry as its name. *)
Theorem tree_stays_sound (hostowner : string) (now : Z) (ops : list op) :
  tree_ok (run_all order dirBytes ops (New hostowner now)).
Proof.
  unfold run_all. generalize (New_tree_ok hostowner now).
  generalize (New hostowner now). induction ops as [|o ops IH]; intros s Hs; [done|].
  cbn [fold_left]. apply IH. now apply run_tree_ok.
Qed.

End TreeOps.

(** ** Fids: properties *)

Lemma Readdir_loop_state dirBytes cs : forall data s,
  snd (Readdir_loop dirBytes cs data s) = s.
Proof.
  induction cs as [|[name f] cs IH]; intros data s; [reflexivity|].
  cbn [Readdir_loop]. unfold bind, get_node.
  destruct (nodes s !! f) as [fn|]; [|reflexivity].
  destruct (dirBytes (dir fn)); try reflexivity. apply IH.
Qed.

Lemma Readdir_state order dirBytes l s : snd (Readdir order dirBytes l s) = s.
Proof.
  unfold Readdir, bind, get_node. destruct (nodes s !! l) as [n|]; [|reflexivity].
  destruct (negb _); [reflexivity|]. apply Readdir_loop_state.
Qed.

Lemma Fid_Close_plain (f : Fid) (n : node) (s : FS) :
  opened f = true -> nodes s !! fnode f = Some n ->
  has_bit (Mode (dir n)) 64 = false ->
  Fid_Close f s =
    (fst (Close (fnode f) s), set_opened false f, snd (Close (fnode f) s)).
Proof.
  intros Ho Hn Hx. unfold Fid_Close, isOpen. rewrite Ho, Hn. cbn [negb].
  change ORCLOSE with 64. rewrite Hx. unfold ret. cbn [fnode set_opened].
  now destruct (Close (fnode f) s).
Qed.

(** X24. The closing of a fid looks for the remove-on-close flag in the mode
    of the directory entry, where its value, 64, is the execute bit of
    the owner.  On a node whose mode has this bit the fid is closed only
    for a user that may write the node and its parent, and a refused
    close leaves the fid open and the node as it is; on a node without
    the bit the fid is closed and the node with it. *)
Theorem Fid_Close_rule (f : Fid) (n : node) (s : FS) :
  opened f = true -> nodes s !! fnode f = Some n ->
  (has_bit (Mode (dir n)) 64 = true ->
   fst (HasPerm (fnode f) (uid f) DMWRITE s) = Ok false ->
   Fid_Close f s = (Err errPerm, f, s)) /\
  (has_bit (Mode (dir n)) 64 = false ->
   Fid_Close f s =
     (fst (Close (fnode f) s), set_opened false f, snd (Close (fnode f) s))).
Proof.
  intros Ho Hn. split; [|now apply Fid_Close_plain].
  unfold Fid_Close, isOpen. rewrite Ho, Hn. cbn [negb].
  change ORCLOSE with 64.
  intros -> Hp. unfold remove_perm, bind.
  pose proof (HasPerm_state (fnode f) (uid f) DMWRITE s) as Hs.
  destruct (HasPerm (fnode f) (uid f) DMWRITE s) as [r s0].
  cbn [fst snd] in Hp, Hs. subst r s0. reflexivity.
Qed.

Lemma Fid_Close_rule_witness :
  let f := mkFid 1 "none" 0%nat true [] 0 in
  let s := New "bootes" 0 in
  Fid_Close f s = (Err errPerm, f, s).
Proof.
  intros f s.
  pose proof (fun n => Fid_Close_rule f n s eq_refl) as H0.
  edestruct H0 as [H _]; [vm_compute; reflexivity|].
  apply H; vm_compute; reflexivity.
Defined.

(** X25. The reading of a directory through a fid: a read at offset 0 asks
    the node for the entries, gives the first [lenp] bytes and keeps the
    rest in the fid; a read at any other offset gives the next bytes of
    what is kept, whatever the offset is.  Nothing of the server
    changes. *)
Theorem Fid_ReadAt_directory order dirBytes (f : Fid) (n : node)
    (lenp lenp' offset now : Z) (data : list byte) (s : FS) :
  opened f = true -> nodes s !! fnode f = Some n ->
  has_bit (Mode (dir n)) DMDIR = true ->
  fst (Readdir order dirBytes (fnode f) s) = Ok data ->
  0 <= lenp -> 0 <= lenp' -> offset <> 0 ->
  let k := Z.to_nat lenp in
  let k' := Z.to_nat lenp' in
  let f1 := set_buf (drop k data) f in
  Fid_ReadAt order dirBytes f lenp 0 now s = (Ok (take k data), f1, s) /\
  Fid_ReadAt order dirBytes f1 lenp' offset now s =
    (Ok (take k' (drop k data)), set_buf (drop (k + k') data) f, s).
Proof.
  intros Ho Hn Hdir Hr Hl Hl' Hoff k k' f1.
  assert (Htake : forall (b : list byte) m, 0 <= m ->
            take (Z.to_nat (Z.min m (len b))) b = take (Z.to_nat m) b /\
            drop (Z.to_nat (Z.min m (len b))) b = drop (Z.to_nat m) b).
  { intros b m Hm. unfold len.
    destruct (Z.le_ge_cases m (Z.of_nat (length b))) as [H|H].
    - now rewrite Z.min_l.
    - rewrite Z.min_r by lia. rewrite Nat2Z.id.
      rewrite !take_ge, !drop_ge by lia. done. }
  split.
  - unfold Fid_ReadAt, isOpen. rewrite Ho. cbn [negb].
    unfold Stat, bind, get_node, ret. rewrite Hn, Hdir. cbn [Z.eqb].
    pose proof (Readdir_state order dirBytes (fnode f) s) as Hs.
    destruct (Readdir order dirBytes (fnode f) s) as [r s0].
    cbn [fst snd] in Hr, Hs. subst r s0. cbn [buf set_buf].
    destruct (Htake data lenp Hl) as [-> ->]. reflexivity.
  - unfold Fid_ReadAt, isOpen. subst f1. cbn [opened set_buf fnode]. rewrite Ho.
    cbn [negb]. unfold Stat, bind, get_node, ret. rewrite Hn, Hdir.
    destruct (Z.eqb_spec offset 0) as [E|_]; [done|]. cbn [buf set_buf opened fnode].
    destruct (Htake (drop k data) lenp' Hl') as [-> ->].
    rewrite drop_drop. reflexivity.
Qed.

Lemma Fid_ReadAt_directory_witness :
  let f := mkFid 1 "bootes" 1%nat true [] 0 in
  let enc := fun d : Dir => Ok (bytes_of (Name d)) in
  fst (fst (Fid_ReadAt listed enc f 3 0 0 (New "bootes" 0))) =
    Ok (bytes_of "gro").
Proof.
  intros f enc.
  edestruct (Fid_ReadAt_directory listed enc f) with (lenp := 3) (lenp' := 0)
    (offset := 1) (now := 0) (s := New "bootes" 0) as [H _].
  - reflexivity.
  - vm_compute. reflexivity.
  - vm_compute. reflexivity.
  - vm_compute. reflexivity.
  - lia.
  - lia.
  - lia.
  - rewrite H. reflexivity.
Defined.

(** X26. [Fid.Open] marks the fid open before it asks the node.  When the
    node refuses, as a file for exclusive use that is open does, the
    call answers with the error and the fid stays marked; a close of
    this fid then clears the mark of the node, which another fid had
    set. *)
Theorem Fid_Open_refused_stays_open (f : Fid) (n : node) (s : FS) :
  opened f = false -> nodes s !! fnode f = Some n ->
  has_bit (Mode (dir n)) DMEXCL = true -> open n = true ->
  has_bit (Mode (dir n)) 64 = false -> orclose n = false ->
  is_Some (file n) ->
  fst (HasPerm (fnode f) (uid f) DMREAD s) = Ok true ->
  let f1 := set_opened true f in
  Fid_Open f OREAD s =
    (Err (perror "exclusive use file already open"), f1, s) /\
  exists s',
    Fid_Close f1 s = (Ok tt, f, s') /\
    nodes s' !! fnode f = Some (set_open false n).
Proof.
  intros Ho Hn Hexcl Hopen Hx Horc [b Hb] Hperm f1. split.
  - unfold Fid_Open. rewrite Ho.
    change (if has_bit OREAD OTRUNC then _ else _) with DMREAD.
    pose proof (HasPerm_state (fnode f) (uid f) DMREAD s) as Hs.
    destruct (HasPerm (fnode f) (uid f) DMREAD s) as [r s0].
    cbn [fst snd] in Hperm, Hs. subst r s0. cbn [fnode].
    unfold Open, bind, get_node, fail. rewrite Hn, Hexcl, Hopen. reflexivity.
  - assert (Hf : set_opened false f1 = f).
    { subst f1. destruct f. cbn in Ho |- *. now subst. }
    rewrite (Fid_Close_plain f1 n s eq_refl Hn Hx), Hf.
    subst f1. cbn [fnode set_opened].
    unfold Close, bind, get_node, set_node, ret. rewrite Hn, Hexcl, Hopen, Horc, Hb.
    cbn [andb fst snd]. destruct (negb _); cbn.
    + eexists. split; [reflexivity|]. apply lookup_insert_eq.
    + eexists. split; [reflexivity|]. apply lookup_insert_eq.
Qed.

Lemma Fid_Open_refused_stays_open_witness :
  let s0 := snd (Create listed 0%nat "bootes" "lock" OREAD (Z.lor o666 DMEXCL) 0
                   (New "bootes" 0)) in
  let s := snd (Open 5%nat OREAD s0) in
  let f := mkFid 2 "bootes" 5%nat false [] 0 in
  Fid_Open f OREAD s =
    (Err (perror "exclusive use file already open"), set_opened true f, s).
Proof.
  intros s0 s f.
  pose proof (fun n => Fid_Open_refused_stays_open f n s eq_refl) as H.
  edestruct H as [H1 _]; [vm_compute; reflexivity|..]; [..|exact H1];
    try (vm_compute; reflexivity).
  vm_compute. eauto.
Defined.

Import Server.

(** ** The server and the fid table: properties *)

(** X27. The version handler answers [9P2000] whatever version the
    client names; a message size below the header size is refused, and
    otherwise the size agreed is the smaller of the client's and the
    server's. *)
Theorem Version_negotiates (tx rx : Fcall) :
  Version_ (snd (Version tx rx)) = "9P2000" /\
  (fst (Version tx rx) = Err (perror "msize too small") <-> Msize tx < IOHDRSZ) /\
  (fst (Version tx rx) = Ok tt <-> IOHDRSZ <= Msize tx) /\
  Msize (snd (Version tx rx)) =
    if Msize tx <? IOHDRSZ then Msize rx else Z.min (Msize tx) MSIZE.
Proof.
  unfold Version. destruct (Z.ltb_spec (Msize tx) IOHDRSZ) as [H|H]; simpl.
  - split; [done|]. split; [split; [lia|done]|].
    split; [split; [discriminate|lia]|done].
  - split; [done|]. split; [split; [discriminate|lia]|]. split; [done|].
    destruct (Z.ltb_spec MSIZE (Msize tx)); simpl; lia.
Qed.

(** X28. The reference count of a fid: a release undoes a take as long
    as the 16-bit count does not wrap, and a release at zero leaves
    zero; at 65535 a take wraps the count to zero. *)
Theorem refcount_take_release (f : Fid) :
  (0 <= ref f < 2 ^ 16 - 1 -> decRef (incRef f) = (ref f, f)) /\
  (ref f = 0 -> decRef f = (0, f)) /\
  (ref f = 2 ^ 16 - 1 -> refCount (incRef f) = 0) /\
  (0 <= ref f < 2 ^ 16 ->
     0 <= fst (decRef f) <= ref f /\ refCount (snd (decRef f)) = fst (decRef f)).
Proof.
  destruct f as [n u nd o b r]. unfold decRef, incRef, refCount, set_ref, u16. simpl.
  split; [|split; [|split]].
  - intros H. rewrite (Z.mod_small (r + 1)) by lia.
    destruct (Z.eqb_spec (r + 1) 0); [lia|]. simpl.
    rewrite Z.mod_small by lia. repeat f_equal; lia.
  - intros ->. reflexivity.
  - intros ->. reflexivity.
  - intros H. destruct (Z.eqb_spec r 0); simpl; [lia|].
    rewrite Z.mod_small by lia. lia.
Qed.

Lemma refcount_take_release_witness :
  decRef (incRef (mkFid 1 "none" 0%nat false [] 2)) =
    (2, mkFid 1 "none" 0%nat false [] 2) /\
  refCount (incRef (mkFid 1 "none" 0%nat false [] 65535)) = 0.
Proof.
  split.
  - apply (refcount_take_release (mkFid 1 "none" 0%nat false [] 2)). simpl. lia.
  - apply (refcount_take_release (mkFid 1 "none" 0%nat false [] 65535)). reflexivity.
Defined.

(** X29. [GetFid] gives the fid of a number: the same fid as long as
    the number is in the table, and for a new number a fid that no other
    number has, on the root, of the user of the connection, not open and
    with no reference.  The table stays sound. *)
Theorem GetFid_spec (root : Ramfs.loc) (num : Z) (c : fidtable) :
  table_ok c ->
  let p := fst (GetFid root num c) in
  let c' := snd (GetFid root num c) in
  table_ok c' /\
  fidmap c' !! num = Some p /\
  GetFid root num c' = (p, c') /\
  (forall n, n <> num -> fidmap c' !! n = fidmap c !! n /\ fidmap c' !! n <> Some p) /\
  (forall q, q <> p -> fids c' !! q = fids c !! q) /\
  (fidmap c !! num = None ->
     fids c !! p = None /\
     fids c' !! p = Some (mkFid num (cuid c) root false [] 0)) /\
  (is_Some (fidmap c !! num) -> c' = c).
Proof.
  intros [Hin Hinj]. unfold GetFid. destruct (fidmap c !! num) as [p0|] eqn:E; simpl.
  - rewrite E. split; [by split|]. split; [done|]. split; [done|]. split.
    { intros n Hn. split; [done|]. intros H. apply Hn. now apply (Hinj n num p0). }
    split; [done|]. split; [discriminate|done].
  - unfold NewFid; cbn [fst snd fidmap fids cuid].
    set (p0 := fresh (dom (fids c))).
    assert (Hp0 : fids c !! p0 = None) by apply not_elem_of_dom, is_fresh.
    assert (Hnew : forall n, fidmap c !! n <> Some p0).
    { intros n Hn. apply Hin in Hn. rewrite Hp0 in Hn. now destruct Hn. }
    rewrite lookup_insert_eq. split; [|split; [done|split; [done|]]].
    + split.
      * intros n p. cbn [fidmap fids]. destruct (decide (n = num)) as [->|Hn].
        -- rewrite lookup_insert_eq. intros [= <-].
           rewrite lookup_alter_eq, lookup_insert_eq. now eexists.
        -- rewrite lookup_insert_ne by done. intros Hp.
           destruct (decide (p = p0)) as [->|Hpp]; [now apply Hnew in Hp|].
           rewrite lookup_alter_ne, lookup_insert_ne by done. now apply (Hin n).
      * intros n1 n2 p. cbn [fidmap fids].
        destruct (decide (n1 = num)) as [->|H1], (decide (n2 = num)) as [->|H2];
          rewrite ?lookup_insert_eq, ?lookup_insert_ne by done; try done.
        -- intros [= <-] H. now apply Hnew in H.
        -- intros H [= <-]. now apply Hnew in H.
        -- apply Hinj.
    + split; [|split; [|split]].
      * intros n Hn. rewrite lookup_insert_ne by done. split; [done|apply Hnew].
      * intros q Hq. now rewrite lookup_alter_ne, lookup_insert_ne.
      * intros _. split; [done|]. now rewrite lookup_alter_eq, lookup_insert_eq.
      * intros [? ?]. discriminate.
Qed.

Lemma GetFid_spec_witness :
  let c := mkFidtable "glenda" ∅ ∅ in
  fids (snd (GetFid 0%nat 7 c)) !! fst (GetFid 0%nat 7 c) =
    Some (mkFid 7 "glenda" 0%nat false [] 0).
Proof.
  apply (GetFid_spec 0%nat 7 (mkFidtable "glenda" ∅ ∅)).
  - split; intros ? ?; [intros q|intros q]; simpl; rewrite lookup_empty; discriminate.
  - reflexivity.
Defined.

(** X30. [DelFid] takes a number out of the table when its fid has no
    reference left, and leaves the table alone otherwise; it panics on a
    number that is not there.  Deleting the fid that [GetFid] has just
    made for a new number gives back the old numbering. *)
Theorem DelFid_spec (root : Ramfs.loc) (num : Z) (c : fidtable) :
  table_ok c ->
  (fidmap c !! num = None -> fst (DelFid num c) = Panic "fid not found") /\
  (forall p f, fidmap c !! num = Some p -> fids c !! p = Some f ->
     fst (DelFid num c) = Ok tt /\
     table_ok (snd (DelFid num c)) /\
     fids (snd (DelFid num c)) = fids c /\
     fidmap (snd (DelFid num c)) =
       if refCount f =? 0 then delete num (fidmap c) else fidmap c) /\
  (fidmap c !! num = None ->
     fidmap (snd (DelFid num (snd (GetFid root num c)))) = fidmap c).
Proof.
  intros Hok. split; [|split].
  - intros E. unfold DelFid. now rewrite E.
  - intros p f E Ef. unfold DelFid. rewrite E, Ef.
    destruct (refCount f =? 0); simpl; [|done].
    split; [done|]. split; [|done]. destruct Hok as [Hin Hinj]. split; simpl.
    + intros n q Hq. apply lookup_delete_Some in Hq as [_ Hq]. now apply (Hin n).
    + intros n1 n2 q H1 H2. apply lookup_delete_Some in H1 as [_ H1].
      apply lookup_delete_Some in H2 as [_ H2]. now apply (Hinj n1 n2 q).
  - intros E. unfold GetFid, NewFid. rewrite E. cbn [fst snd fidmap fids cuid].
    unfold DelFid. cbn [fidmap fids]. rewrite lookup_insert_eq.
    rewrite lookup_alter_eq, lookup_insert_eq. cbn.
    rewrite delete_insert_eq. now apply delete_id.
Qed.

Lemma DelFid_spec_witness :
  let c := mkFidtable "glenda" ∅ ∅ in
  fst (DelFid 7 c) = Panic "fid not found" /\
  fidmap (snd (DelFid 7 (snd (GetFid 0%nat 7 c)))) = fidmap c.
Proof.
  assert (H : table_ok (mkFidtable "glenda" ∅ ∅)).
  { split; intros ? ?; [intros q|intros q]; simpl; rewrite lookup_empty; discriminate. }
  destruct (DelFid_spec 0%nat 7 (mkFidtable "glenda" ∅ ∅) H) as (H1 & _ & H3).
  split; [apply H1|apply H3]; reflexivity.
Defined.
